(** * ALF grouped record store: a shallow embedding of [alframework/tools/database.py]

    The development follows the Python module function by function:
    ragged concatenation, the shape check, the flag filter, the [Database]
    class over a hierarchical array store, and the [ChunkLoader].

    Modelling conventions.
    - A numpy / zarr array is a dtype tag, a shape and a nested body.  Array
      elements are rationals: a float is modelled by the rational it denotes
      and an integer entry is an integral rational.  Casting to the integer
      dtype truncates toward zero, as numpy assignment does for a value whose
      integer part is an int64; what is stated of converted values is stated
      for the elements that [cast_defined] admits.
    - A Python exception is a value of [error]; stateful methods return the
      store as it is when the exception leaves the method, because mutations
      made before a [raise] stay visible.
    - The zarr hierarchy is a finite map from names to groups or arrays. *)

From Stdlib Require Import QArith Ascii.
From stdpp Require Import gmap strings list fin_maps pretty.

Set Warnings "-register-all".
Local Open Scope string_scope.
Local Open Scope list_scope.
Local Open Scope nat_scope.

(** ** Exceptions and results *)

Inductive error :=
  | AssertionError        (* the failed [assert check_dimensions(...)]: DimensionMismatch *)
  | KeyError
  | ValueError
  | TypeError
  | IndexError
  | AttributeError
  | ContainsArrayError
  | ContainsGroupError
  | ZeroDivisionError
  | NotImplementedError.

Inductive result (A : Type) :=
  | Ok (a : A)
  | Raise (e : error).
Arguments Ok {A} a.
Arguments Raise {A} e.

Definition rbind {A B} (r : result A) (k : A → result B) : result B :=
  match r with Ok a => k a | Raise e => Raise e end.

Definition of_option {A} (e : error) (o : option A) : result A :=
  match o with Some a => Ok a | None => Raise e end.

Fixpoint rmapM {A B} (f : A → result B) (l : list A) : result (list B) :=
  match l with
  | [] => Ok []
  | x :: l' => rbind (f x) (λ y, rbind (rmapM f l') (λ ys, Ok (y :: ys)))
  end.

(** ** Arrays *)

Inductive dtype := DInt | DFloat.

Global Instance dtype_eq_dec : EqDecision dtype.
Proof. solve_decision. Defined.

(** Nested body of an n-dimensional array: a scalar, or the rows along the
    leading axis. *)
Inductive nd :=
  | Leaf (x : Q)
  | Node (rows : list nd).

Record ndarray := mk_ndarray {
  arr_dtype : dtype;
  arr_shape : list nat;
  arr_body : nd
}.

(** [body] really has the shape [shape]. *)
Fixpoint conforms (shape : list nat) (body : nd) {struct body} : bool :=
  match body, shape with
  | Leaf _, [] => true
  | Node rows, d :: s => Nat.eqb (length rows) d && forallb (conforms s) rows
  | _, _ => false
  end.

Definition wf_array (a : ndarray) : Prop := conforms (arr_shape a) (arr_body a) = true.

(** Element read [a[i0, i1, ...]] with a full index. *)
Fixpoint nd_get (a : nd) (idx : list nat) {struct idx} : option Q :=
  match idx, a with
  | [], Leaf x => Some x
  | i :: idx', Node rows =>
      match rows !! i with Some r => nd_get r idx' | None => None end
  | _, _ => None
  end.

(** [idx] addresses an element of an array of shape [shape]. *)
Fixpoint in_bounds (shape idx : list nat) : Prop :=
  match shape, idx with
  | [], [] => True
  | d :: s, i :: idx' => i < d ∧ in_bounds s idx'
  | _, _ => False
  end.

Fixpoint nd_map (f : Q → Q) (a : nd) : nd :=
  match a with
  | Leaf x => Leaf (f x)
  | Node rows => Node (List.map (nd_map f) rows)
  end.

(** Conversion of one element to dtype [d]: a float64 array takes the value
    as it is, an int64 array its integer part, rounded toward zero.  This is
    numpy's conversion for the elements that [cast_defined] describes; numpy
    rounds an integer beyond 2^53 when it makes it a float, and gives no
    meaning to the conversion of a float whose integer part is no int64. *)
Definition astype (d : dtype) (x : Q) : Q :=
  match d with
  | DFloat => x
  | DInt => inject_Z (Z.quot (Qnum x) (Z.pos (Qden x)))
  end.

(** [np.zeros(shape)] *)
Fixpoint zeros (shape : list nat) : nd :=
  match shape with
  | [] => Leaf 0%Q
  | d :: s => Node (replicate d (zeros s))
  end.

(** Rows of an array along its leading axis (none for a 0-d array). *)
Definition nd_rows (a : nd) : list nd :=
  match a with Node rows => rows | Leaf _ => [] end.

(** [a.shape[0]] *)
Definition shape0 (a : ndarray) : result nat :=
  of_option IndexError (head (arr_shape a)).

(** [len(a)] *)
Definition py_len (a : ndarray) : result nat :=
  of_option TypeError (head (arr_shape a)).

(** [a.shape[1:]] *)
Definition trailing (a : ndarray) : list nat := tail (arr_shape a).

(** [a.reshape(1, *a.shape)] *)
Definition reshape1 (a : ndarray) : ndarray :=
  mk_ndarray (arr_dtype a) (1 :: arr_shape a) (Node [arr_body a]).

(** Pairwise assignment of the rows [src] over the first rows of [dst]; rows of
    [dst] beyond [src] are kept. *)
Fixpoint assign_rows (f : nd → nd → nd) (dst src : list nd) {struct src} : list nd :=
  match src, dst with
  | x :: src', r :: dst' => f r x :: assign_rows f dst' src'
  | _, _ => dst
  end.

(** [res[:d1, :d2, ...] = a] where [(d1, d2, ...)] is the shape of [a]: the
    top-left-aligned block of [res] receives the elements of [a], converted by
    [cast]; everything else is kept. *)
Fixpoint set_topleft (cast : Q → Q) (res a : nd) {struct a} : nd :=
  match a, res with
  | Leaf y, Leaf _ => Leaf (cast y)
  | Node src, Node dst => Node (assign_rows (set_topleft cast) dst src)
  | _, _ => res
  end.

(** [res[pos:pos+n, :d1, ...] = a] with [n = a.shape[0]]. *)
Definition set_block (cast : Q → Q) (pos : nat) (res a : nd) : nd :=
  match res with
  | Node dst =>
      Node (take pos dst ++ assign_rows (set_topleft cast) (drop pos dst) (nd_rows a))
  | Leaf _ => res
  end.

(** Componentwise minimum and maximum of a non-empty table of shapes:
    [np.min(shapes, axis=0)] and [np.max(shapes, axis=0)]. *)
Definition axis_fold (op : nat → nat → nat) (shapes : list (list nat)) : result (list nat) :=
  match shapes with
  | [] => Raise ValueError
  | s :: rest => Ok (foldl (zip_with op) s rest)
  end.

(** [np.array([...])] of the trailing shapes needs rows of one length. *)
Definition shape_table (array_list : list ndarray) : result (list (list nat)) :=
  let shapes := trailing <$> array_list in
  match shapes with
  | [] => Ok []
  | s :: rest =>
      if forallb (λ s', Nat.eqb (length s') (length s)) rest then Ok shapes else Raise ValueError
  end.

(** Result dtype of [np.concatenate]: float as soon as one input is float. *)
Definition promote (d1 d2 : dtype) : dtype :=
  match d1, d2 with DInt, DInt => DInt | _, _ => DFloat end.

(** [np.concatenate(array_list)] along the leading axis. *)
Definition np_concatenate (array_list : list ndarray) : result ndarray :=
  match array_list with
  | [] => Raise ValueError
  | a0 :: rest =>
      match arr_shape a0 with
      | [] => Raise ValueError
      | _ :: tl0 =>
          if forallb (λ a, match arr_shape a with
                           | [] => false
                           | _ :: tl => bool_decide (tl = tl0)
                           end) rest
          then
            let d := foldl promote (arr_dtype a0) (arr_dtype <$> rest) in
            let rows := concat ((λ a, nd_rows (arr_body a)) <$> array_list) in
            let n := sum_list ((λ a, default 0 (head (arr_shape a))) <$> array_list) in
            Ok (mk_ndarray d (n :: tl0) (nd_map (astype d) (Node rows)))
          else Raise ValueError
      end
  end.

(** The copy loop of the padded branch: [pos] is the running row offset. *)
Fixpoint copy_loop (cast : Q → Q) (array_list : list ndarray) (pos : nat) (res : nd)
    : result nd :=
  match array_list with
  | [] => Ok res
  | a :: rest =>
      rbind (shape0 a) (λ n,
        copy_loop cast rest (pos + n) (set_block cast pos res (arr_body a)))
  end.

Definition concatenate_different_arrays (array_list : list ndarray) (stack : bool)
    : result ndarray :=
  let array_list := if stack then reshape1 <$> array_list else array_list in
  rbind (shape_table array_list) (λ shapes,
  rbind (axis_fold Nat.min shapes) (λ min_shape,
  rbind (axis_fold Nat.max shapes) (λ max_shape,
    if bool_decide (min_shape = max_shape) then np_concatenate array_list
    else
      rbind (rmapM shape0 array_list) (λ lens,
        let number_of_elements := sum_list lens in
        rbind (of_option IndexError (head array_list)) (λ a0,
          let d := arr_dtype a0 in
          let result := zeros (number_of_elements :: max_shape) in
          rbind (copy_loop (astype d) array_list 0 result) (λ body,
            Ok (mk_ndarray d (number_of_elements :: max_shape) body))))))).

(** ** Shape validation *)

(** The loop of [check_dimensions] over [zip(shape1, shape2)].  [n_diff] is
    read by the loop and, as in the source, never assigned in it. *)
Fixpoint check_dimensions_loop (n_diff : nat) (n_atoms : nat)
    (pairs : list (nat * nat)) : bool :=
  match pairs with
  | [] => true
  | (i, j) :: rest =>
      if bool_decide (i ≠ j) then
        if bool_decide (n_diff = 1) then false
        else if bool_decide (j ≠ n_atoms) then false
        else check_dimensions_loop n_diff n_atoms rest
      else check_dimensions_loop n_diff n_atoms rest
  end.

Definition check_dimensions (template array : ndarray) (n_atoms : nat) : bool :=
  let shape1 := arr_shape template in
  let shape2 := arr_shape array in
  if bool_decide (length shape1 ≠ length shape2) then false
  else
    let n_diff := 0 in
    check_dimensions_loop n_diff n_atoms (zip shape1 shape2).

(** ** Flag filter *)

(** [array != value] on float flags. *)
Definition flag_ne (x v : Q) : bool := negb (Qeq_bool x v).

(** Positions of the [true] entries of a mask: [np.where(mask)[0]]. *)
Fixpoint np_where (mask : list bool) (i : nat) : list nat :=
  match mask with
  | [] => []
  | b :: rest => if b then i :: np_where rest (S i) else np_where rest (S i)
  end.

Definition exclude_values (array : list Q) (values : option (list Q)) : list nat :=
  match values with
  | None => seq 0 (length array)
  | Some [] => seq 0 (length array)
  | Some (v0 :: vs) =>
      let result_mask := (λ x, flag_ne x v0) <$> array in
      let result_mask :=
        foldl (λ mask value, zip_with andb mask ((λ x, flag_ne x value) <$> array))
              result_mask vs in
      np_where result_mask 0
  end.

(** ** Python values handed to the store *)

(** A record dictionary: its array-valued entries in insertion order, and the
    optional scalar entry [global_property]. *)
Record record := mk_record {
  fields : list (string * ndarray);
  global_flag : option Q
}.

(** Argument of [add_instance]: a dict, a list, or anything else. *)
Inductive item :=
  | Dict (r : record)
  | PyList (l : list item)
  | Other.

Fixpoint assoc (key : string) (l : list (string * ndarray)) : option ndarray :=
  match l with
  | [] => None
  | (k, v) :: l' => if bool_decide (k = key) then Some v else assoc key l'
  end.

(** [item[key]] used as an array: the scalar flag entry has no [shape]. *)
Definition getitem (r : record) (key : string) : result ndarray :=
  if bool_decide (key = "global_property") then
    match global_flag r with
    | Some _ => Raise AttributeError
    | None => Raise KeyError
    end
  else of_option KeyError (assoc key (fields r)).

(** [item.get("global_property", 0)] *)
Definition get_flag (r : record) : Q := default 0%Q (global_flag r).

(** [list(item.keys())] without ["global_property"]. *)
Definition keys (r : record) : list string := fst <$> fields r.

(** ** Group names *)

Fixpoint zero_pad (k : nat) (s : string) : string :=
  match k with
  | 0 => s
  | S k' => String "0"%char (zero_pad k' s)
  end.

(** [f"{n:03}"]: decimal digits, zero-padded to width 3 (sign included). *)
Definition format03 (n : Z) : string :=
  if bool_decide (n < 0)%Z then
    let digits := pretty (Z.abs n) in
    String "-"%char (zero_pad (2 - String.length digits) digits)
  else
    let digits := pretty n in
    zero_pad (3 - String.length digits) digits.

(** [f"{n}"] *)
Definition format_plain (n : Z) : string := pretty n.

(** ** The store *)

Record Database := mk_db {
  property_names : option (list string);      (* [None]: attribute not set *)
  db_size : nat;
  data : gmap string (gmap string ndarray);   (* [data/<group>/<property>] *)
  global_indices : option (list (Z * Z));     (* [global/indices] *)
  global_property : option (list Q);          (* [global/global_property] *)
  leaf_structure : option (gmap string ndarray);  (* [global/leaf_structure/<property>] *)
  reductions : gmap string (gmap string (list (Z * Z)))  (* [reductions/<name>/<stage>] *)
}.

(** [Database(directory, property_names)] on a fresh directory. *)
Definition Database_init (names : option (list string)) : Database :=
  mk_db names 0 ∅ None None None ∅.

(** [len(database)] *)
Definition Database_len (db : Database) : nat := db_size db.

(** ** Stateful computations that may raise *)

Definition M (A : Type) : Type := Database → result A * Database.

Definition ret {A} (a : A) : M A := λ db, (Ok a, db).
Definition raise {A} (e : error) : M A := λ db, (Raise e, db).
Definition bind {A B} (m : M A) (k : A → M B) : M B :=
  λ db, match m db with
        | (Ok a, db') => k a db'
        | (Raise e, db') => (Raise e, db')
        end.
Definition lift {A} (r : result A) : M A := λ db, (r, db).
Definition gets {A} (f : Database → A) : M A := λ db, (Ok (f db), db).
Definition modify (f : Database → Database) : M unit := λ db, (Ok tt, f db).

Notation "x <- c ;; k" := (bind c (λ x, k))
  (at level 100, c at next level, right associativity).
Notation "c ;;; k" := (bind c (λ _, k))
  (at level 100, right associativity).

(** [for x in l: body(x)] *)
Fixpoint for_each {A} (l : list A) (body : A → M unit) : M unit :=
  match l with
  | [] => ret tt
  | x :: l' => body x ;;; for_each l' body
  end.

(** Field updates. *)
Definition set_property_names v db :=
  mk_db v (db_size db) (data db) (global_indices db) (global_property db)
        (leaf_structure db) (reductions db).
Definition set_db_size v db :=
  mk_db (property_names db) v (data db) (global_indices db) (global_property db)
        (leaf_structure db) (reductions db).
Definition set_data v db :=
  mk_db (property_names db) (db_size db) v (global_indices db) (global_property db)
        (leaf_structure db) (reductions db).
Definition set_global_indices v db :=
  mk_db (property_names db) (db_size db) (data db) v (global_property db)
        (leaf_structure db) (reductions db).
Definition set_global_property v db :=
  mk_db (property_names db) (db_size db) (data db) (global_indices db) v
        (leaf_structure db) (reductions db).
Definition set_leaf_structure v db :=
  mk_db (property_names db) (db_size db) (data db) (global_indices db) (global_property db)
        v (reductions db).
Definition set_reductions v db :=
  mk_db (property_names db) (db_size db) (data db) (global_indices db) (global_property db)
        (leaf_structure db) v.

(** *** Backend operations (zarr) *)

(** [root["global"].array("indices", placeholder)] *)
Definition create_indices (rows : list (Z * Z)) : M unit :=
  cur <- gets global_indices ;;
  match cur with
  | Some _ => raise ContainsArrayError
  | None => modify (set_global_indices (Some rows))
  end.

(** [root["global"].array("global_property", placeholder)] *)
Definition create_flags (flags : list Q) : M unit :=
  cur <- gets global_property ;;
  match cur with
  | Some _ => raise ContainsArrayError
  | None => modify (set_global_property (Some flags))
  end.

(** [root["global"].create_group("leaf_structure")] *)
Definition create_leaf_structure : M unit :=
  cur <- gets leaf_structure ;;
  match cur with
  | Some _ => raise ContainsGroupError
  | None => modify (set_leaf_structure (Some ∅))
  end.

(** [root["data"].create_group(group_name)] *)
Definition create_data_group (group_name : string) : M unit :=
  d <- gets data ;;
  match d !! group_name with
  | Some _ => raise ContainsGroupError
  | None => modify (set_data (<[group_name := ∅]> d))
  end.

(** [root["global/leaf_structure"].array(key, elem_example)] *)
Definition leaf_array (key : string) (a : ndarray) : M unit :=
  cur <- gets leaf_structure ;;
  match cur with
  | None => raise KeyError
  | Some ls =>
      match ls !! key with
      | Some _ => raise ContainsArrayError
      | None => modify (set_leaf_structure (Some (<[key := a]> ls)))
      end
  end.

(** [root[f"data/{group_name}"].array(key, placeholder)] *)
Definition group_array (group_name key : string) (a : ndarray) : M unit :=
  d <- gets data ;;
  match d !! group_name with
  | None => raise KeyError
  | Some g =>
      match g !! key with
      | Some _ => raise ContainsArrayError
      | None => modify (set_data (<[group_name := <[key := a]> g]> d))
      end
  end.

(** [root[f"global/leaf_structure/{key}"][:]] *)
Definition leaf_lookup (key : string) : M ndarray :=
  cur <- gets leaf_structure ;;
  lift (of_option KeyError (cur ≫= (.!! key))).

(** [root[f"data/{group_name}/{key}"]] *)
Definition group_lookup (group_name key : string) : M ndarray :=
  d <- gets data ;;
  lift (of_option KeyError (d !! group_name ≫= (.!! key))).

(** [zarr.zeros(value.shape, dtype=value.dtype)] *)
Definition zeros_like (value : ndarray) : ndarray :=
  mk_ndarray (arr_dtype value) (arr_shape value) (zeros (arr_shape value)).

(** [placeholder = zarr.zeros((1, *value.shape), dtype=value.dtype); placeholder[0] = value] *)
Definition placeholder (value : ndarray) : ndarray :=
  mk_ndarray (arr_dtype value) (1 :: arr_shape value)
             (set_block (astype (arr_dtype value)) 0 (zeros (1 :: arr_shape value))
                        (Node [arr_body value])).

(** zarr [append] of [rows] along axis 0: every other axis must agree; the
    rows are stored with the array's dtype. *)
Definition zarr_append (a rows : ndarray) : result ndarray :=
  match arr_shape a, arr_shape rows with
  | n :: s, k :: s' =>
      if bool_decide (s = s') then
        Ok (mk_ndarray (arr_dtype a) ((n + k) :: s)
              (Node (nd_rows (arr_body a)
                     ++ List.map (nd_map (astype (arr_dtype a))) (nd_rows (arr_body rows)))))
      else Raise ValueError
  | _, _ => Raise ValueError
  end.

(** [root[f"data/{group_name}/{key}"].append(value.reshape(1, *value.shape))] *)
Definition group_append (group_name key : string) (value : ndarray) : M unit :=
  a <- group_lookup group_name key ;;
  a' <- lift (zarr_append a (reshape1 value)) ;;
  d <- gets data ;;
  modify (set_data (<[group_name := <[key := a']> (default ∅ (d !! group_name))]> d)).

(** [root["global/global_property"].append([flag])] *)
Definition flags_append (flag : Q) : M unit :=
  cur <- gets global_property ;;
  match cur with
  | None => raise KeyError
  | Some fl => modify (set_global_property (Some (fl ++ [flag])))
  end.

(** [root["global/indices"].append([[n_atoms, loc_index]])] *)
Definition indices_append (row : Z * Z) : M unit :=
  cur <- gets global_indices ;;
  match cur with
  | None => raise KeyError
  | Some ix => modify (set_global_indices (Some (ix ++ [row])))
  end.

(** [self.property_names] *)
Definition get_property_names : M (list string) :=
  cur <- gets property_names ;;
  lift (of_option AttributeError cur).

(** *** Insertion *)

Definition _add_first_element (item : record) : M unit :=
  species <- lift (getitem item "species") ;;
  n_atoms <- lift (py_len species) ;;
  let group_name := format03 (Z.of_nat n_atoms) in
  create_indices [(Z.of_nat n_atoms, 0%Z)] ;;;
  create_flags [get_flag item] ;;;
  create_leaf_structure ;;;
  create_data_group group_name ;;;
  has <- gets property_names ;;
  match has with
  | None => modify (set_property_names (Some (keys item)))
  | Some _ => ret tt
  end ;;;
  properties <- get_property_names ;;
  for_each properties (λ key,
    value <- lift (getitem item key) ;;
    leaf_array key (zeros_like value) ;;;
    group_array group_name key (placeholder value)) ;;;
  modify (set_db_size 1).

(** The [dict] branch of [add_instance]. *)
Definition add_record (item : record) : M unit :=
  size <- gets db_size ;;
  if bool_decide (size = 0) then _add_first_element item
  else
    flags_append (get_flag item) ;;;
    species <- lift (getitem item "species") ;;
    n_atoms <- lift (py_len species) ;;
    let group_name := format03 (Z.of_nat n_atoms) in
    d <- gets data ;;
    match d !! group_name with
    | None =>
        create_data_group group_name ;;;
        names <- get_property_names ;;
        for_each names (λ key,
          template_array <- leaf_lookup key ;;
          value <- lift (getitem item key) ;;
          if check_dimensions template_array value n_atoms
          then group_array group_name key (placeholder value)
          else raise AssertionError)
    | Some _ =>
        names <- get_property_names ;;
        for_each names (λ key,
          value <- lift (getitem item key) ;;
          group_append group_name key value)
    end ;;;
    names <- get_property_names ;;
    first <- lift (of_option IndexError (head names)) ;;
    a <- group_lookup group_name first ;;
    len <- lift (py_len a) ;;
    let loc_index := (Z.of_nat len - 1)%Z in
    size <- gets db_size ;;
    modify (set_db_size (size + 1)) ;;;
    indices_append (Z.of_nat n_atoms, loc_index).

Fixpoint add_instance (it : item) : M unit :=
  match it with
  | PyList l =>
      (fix loop (l : list item) : M unit :=
         match l with
         | [] => ret tt
         | i :: l' => add_instance i ;;; loop l'
         end) l
  | Dict r => add_record r
  | Other => raise NotImplementedError
  end.

(** *** Retrieval *)

(** Argument of [get_item]: one [(group key, local offset)] pair of Python
    ints, a sequence of such pairs, or anything else. *)
Inductive selection :=
  | SelPair (group_key offset : Z)
  | SelBatch (pairs : list (Z * Z))
  | SelOther.

(** What [get_item] returns: raw rows, per-group row blocks, or padded blocks. *)
Inductive selected :=
  | Raw (values : gmap string ndarray)
  | Grouped (blocks : gmap string (list ndarray))
  | Padded (blocks : gmap string ndarray).

(** An integer index into an axis of length [len]: negative values wrap once,
    anything still outside raises. *)
Definition norm_index (len : nat) (i : Z) : result nat :=
  let i' := if bool_decide (i < 0)%Z then (i + Z.of_nat len)%Z else i in
  if bool_decide (0 ≤ i' < Z.of_nat len)%Z then Ok (Z.to_nat i') else Raise IndexError.

(** [a[i]] on a stored array. *)
Definition read_row (a : ndarray) (i : Z) : result ndarray :=
  match arr_shape a with
  | n :: s =>
      rbind (norm_index n i) (λ k,
      rbind (of_option IndexError (nd_rows (arr_body a) !! k)) (λ r,
        Ok (mk_ndarray (arr_dtype a) s r)))
  | [] => Raise IndexError
  end.

(** [a[offsets]] with an integer array of row numbers. *)
Definition read_rows (a : ndarray) (offsets : list Z) : result ndarray :=
  match arr_shape a with
  | n :: s =>
      rbind (rmapM (λ i, rbind (norm_index n i) (λ k,
                          of_option IndexError (nd_rows (arr_body a) !! k))) offsets) (λ rows,
        Ok (mk_ndarray (arr_dtype a) (length offsets :: s) (Node rows)))
  | [] => Raise IndexError
  end.

(** A block of index pairs as the integer array of shape [(k, 2)] it is. *)
Definition index_array (pairs : list (Z * Z)) : ndarray :=
  mk_ndarray DInt [length pairs; 2]
    (Node ((λ p : Z * Z, Node [Leaf (inject_Z p.1); Leaf (inject_Z p.2)]) <$> pairs)).

(** Apply a fallible function to every value of a mapping. *)
Definition map_result {V W} (f : V → result W) (m : gmap string V) : result (gmap string W) :=
  rbind (rmapM (λ kv : string * V, rbind (f kv.2) (λ w, Ok (kv.1, w))) (map_to_list m))
        (λ l, Ok (list_to_map l)).

Fixpoint insert_unique (x : Z) (l : list Z) : list Z :=
  match l with
  | [] => [x]
  | y :: l' =>
      if bool_decide (x < y)%Z then x :: l
      else if bool_decide (x = y) then l
      else y :: insert_unique x l'
  end.

(** [np.unique]: the distinct values in ascending order. *)
Definition np_unique (l : list Z) : list Z := foldr insert_unique [] l.

Definition get_item_single (db : Database) (group_key offset : Z)
    : result (gmap string ndarray) :=
  rbind (of_option KeyError (data db !! format_plain group_key)) (λ grp,
    map_result (λ a, read_row a offset) grp).

(** One round of the batch loop, for the group key [n_atom]. *)
Definition get_item_group (db : Database) (pairs : list (Z * Z))
    (results : gmap string (list ndarray)) (n_atom : Z)
    : result (gmap string (list ndarray)) :=
  let indices := List.filter (λ p : Z * Z, bool_decide (p.1 = n_atom)) pairs in
  rbind (of_option KeyError (data db !! format03 n_atom)) (λ grp,
    if bool_decide (size results = 0) then
      rbind (foldl (λ acc (kv : string * ndarray),
                      rbind acc (λ res,
                      rbind (read_rows kv.2 (snd <$> indices)) (λ block,
                        Ok (<[kv.1 := [block]]> res))))
                   (Ok results) (map_to_list grp)) (λ res,
        Ok (<["indices" := [index_array indices]]> res))
    else
      rbind (foldl (λ acc (kv : string * ndarray),
                      rbind acc (λ res,
                      rbind (read_rows kv.2 (snd <$> indices)) (λ block,
                      rbind (of_option KeyError (res !! kv.1)) (λ blocks,
                        Ok (<[kv.1 := blocks ++ [block]]> res)))))
                   (Ok results) (map_to_list grp)) (λ res,
      rbind (of_option KeyError (res !! "indices")) (λ blocks,
        Ok (<["indices" := blocks ++ [index_array indices]]> res)))).

Definition get_item (db : Database) (selection_index : selection) (pad_arrays : bool)
    : result selected :=
  match selection_index with
  | SelBatch [] => Raise IndexError
  | SelBatch pairs =>
      let groups := np_unique (fst <$> pairs) in
      rbind (foldl (λ acc n_atom, rbind acc (λ res, get_item_group db pairs res n_atom))
                   (Ok ∅) groups) (λ results,
        if pad_arrays then
          rbind (map_result (λ v, concatenate_different_arrays v false) results) (λ padded,
            Ok (Padded padded))
        else Ok (Grouped results))
  | SelPair group_key offset =>
      rbind (get_item_single db group_key offset) (λ res, Ok (Raw res))
  | SelOther => Raise NotImplementedError
  end.

(** *** Reductions *)

(** [int(x)] for a float [x]: truncation toward zero. *)
Definition py_int (x : Q) : Z := Z.quot (Qnum x) (Z.pos (Qden x)).

(** [np.random.choice(population, size, replace=False)].  The random draw is
    the argument [draw]; [is_draw] says what a draw is. *)
Definition np_random_choice (population : list nat) (size : Z) (draw : list nat)
    : result (list nat) :=
  if bool_decide (size < 0)%Z then Raise ValueError
  else if bool_decide (Z.of_nat (length population) < size)%Z then Raise ValueError
  else Ok draw.

Definition is_draw (population : list nat) (size : Z) (draw : list nat) : Prop :=
  Z.of_nat (length draw) = size ∧ NoDup draw ∧ ∀ p, p ∈ draw → p ∈ population.

(** [flags[index_array] = value] with an integer index array: every entry of
    the (flattened) index array is bounds-checked, then written. *)
Definition set_coordinates (flags : list Q) (coords : list Z) (value : Q)
    : result (list Q) :=
  rbind (rmapM (norm_index (length flags)) coords) (λ ks,
    Ok (foldl (λ fl k, <[k := value]> fl) flags ks)).

(** The entries of an [(k, 2)] index array in row-major order. *)
Definition flatten_pairs (pairs : list (Z * Z)) : list Z :=
  concat ((λ p : Z * Z, [p.1; p.2]) <$> pairs).

(** [root["reductions"].create_group(name, overwrite=overwrite)] *)
Definition create_reduction_group (name : string) (overwrite : bool) : M unit :=
  r <- gets reductions ;;
  match r !! name with
  | Some _ =>
      if overwrite then modify (set_reductions (<[name := ∅]> r))
      else raise ContainsGroupError
  | None => modify (set_reductions (<[name := ∅]> r))
  end.

(** [root[f"reductions/{name}"].array(stage, rows)] *)
Definition reduction_array (name stage : string) (rows : list (Z * Z)) : M unit :=
  r <- gets reductions ;;
  match r !! name with
  | None => raise KeyError
  | Some g =>
      match g !! stage with
      | Some _ => raise ContainsArrayError
      | None => modify (set_reductions (<[name := <[stage := rows]> g]> r))
      end
  end.

Definition create_initial_reduction (name : string) (fraction : Q) (overwrite : bool)
    (exclude_global : option (list Q)) (draw : list nat) : M unit :=
  flags <- gets global_property ;;
  global_property <- lift (of_option KeyError flags) ;;
  let valid_positions := exclude_values global_property exclude_global in
  let selection_size := py_int (inject_Z (Z.of_nat (length valid_positions)) * fraction)%Q in
  selected_positions <- lift (np_random_choice valid_positions selection_size draw) ;;
  ix <- gets global_indices ;;
  indices <- lift (of_option KeyError ix) ;;
  selected_indices <-
    lift (rmapM (λ p, of_option IndexError (indices !! p)) selected_positions) ;;
  flags' <- lift (set_coordinates global_property (flatten_pairs selected_indices) 2%Q) ;;
  modify (set_global_property (Some flags')) ;;;
  create_reduction_group name overwrite ;;;
  reduction_array name "000" selected_indices.

(** Default arguments of [create_initial_reduction]. *)
Definition default_exclude_reduction : option (list Q) := Some [1%Q].

(** *** Chunked iteration *)

Record ChunkLoader := mk_loader {
  chunk_indices : list (list (Z * Z))
}.

(** [ary[st:end]] for non-negative bounds. *)
Definition slice {A} (st en : nat) (l : list A) : list A := take (en - st) (drop st l).

(** [np.split(ary, borders)]: the pieces between consecutive division points
    [0, borders..., len(ary)]. *)
Fixpoint np_split_from {A} (st : nat) (borders : list nat) (l : list A) : list (list A) :=
  match borders with
  | [] => [slice st (length l) l]
  | b :: rest => slice st b l :: np_split_from b rest l
  end.

Definition np_split {A} (l : list A) (borders : list nat) : list (list A) :=
  np_split_from 0 borders l.

Definition ChunkLoader_init (indices : list (Z * Z)) (chunk_size : nat)
    : result ChunkLoader :=
  if bool_decide (chunk_size = 0) then Raise ZeroDivisionError
  else
    let n_chunks :=
      length indices / chunk_size
      + (if bool_decide (length indices mod chunk_size ≠ 0) then 1 else 0) in
    let borders := (λ k, k * chunk_size) <$> seq 1 (n_chunks - 1) in
    Ok (mk_loader (np_split indices borders)).

(** [len(loader)] *)
Definition ChunkLoader_len (loader : ChunkLoader) : nat := length (chunk_indices loader).

(** [loader[item]], reading through the database the loader refers to. *)
Definition ChunkLoader_getitem (loader : ChunkLoader) (db : Database) (item : Z)
    : result selected :=
  rbind (norm_index (length (chunk_indices loader)) item) (λ k,
  rbind (of_option IndexError (chunk_indices loader !! k)) (λ chunk,
    get_item db (SelBatch chunk) false)).

(** Stable insertion of a keyed position into a list sorted by key. *)
Fixpoint insert_by_key (x : Z * nat) (l : list (Z * nat)) : list (Z * nat) :=
  match l with
  | [] => [x]
  | y :: l' => if bool_decide (x.1 < y.1)%Z then x :: l else y :: insert_by_key x l'
  end.

(** [np.argsort(keys)]: the positions of [keys] in ascending key order.
    Entries with equal keys keep their relative order here. *)
Definition np_argsort (keys : list Z) : list nat :=
  snd <$> foldl (λ acc x, insert_by_key x acc) [] (zip keys (seq 0 (length keys))).

(** Default arguments of [get_chunk_loader]. *)
Definition default_exclude_loader : option (list Q) := Some [1%Q; 2%Q].

Definition get_chunk_loader (db : Database) (chunk_size : nat)
    (exclude_global : option (list Q)) : result ChunkLoader :=
  rbind (of_option KeyError (global_property db)) (λ flags,
    let valid_positions := exclude_values flags None in
    rbind (of_option KeyError (global_indices db)) (λ indices,
    rbind (rmapM (λ p, of_option IndexError (indices !! p)) valid_positions) (λ valid_indices,
      let order := np_argsort (fst <$> valid_indices) in
      rbind (rmapM (λ p, of_option IndexError (valid_indices !! p)) order) (λ sorted_indices,
        ChunkLoader_init sorted_indices chunk_size)))).

(** ** Notions the statements below are phrased with *)

(** The shape rule in the specification's words: same rank, at most one axis
    differs from the template, and a differing axis has the value [n_atoms]. *)
Definition differing_axes (template array : list nat) : list (nat * nat) :=
  List.filter (λ p : nat * nat, negb (Nat.eqb p.1 p.2)) (zip template array).

Definition single_axis_rule (template array : list nat) (n_atoms : nat) : bool :=
  Nat.eqb (length template) (length array)
  && Nat.leb (length (differing_axes template array)) 1
  && forallb (λ p : nat * nat, Nat.eqb p.2 n_atoms) (differing_axes template array).

(** What the loop of [check_dimensions] computes: same rank, and every
    differing axis has the value [n_atoms]. *)
Definition every_differing_axis_rule (template array : list nat) (n_atoms : nat) : bool :=
  Nat.eqb (length template) (length array)
  && forallb (λ p : nat * nat, Nat.eqb p.2 n_atoms) (differing_axes template array).

(** Leading length of an array, [0] for a 0-d array. *)
Definition leading (a : ndarray) : nat := default 0 (head (arr_shape a)).

(** First output row that belongs to the [k]-th input of a concatenation. *)
Definition row_offset (array_list : list ndarray) (k : nat) : nat :=
  sum_list (leading <$> take k array_list).

(** All inputs have the same trailing shape. *)
Definition uniform_trailing (array_list : list ndarray) : Prop :=
  ∀ a b, a ∈ array_list → b ∈ array_list → trailing a = trailing b.

(** The inputs are arrays of one rank, at least 1, with bodies of their shape. *)
Definition concatenable (array_list : list ndarray) : Prop :=
  (∀ a, a ∈ array_list → wf_array a ∧ arr_shape a ≠ [])
  ∧ ∀ a b, a ∈ array_list → b ∈ array_list →
      length (arr_shape a) = length (arr_shape b).

(** [m] is the componentwise maximum of the trailing shapes. *)
Definition is_componentwise_max (array_list : list ndarray) (m : list nat) : Prop :=
  (∀ a, a ∈ array_list → length (trailing a) = length m)
  ∧ ∀ j x, m !! j = Some x →
      (∀ a y, a ∈ array_list → trailing a !! j = Some y → y ≤ x)
      ∧ ∃ a, a ∈ array_list ∧ trailing a !! j = Some x.

(** Rows of [a] written over copies of the block [z]. *)
Definition padded_rows (cast : Q → Q) (z : nd) (a : ndarray) : list nd :=
  set_topleft cast z <$> nd_rows (arr_body a).

(** Every element of every input is found in [r], in the rows of that input
    and at the same trailing index, as its image under [f]. *)
Definition data_reappears (f : Q → Q) (array_list : list ndarray) (r : ndarray) : Prop :=
  ∀ k a i idx v,
    array_list !! k = Some a →
    nd_get (arr_body a) (i :: idx) = Some v →
    nd_get (arr_body r) (row_offset array_list k + i :: idx) = Some (f v).

(** The integer part of [v], rounded toward zero. *)
Definition integer_part (v : Q) : Z := Z.quot (Qnum v) (Z.pos (Qden v)).

(** [v] is an integer. *)
Definition is_integer (v : Q) : bool := Z.eqb (Z.rem (Qnum v) (Z.pos (Qden v))) 0.

(** The values of int64. *)
Definition int64_range (z : Z) : bool := Z.leb (- 2 ^ 63) z && Z.ltb z (2 ^ 63).

(** The element [v] of an array of dtype [src] is one that numpy converts to
    dtype [dst] without rounding and without overflow: an element of an int64
    array is an integer of that range, and float64 holds it exactly if its
    magnitude is at most 2^53; an element of a float64 array becomes an int64
    if its integer part is one. *)
Definition cast_defined (src dst : dtype) (v : Q) : bool :=
  match src, dst with
  | DInt, DInt => is_integer v && int64_range (integer_part v)
  | DInt, DFloat => is_integer v && Z.leb (Z.abs (integer_part v)) (2 ^ 53)
  | DFloat, DInt => int64_range (integer_part v)
  | DFloat, DFloat => true
  end.

(** What an array of dtype [d] holds for the element [v] assigned to it: [v]
    itself if [d] is float64, the integer part of [v] if [d] is int64. *)
Definition converted (d : dtype) (v : Q) : Q :=
  match d with
  | DFloat => v
  | DInt => inject_Z (integer_part v)
  end.

(** Every element of every input that can be converted to dtype [d] is found
    in [r], in the rows of that input and at the same trailing index,
    converted to [d]. *)
Definition data_converted (d : dtype) (array_list : list ndarray) (r : ndarray) : Prop :=
  ∀ k a i idx v,
    array_list !! k = Some a →
    nd_get (arr_body a) (i :: idx) = Some v →
    cast_defined (arr_dtype a) d v = true →
    nd_get (arr_body r) (row_offset array_list k + i :: idx) = Some (converted d v).

(** Every element of [r] that no input covers is zero. *)
Definition rest_is_zero (array_list : list ndarray) (r : ndarray) : Prop :=
  ∀ j idx,
    in_bounds (arr_shape r) (j :: idx) →
    (∀ k a i, array_list !! k = Some a → j = row_offset array_list k + i →
              nd_get (arr_body a) (i :: idx) = None) →
    nd_get (arr_body r) (j :: idx) = Some 0%Q.

(** Arrays of integer dtype hold integers. *)
Definition well_typed (a : ndarray) : Prop :=
  arr_dtype a = DInt →
  ∀ idx v, nd_get (arr_body a) idx = Some v → ∃ z : Z, v = inject_Z z.


(** A sequence of [add_instance] calls, each returning before the next. *)
Definition add_instances (calls : list item) : M unit := for_each calls add_instance.

(** [ceil(p / w)] *)
Definition ceil_div (p w : nat) : nat := (p + w - 1) / w.


(** From [db] to [db'] the index and the record count are the same. *)
Definition same_index (db db' : Database) : Prop :=
  global_indices db' = global_indices db ∧ db_size db' = db_size db.

(** From [db] to [db'] the index, the record count, the schema, the
    reductions and every group other than [g] are the same. *)
Definition frame (g : string) (db db' : Database) : Prop :=
  same_index db db'
  ∧ property_names db' = property_names db
  ∧ leaf_structure db' = leaf_structure db
  ∧ reductions db' = reductions db
  ∧ ∀ g', g' ≠ g → data db' !! g' = data db !! g'.

(** From [db] to [db'] nothing but the group [g] may have changed. *)
Definition group_write (g : string) (db db' : Database) : Prop :=
  frame g db db' ∧ global_property db' = global_property db.

(** [m] leaves the store in relation [R] with the one it started from. *)
Definition preserves {A} (R : relation Database) (m : M A) : Prop :=
  ∀ db, R db (m db).2.

(** [m] never raises [e]. *)
Definition cannot_raise {A} (e : error) (m : M A) : Prop :=
  ∀ db, (m db).1 ≠ Raise e.

(** The tail of [add_instance] after the group write. *)
Definition index_tail (n_atoms : nat) : M unit :=
  names <- get_property_names ;;
  first <- lift (of_option IndexError (head names)) ;;
  a <- group_lookup (format03 (Z.of_nat n_atoms)) first ;;
  len <- lift (py_len a) ;;
  let loc_index := (Z.of_nat len - 1)%Z in
  size <- gets db_size ;;
  modify (set_db_size (size + 1)) ;;;
  indices_append (Z.of_nat n_atoms, loc_index).

(** Some schema property of [item] is rejected by [check_dimensions] against
    its template in [db]. *)
Definition rejected (db : Database) (names : list string) (item : record)
    (n_atoms : nat) : Prop :=
  ∃ key template value,
    key ∈ names
    ∧ leaf_structure db ≫= (.!! key) = Some template
    ∧ getitem item key = Ok value
    ∧ check_dimensions template value n_atoms = false.

(** Every schema property has a template in [db] and a value in [item]. *)
Definition complete (db : Database) (names : list string) (item : record) : Prop :=
  ∀ key, key ∈ names →
    ∃ template value,
      leaf_structure db ≫= (.!! key) = Some template ∧ getitem item key = Ok value.

(** The group [g] of [db] exists in [db'] with the same arrays. *)
Definition group_kept (db db' : Database) (g : string) : Prop :=
  ∀ arrays, data db !! g = Some arrays → data db' !! g = Some arrays.

(** ** Sample data *)

Definition vec (d : dtype) (l : list Q) : ndarray :=
  mk_ndarray d [length l] (Node (Leaf <$> l)).

Definition mat (d : dtype) (cols : nat) (l : list (list Q)) : ndarray :=
  mk_ndarray d [length l; cols] (Node ((λ r, Node (Leaf <$> r)) <$> l)).

(** The two records of the module's demo (with fixed forces), and variants. *)
Definition water : record :=
  mk_record [("species", vec DInt [1; 8; 1]%Q);
             ("forces", mat DFloat 3 [[1; 2; 3]; [4; 5; 6]; [7; 8; 9]]%Q)] None.

Definition five_atoms : record :=
  mk_record [("species", vec DInt [1; 8; 1; 4; 5]%Q);
             ("forces", mat DFloat 3 [[1; 2; 3]; [4; 5; 6]; [7; 8; 9];
                                      [1; 1; 1]; [2; 2; 2]]%Q)] None.

(** Five atoms, but forces of shape [(4, 3)]. *)
Definition five_atoms_short : record :=
  mk_record [("species", vec DInt [1; 8; 1; 4; 5]%Q);
             ("forces", mat DFloat 3 [[1; 2; 3]; [4; 5; 6]; [7; 8; 9]; [1; 1; 1]]%Q)] None.

(** Five atoms, forces of shape [(5, 5)]: two axes differ from the [(3, 3)] template. *)
Definition five_atoms_square : record :=
  mk_record [("species", vec DInt [1; 8; 1; 4; 5]%Q);
             ("forces", mat DFloat 5 (replicate 5 (replicate 5 1%Q)))] None.

(** A one-atom record, optionally flagged. *)
Definition hydrogen (flag : option Q) : record :=
  mk_record [("species", vec DInt [1%Q]); ("forces", mat DFloat 3 [[1; 0; 0]%Q])] flag.

(** An integer block and a float block of different widths. *)
Definition mixed_pair : list ndarray :=
  [mat DInt 1 [[1%Q]]; mat DFloat 2 [[3 # 2; 5 # 2]%Q]].

(** What the padded concatenation of [mixed_pair] returns. *)
Definition mixed_result : ndarray :=
  mk_ndarray DInt [2; 2] (Node [Node [Leaf 1%Q; Leaf 0%Q]; Node [Leaf 1%Q; Leaf 2%Q]]).

(** The store after the given insertions into a fresh store. *)
Definition store_after (its : list item) : Database :=
  (add_instance (PyList its) (Database_init None)).2.

Definition store_water : Database := store_after [Dict water].
Definition store_two : Database := store_after [Dict water; Dict five_atoms].
Definition store_four_h : Database :=
  store_after [Dict (hydrogen None); Dict (hydrogen None);
               Dict (hydrogen None); Dict (hydrogen None)].
Definition store_flagged : Database :=
  store_after [Dict (mk_record (fields water) (Some 1%Q)); Dict five_atoms].

(** ** Further parts of the model, and notions for the statements about them *)

(** [l] is strictly increasing. *)
Definition ascending (l : list nat) : Prop :=
  ∀ i j x y, i < j → l !! i = Some x → l !! j = Some y → x < y.

(** The records (and other leaves) of an argument of [add_instance], in the
    order in which they are reached. *)
Fixpoint flatten (it : item) : list item :=
  match it with
  | PyList l => concat (List.map flatten l)
  | _ => [it]
  end.

(** From [db] to [db'] the count did not go down, the reductions are the same
    and, if [db] held a record, so is the schema. *)
Definition schema_kept (db db' : Database) : Prop :=
  db_size db ≤ db_size db'
  ∧ reductions db' = reductions db
  ∧ (db_size db ≠ 0 →
     property_names db' = property_names db ∧ leaf_structure db' = leaf_structure db).

(** [a'] is [a] with rows appended. *)
Definition array_extends (a a' : ndarray) : Prop :=
  arr_dtype a' = arr_dtype a
  ∧ (∃ more, nd_rows (arr_body a') = nd_rows (arr_body a) ++ more)
  ∧ match arr_shape a with
    | [] => arr_shape a' = []
    | n :: s => ∃ k, arr_shape a' = (n + k) :: s
    end.

(** From [db] to [db'] the index, the flags and every stored array only grew
    at their end. *)
Definition grows (db db' : Database) : Prop :=
  (∀ ix, global_indices db = Some ix → ∃ more, global_indices db' = Some (ix ++ more))
  ∧ (∀ fl, global_property db = Some fl → ∃ more, global_property db' = Some (fl ++ more))
  ∧ ∀ g grp, data db !! g = Some grp →
      ∃ grp', data db' !! g = Some grp'
              ∧ ∀ key a, grp !! key = Some a →
                  ∃ a', grp' !! key = Some a' ∧ array_extends a a'.

(** From [db] to [db'] the count did not go down and the schema and the
    reductions are the same. *)
Definition schema_same (db db' : Database) : Prop :=
  db_size db ≤ db_size db'
  ∧ property_names db' = property_names db
  ∧ leaf_structure db' = leaf_structure db
  ∧ reductions db' = reductions db.

(** From [db] to [db'] the reductions are the same. *)
Definition reductions_same (db db' : Database) : Prop :=
  reductions db' = reductions db.

(** The integer that a string of decimal digits with an optional minus sign
    denotes, which is what [int(key)] returns on such a string. *)
Definition digit_value (c : ascii) : option Z :=
  let n := nat_of_ascii c in
  if bool_decide (48 ≤ n ≤ 57) then Some (Z.of_nat (n - 48)) else None.

Fixpoint digits_value (acc : Z) (s : string) : option Z :=
  match s with
  | EmptyString => Some acc
  | String c s' => d ← digit_value c; digits_value (acc * 10 + d)%Z s'
  end.

Definition decimal_value (s : string) : option Z :=
  match s with
  | EmptyString => None
  | String "-" EmptyString => None
  | String "-" s' => Z.opp <$> digits_value 0 s'
  | _ => digits_value 0 s
  end.

(** The rows are in ascending order of their group key. *)
Definition sorted_by_key (rows : list (Z * Z)) : Prop :=
  ∀ i j p q, i ≤ j → rows !! i = Some p → rows !! j = Some q → (p.1 ≤ q.1)%Z.

(** Keyed positions in ascending order of their key. *)
Fixpoint keys_ascend (l : list (Z * nat)) : Prop :=
  match l with
  | [] => True
  | x :: l' => Forall (λ y, (x.1 ≤ y.1)%Z) l' ∧ keys_ascend l'
  end.

(** From [db] to [db'] the flag array is the same. *)
Definition same_flags (db db' : Database) : Prop :=
  global_property db' = global_property db.

(** *** Reading a reduction back *)

(** [max(keys)] on strings: the first greatest element, [ValueError] on an
    empty sequence. *)
Definition py_max (l : list string) : result string :=
  match l with
  | [] => Raise ValueError
  | x :: rest => Ok (foldl (λ m y, if String.ltb m y then y else m) x rest)
  end.

(** [get_last_reduction(name)].  The stage names are enumerated in the order
    of the map; the greatest of them does not depend on that order. *)
Definition get_last_reduction (db : Database) (name : string) : result (list (Z * Z)) :=
  rbind (of_option KeyError (reductions db !! name)) (λ g,
  rbind (py_max (fst <$> map_to_list g)) (λ max_key,
    of_option KeyError (g !! max_key))).

(** [s.zfill(width)]: zeros after a leading sign, up to the width. *)
Definition zfill (width : nat) (s : string) : string :=
  match s with
  | String c rest =>
      if bool_decide (c = "-"%char ∨ c = "+"%char)
      then String c (zero_pad (width - String.length s) rest)
      else zero_pad (width - String.length s) s
  | EmptyString => zero_pad width s
  end.

(** The argument [stage] of [dump_reduction]: [None], an [int], or a name. *)
Inductive stage_arg :=
  | StageNone
  | StageInt (n : Z)
  | StageName (s : string).

(** [dump_reduction(name, output_format, stage)] *)
Definition dump_reduction (db : Database) (name output_format : string) (stage : stage_arg)
    : result selected :=
  rbind (match stage with
         | StageNone => get_last_reduction db name
         | StageInt n =>
             of_option KeyError (reductions db !! name ≫= (.!! zfill 3 (pretty n)))
         | StageName s => of_option KeyError (reductions db !! name ≫= (.!! s))
         end) (λ reduction,
    get_item db (SelBatch reduction) true).

(** The records among the leaves of an argument of [add_instance], in the
    order in which they are reached. *)
Fixpoint leaf_records (it : item) : list record :=
  match it with
  | Dict r => [r]
  | PyList l => concat (List.map leaf_records l)
  | Other => []
  end.

(** [len(item["species"])], where it is defined. *)
Definition n_atoms_of (r : record) : option nat :=
  match getitem r "species" with
  | Ok species => head (arr_shape species)
  | Raise _ => None
  end.

(** Number of entries of [sizes] that equal [n]. *)
Definition count_size (n : nat) (sizes : list nat) : nat :=
  length (List.filter (Nat.eqb n) sizes).

(** The index rows of records of the given entity sizes, inserted in that
    order: the size, and the number of earlier records of the same size. *)
Definition expected_index (sizes : list nat) : list (Z * Z) :=
  imap (λ i n, (Z.of_nat n, Z.of_nat (count_size n (take i sizes)))) sizes.

(** The stored array [a] has [c] rows. *)
Definition has_rows (a : ndarray) (c : nat) : Prop :=
  head (arr_shape a) = Some c ∧ length (nd_rows (arr_body a)) = c.

(** The array [row] is [value] as it is stored: it has the shape of [value]
    and holds, at every index of [value], the element converted to its own
    dtype, for every element of [value] that can be converted to it. *)
Definition stored_copy (row value : ndarray) : Prop :=
  arr_shape row = arr_shape value
  ∧ ∀ idx v,
      in_bounds (arr_shape value) idx → nd_get (arr_body value) idx = Some v →
      cast_defined (arr_dtype value) (arr_dtype row) v = true →
      nd_get (arr_body row) idx = Some (converted (arr_dtype row) v).

(** Row [loc] of the stored array [a] is [value], converted to the dtype of
    [a]. *)
Definition holds_value (a : ndarray) (loc : nat) (value : ndarray) : Prop :=
  ∃ row,
    read_row a (Z.of_nat loc) = Ok row
    ∧ arr_dtype row = arr_dtype a ∧ stored_copy row value.

(** The record [item] is stored at the index pair [(n, loc)]: the group of
    entity size [n] holds, for every property of the schema, the value of
    [item] in row [loc]. *)
Definition record_stored (db : Database) (item : record) (n loc : nat) : Prop :=
  ∃ names grp,
    property_names db = Some names
    ∧ data db !! format03 (Z.of_nat n) = Some grp
    ∧ ∀ key, key ∈ names →
        ∃ value a, getitem item key = Ok value ∧ grp !! key = Some a
                   ∧ holds_value a loc value.

(** The arrays of a group are those of the schema, with [c] rows each. *)
Definition group_inv (names : list string) (c : nat) (grp : gmap string ndarray) : Prop :=
  (∀ key, is_Some (grp !! key) ↔ key ∈ names)
  ∧ ∀ key a, grp !! key = Some a → has_rows a c.

(** Every array of a group has one axis more than the template of its
    property. *)
Definition group_ranks (ls grp : gmap string ndarray) : Prop :=
  ∀ key a template,
    grp !! key = Some a → ls !! key = Some template →
    length (arr_shape a) = S (length (arr_shape template)).

(** The store holds records of the entity sizes [sizes] with the flags
    [flags]: count, index and flags say so, the schema and the templates name
    the same properties, none of them twice, and the group of every entity
    size holds, for the properties of the schema and no others, an array with
    one row for each record of that size and one axis more than the
    template. *)
Definition store_inv (db : Database) (sizes : list nat) (flags : list Q) : Prop :=
  db_size db = length sizes
  ∧ global_indices db = Some (expected_index sizes)
  ∧ global_property db = Some flags
  ∧ length flags = length sizes
  ∧ ∃ names ls,
      property_names db = Some names ∧ NoDup names
      ∧ leaf_structure db = Some ls ∧ (∀ key, is_Some (ls !! key) ↔ key ∈ names)
      ∧ ∀ n, match data db !! format03 (Z.of_nat n) with
             | None => count_size n sizes = 0
             | Some grp => group_inv names (count_size n sizes) grp ∧ group_ranks ls grp
             end.

(** The store after insertions of records of the given sizes and flags into
    a fresh one. *)
Definition store_state (db : Database) (sizes : list nat) (flags : list Q) : Prop :=
  match sizes with
  | [] => flags = [] ∧ ∃ names, db = Database_init names
  | _ :: _ => store_inv db sizes flags
  end.

(** Each of the records [recs], of the entity sizes [sizes], is stored at the
    index pair that [expected_index] gives it. *)
Definition records_stored (db : Database) (recs : list record) (sizes : list nat) : Prop :=
  ∀ i r n, recs !! i = Some r → sizes !! i = Some n →
           record_stored db r n (count_size n (take i sizes)).

(** *** Opening an existing store *)

(** Names in the order in which zarr lists the members of a group, which is
    the sorted one. *)
Fixpoint insert_name (x : string) (l : list string) : list string :=
  match l with
  | [] => [x]
  | y :: l' => if String.leb x y then x :: l else y :: insert_name x l'
  end.

Definition sorted_names (l : list string) : list string := foldr insert_name [] l.

(** [Database.load_from_zarr(directory)], which is [Database(directory)], on
    the directory of the store of [db]: a new object over the same store.
    The store has its data group, so the constructor takes the branch that
    reads the schema and the count back, if the leaf structure exists. *)
Definition load_from_zarr (db : Database) : result Database :=
  match leaf_structure db with
  | Some ls =>
      rbind (of_option KeyError (global_indices db)) (λ indices,
        Ok (mk_db (Some (sorted_names (fst <$> map_to_list ls))) (length indices)
                  (data db) (global_indices db) (global_property db)
                  (leaf_structure db) (reductions db)))
  | None =>
      Ok (mk_db None 0 (data db) (global_indices db) (global_property db)
                (leaf_structure db) (reductions db))
  end.

(** No name is followed by a smaller one. *)
Fixpoint names_sorted (l : list string) : Prop :=
  match l with
  | [] => True
  | x :: l' => Forall (λ y, String.leb x y = true) l' ∧ names_sorted l'
  end.

(** The two objects are over the same store. *)
Definition same_store (db db' : Database) : Prop :=
  data db' = data db ∧ global_indices db' = global_indices db
  ∧ global_property db' = global_property db ∧ leaf_structure db' = leaf_structure db
  ∧ reductions db' = reductions db.

(** The number of axes of the blocks that [get_item] collects under a key:
    two for the index rows, one more than the template for a property. *)
Definition block_rank (ls : gmap string ndarray) (key : string) : nat :=
  if decide (key = "indices") then 2
  else from_option (λ template, S (length (arr_shape template))) 0 (ls !! key).

(** The dictionary that the batch loop of [get_item] builds: a non-empty
    list of blocks, all of the rank of their key, under indices and under
    every property of the schema. *)
Definition blocks_ranked (schema : list string) (ls : gmap string ndarray)
    (results : gmap string (list ndarray)) : Prop :=
  (∀ key, is_Some (results !! key) ↔ key = "indices" ∨ key ∈ schema)
  ∧ ∀ key blocks, results !! key = Some blocks →
      blocks ≠ [] ∧ ∀ b, b ∈ blocks → length (arr_shape b) = block_rank ls key.

(** * Shape validation *)

Section CheckDimensions.
Variable n_atoms : nat.

(** With [n_diff] at 0 the loop rejects exactly when some differing pair has a
    second component other than [n_atoms]. *)
Lemma check_dimensions_loop_spec (pairs : list (nat * nat)) :
  check_dimensions_loop 0 n_atoms pairs
  = forallb (λ p : nat * nat, Nat.eqb p.2 n_atoms)
      (List.filter (λ p : nat * nat, negb (Nat.eqb p.1 p.2)) pairs).
Proof.
  induction pairs as [|[i j] rest IH]; [done|].
  cbn [check_dimensions_loop List.filter fst snd].
  destruct (Nat.eqb_spec i j) as [->|Hij].
  - rewrite bool_decide_eq_false_2 by (intros H; by apply H). exact IH.
  - rewrite bool_decide_eq_true_2 by done.
    rewrite bool_decide_eq_false_2 by done.
    cbn [negb forallb snd].
    destruct (Nat.eqb_spec j n_atoms) as [->|Hj].
    + rewrite bool_decide_eq_false_2 by (intros H; by apply H). exact IH.
    + by rewrite bool_decide_eq_true_2.
Qed.

(** What [check_dimensions] decides. *)
Lemma check_dimensions_spec (template array : ndarray) :
  check_dimensions template array n_atoms
  = every_differing_axis_rule (arr_shape template) (arr_shape array) n_atoms.
Proof.
  unfold check_dimensions, every_differing_axis_rule, differing_axes.
  destruct (Nat.eqb_spec (length (arr_shape template)) (length (arr_shape array)))
    as [Hlen|Hlen].
  - rewrite bool_decide_eq_false_2 by (intros H; by apply H).
    apply check_dimensions_loop_spec.
  - by rewrite bool_decide_eq_true_2.
Qed.

(** Every shape the specified rule admits is accepted by the code. *)
Lemma single_axis_rule_accepted (template array : ndarray) :
  single_axis_rule (arr_shape template) (arr_shape array) n_atoms = true →
  check_dimensions template array n_atoms = true.
Proof.
  rewrite check_dimensions_spec.
  unfold single_axis_rule, every_differing_axis_rule.
  rewrite !andb_true_iff. tauto.
Qed.
End CheckDimensions.

(** C3. [check_dimensions] does not reject a candidate that differs from the
    template in two axes: with template shape [(3, 3)], candidate shape
    [(5, 5)] and [n_atoms = 5] it returns [True], although the single-axis rule
    of the specification refuses that candidate. *)
Theorem check_dimensions_accepts_two_axes :
  let template := zeros_like (mat DFloat 3 [[1; 2; 3]; [4; 5; 6]; [7; 8; 9]]%Q) in
  let array := mat DFloat 5 (replicate 5 (replicate 5 1%Q)) in
  arr_shape template = [3; 3] ∧ arr_shape array = [5; 5]
  ∧ length (differing_axes (arr_shape template) (arr_shape array)) = 2
  ∧ single_axis_rule (arr_shape template) (arr_shape array) 5 = false
  ∧ check_dimensions template array 5 = true.
Proof. cbv zeta. repeat split; reflexivity. Qed.

(** * Arrays: reading, zero blocks and block assignment *)

Lemma assign_rows_lookup (f : nd → nd → nd) (src dst : list nd) (i : nat) :
  assign_rows f dst src !! i
  = match dst !! i with
    | Some r => Some (match src !! i with Some x => f r x | None => r end)
    | None => None
    end.
Proof.
  revert dst i. induction src as [|x src IH]; intros dst i.
  - simpl. by destruct (dst !! i).
  - destruct dst as [|r dst]; [done|]. destruct i as [|i]; [done|]. simpl. apply IH.
Qed.

Lemma length_assign_rows (f : nd → nd → nd) (src dst : list nd) :
  length (assign_rows f dst src) = length dst.
Proof.
  revert dst. induction src as [|x src IH]; intros [|r dst]; simpl; auto.
Qed.

Lemma assign_rows_replicate (f : nd → nd → nd) (src : list nd) (z : nd) (m : nat) :
  assign_rows f (replicate (length src + m) z) src = (f z <$> src) ++ replicate m z.
Proof.
  induction src as [|x src IH]; simpl.
  - by destruct (replicate m z).
  - by rewrite IH.
Qed.

Lemma forallb_assign_rows (P : nd → bool) (f : nd → nd → nd) (src dst : list nd) :
  (∀ r x, P r = true → P (f r x) = true) →
  forallb P dst = true → forallb P (assign_rows f dst src) = true.
Proof.
  intros Hf. revert dst. induction src as [|x src IH]; intros [|r dst]; simpl; auto.
  rewrite !andb_true_iff. intros [? ?]. split; auto.
Qed.

Lemma forallb_lookup {A} (P : A → bool) (l : list A) (i : nat) (x : A) :
  forallb P l = true → l !! i = Some x → P x = true.
Proof.
  rewrite forallb_forall. intros H Hi. apply H.
  apply list_elem_of_In. by eapply list_elem_of_lookup_2.
Qed.

Lemma conforms_Node (s : list nat) (rows : list nd) :
  conforms s (Node rows) = true →
  ∃ s', s = length rows :: s' ∧ forallb (conforms s') rows = true.
Proof.
  destruct s as [|d s']; simpl; [done|].
  rewrite andb_true_iff, Nat.eqb_eq. intros [<- ?]. eauto.
Qed.

(** A full index reads an element exactly when it is within the shape. *)
Lemma nd_get_in_bounds (idx s : list nat) (a : nd) :
  conforms s a = true → is_Some (nd_get a idx) ↔ in_bounds s idx.
Proof.
  revert s a. induction idx as [|i idx IH]; intros s a Hc.
  - destruct a as [x|rows], s as [|d s]; simpl in *; try done;
      (split; [by (intros [? ?] || intros _)|by eauto]).
  - destruct a as [x|rows].
    + destruct s; simpl in *; [|done]. split; [by intros [? ?]|done].
    + apply conforms_Node in Hc as (s' & -> & Hall). simpl.
      destruct (rows !! i) as [r|] eqn:Hr.
      * rewrite (IH s' r) by (by eapply forallb_lookup).
        apply lookup_lt_Some in Hr. tauto.
      * apply lookup_ge_None in Hr. split; [by intros [? ?]|lia].
Qed.

Lemma in_bounds_mono (s s' idx : list nat) :
  Forall2 le s' s → in_bounds s' idx → in_bounds s idx.
Proof.
  intros H. revert idx. induction H as [|d' d s' s Hd _ IH]; intros [|i idx]; simpl; try done.
  intros [? ?]. split; [lia|auto].
Qed.

Lemma nd_get_zeros (s idx : list nat) :
  in_bounds s idx → nd_get (zeros s) idx = Some 0%Q.
Proof.
  revert idx. induction s as [|d s IH]; intros [|i idx]; simpl; try done.
  intros [Hi ?]. rewrite lookup_replicate_2 by done. auto.
Qed.

Lemma conforms_zeros (s : list nat) : conforms s (zeros s) = true.
Proof.
  induction s as [|d s IH]; simpl; [done|].
  rewrite length_replicate, Nat.eqb_refl. simpl.
  apply forallb_forall. intros r Hr%list_elem_of_In%elem_of_replicate. by destruct Hr as [-> _].
Qed.

Section SetTopLeft.
Variable cast : Q → Q.

(** An element outside the source block is kept. *)
Lemma nd_get_set_topleft_None (idx : list nat) (res a : nd) :
  nd_get a idx = None → nd_get (set_topleft cast res a) idx = nd_get res idx.
Proof.
  revert res a. induction idx as [|i idx IH]; intros res a Ha.
  - destruct a, res; simpl in *; done.
  - destruct a as [y|src], res as [x|dst]; simpl in *; try done.
    rewrite assign_rows_lookup.
    destruct (dst !! i) as [r|]; [|done].
    destruct (src !! i) as [x|]; [|done]. by apply IH.
Qed.

(** An element of the source block is written, converted by [cast]. *)
Lemma nd_get_set_topleft_Some (idx : list nat) (res a : nd) (v : Q) :
  nd_get a idx = Some v → is_Some (nd_get res idx) →
  nd_get (set_topleft cast res a) idx = Some (cast v).
Proof.
  revert res a. induction idx as [|i idx IH]; intros res a Ha Hres.
  - destruct a, res; simpl in *; try done; try by destruct Hres. congruence.
  - destruct a as [y|src], res as [x|dst]; simpl in *; try done; try by destruct Hres.
    rewrite assign_rows_lookup.
    destruct (dst !! i) as [r|]; [|by destruct Hres].
    destruct (src !! i) as [x|]; [|done]. by apply IH.
Qed.

Lemma conforms_set_topleft (s : list nat) (res a : nd) :
  conforms s res = true → conforms s (set_topleft cast res a) = true.
Proof.
  revert res a. induction s as [|d s IH]; intros res a Hc.
  - destruct res, a; simpl in *; done.
  - destruct res as [x|dst]; [done|]. destruct a as [y|src]; [done|].
    simpl in *. rewrite andb_true_iff in *. destruct Hc as [Hlen Hall].
    rewrite length_assign_rows. split; [done|].
    apply forallb_assign_rows; auto.
Qed.
End SetTopLeft.

(** * Componentwise folds over a table of shapes *)

Section AxisFold.
Variable op : nat → nat → nat.
Variable R : nat → nat → Prop.
Hypothesis R_refl : ∀ x, R x x.
Hypothesis R_trans : ∀ x y z, R x y → R y z → R x z.
Hypothesis op_bound : ∀ x y, R x (op x y) ∧ R y (op x y).
Hypothesis op_choice : ∀ x y, op x y = x ∨ op x y = y.

Lemma foldl_zip_with_length (rest : list (list nat)) (s : list nat) :
  Forall (λ t, length t = length s) rest →
  length (foldl (zip_with op) s rest) = length s.
Proof.
  revert s. induction rest as [|t rest IH]; intros s Hall; [done|].
  apply Forall_cons in Hall as [Ht Hall]. simpl.
  assert (length (zip_with op s t) = length s) as Hz
    by (rewrite length_zip_with; lia).
  rewrite IH; [done|]. by rewrite Hz.
Qed.

Lemma foldl_zip_with_spec (rest : list (list nat)) (s : list nat) (j x : nat) :
  Forall (λ t, length t = length s) rest →
  foldl (zip_with op) s rest !! j = Some x →
  (∀ t y, t ∈ s :: rest → t !! j = Some y → R y x)
  ∧ ∃ t, t ∈ s :: rest ∧ t !! j = Some x.
Proof.
  revert s. induction rest as [|t0 rest IH]; intros s Hall Hj.
  - simpl in Hj. split.
    + intros t y ->%list_elem_of_singleton Hy. assert (y = x) as -> by congruence. done.
    + exists s. split; [left|done].
  - apply Forall_cons in Hall as [Ht Hall]. simpl in Hj.
    assert (length (zip_with op s t0) = length s) as Hz
      by (rewrite length_zip_with; lia).
    destruct (IH (zip_with op s t0)) as [Hb (w & Hw & Hwx)];
      [by rewrite Hz|done|].
    assert (j < length s) as Hlt.
    { apply lookup_lt_Some in Hj.
      rewrite foldl_zip_with_length in Hj by (by rewrite Hz). lia. }
    destruct (lookup_lt_is_Some_2 s j Hlt) as [sj Hsj].
    destruct (lookup_lt_is_Some_2 t0 j ltac:(lia)) as [tj Htj].
    assert (zip_with op s t0 !! j = Some (op sj tj)) as Hzj.
    { rewrite lookup_zip_with, Hsj, Htj. done. }
    assert (R (op sj tj) x) as Hzx by (apply (Hb _ _ ltac:(left) Hzj)).
    split.
    + intros t y Hin Hy. apply elem_of_cons in Hin as [->|Hin].
      { assert (y = sj) as -> by congruence.
        eapply R_trans; [exact (proj1 (op_bound sj tj))|exact Hzx]. }
      apply elem_of_cons in Hin as [->|Hin].
      { assert (y = tj) as -> by congruence.
        eapply R_trans; [exact (proj2 (op_bound sj tj))|exact Hzx]. }
      apply (Hb t y); [by right|done].
    + apply elem_of_cons in Hw as [->|Hw].
      * assert (x = op sj tj) as -> by congruence.
        destruct (op_choice sj tj) as [->| ->].
        -- exists s. split; [left|done].
        -- exists t0. split; [right; left|done].
      * exists w. split; [by do 2 right|done].
Qed.

Lemma foldl_zip_with_same (rest : list (list nat)) (s : list nat) :
  Forall (λ t, t = s) rest → foldl (zip_with op) s rest = s.
Proof.
  assert (∀ l : list nat, zip_with op l l = l) as Hidem.
  { induction l as [|x l IHl]; [done|]. simpl. rewrite IHl.
    by destruct (op_choice x x) as [-> | ->]. }
  induction 1 as [|t rest -> _ IH]; [done|]. simpl. by rewrite Hidem.
Qed.
End AxisFold.

Lemma min_bound (x y : nat) : Nat.min x y ≤ x ∧ Nat.min x y ≤ y.
Proof. lia. Qed.
Lemma max_bound (x y : nat) : x ≤ Nat.max x y ∧ y ≤ Nat.max x y.
Proof. lia. Qed.
Lemma min_choice (x y : nat) : Nat.min x y = x ∨ Nat.min x y = y.
Proof. lia. Qed.
Lemma max_choice (x y : nat) : Nat.max x y = x ∨ Nat.max x y = y.
Proof. lia. Qed.

Lemma axis_max_spec (rest : list (list nat)) (s : list nat) (j x : nat) :
  Forall (λ t, length t = length s) rest →
  foldl (zip_with Nat.max) s rest !! j = Some x →
  (∀ t y, t ∈ s :: rest → t !! j = Some y → y ≤ x)
  ∧ ∃ t, t ∈ s :: rest ∧ t !! j = Some x.
Proof.
  apply (foldl_zip_with_spec Nat.max le); auto using max_bound, max_choice.
  intros a b c. apply Nat.le_trans.
Qed.

Lemma axis_min_spec (rest : list (list nat)) (s : list nat) (j x : nat) :
  Forall (λ t, length t = length s) rest →
  foldl (zip_with Nat.min) s rest !! j = Some x →
  (∀ t y, t ∈ s :: rest → t !! j = Some y → x ≤ y)
  ∧ ∃ t, t ∈ s :: rest ∧ t !! j = Some x.
Proof.
  apply (foldl_zip_with_spec Nat.min (λ a b, b ≤ a)); auto using min_bound, min_choice.
  intros a b c ? ?. by apply Nat.le_trans with b.
Qed.

(** The branch test [np.all(min_shape == max_shape)] holds exactly when all
    rows of the table are equal. *)
Lemma min_eq_max_iff (s : list nat) (rest : list (list nat)) :
  Forall (λ t, length t = length s) rest →
  foldl (zip_with Nat.min) s rest = foldl (zip_with Nat.max) s rest
  ↔ Forall (λ t, t = s) rest.
Proof.
  intros Hall. split.
  - intros Heq. apply Forall_forall. intros t Ht.
    apply list_eq. intros j.
    assert (length t = length s) as Hlen by (by eapply Forall_forall in Hall).
    destruct (decide (j < length s)) as [Hj|Hj].
    + destruct (lookup_lt_is_Some_2 s j Hj) as [sj Hsj].
      destruct (lookup_lt_is_Some_2 t j ltac:(lia)) as [tj Htj].
      assert (is_Some (foldl (zip_with Nat.max) s rest !! j)) as [x Hx].
      { apply lookup_lt_is_Some_2. rewrite (foldl_zip_with_length Nat.max) by done. done. }
      destruct (axis_max_spec rest s j x Hall Hx) as [Hmax _].
      rewrite <- Heq in Hx.
      destruct (axis_min_spec rest s j x Hall Hx) as [Hmin _].
      pose proof (Hmax s sj ltac:(left) Hsj). pose proof (Hmax t tj ltac:(by right) Htj).
      pose proof (Hmin s sj ltac:(left) Hsj). pose proof (Hmin t tj ltac:(by right) Htj).
      rewrite Hsj, Htj. f_equal. lia.
    + rewrite !lookup_ge_None_2 by lia. done.
  - intros Hsame.
    rewrite (foldl_zip_with_same Nat.min min_choice) by done.
    by rewrite (foldl_zip_with_same Nat.max max_choice).
Qed.

(** * Rows of a concatenation *)

Lemma lookup_concat_offset {A} (ls : list (list A)) (k i : nat) (l : list A) :
  ls !! k = Some l → i < length l →
  concat ls !! (sum_list (length <$> take k ls) + i) = l !! i.
Proof.
  revert k. induction ls as [|l0 ls IH]; intros k Hk Hi; [done|].
  destruct k as [|k]; simpl in *.
  - injection Hk as ->. by rewrite lookup_app_l.
  - rewrite lookup_app_r by lia.
    rewrite <- (IH k Hk Hi). f_equal. unfold fmap. lia.
Qed.

Lemma concat_locate {A} (ls : list (list A)) (j : nat) :
  j < length (concat ls) →
  ∃ k l i, ls !! k = Some l ∧ i < length l ∧ j = sum_list (length <$> take k ls) + i.
Proof.
  revert j. induction ls as [|l0 ls IH]; intros j Hj; simpl in *; [lia|].
  rewrite length_app in Hj.
  destruct (decide (j < length l0)) as [Hlt|Hge].
  - exists 0, l0, j. simpl. auto.
  - destruct (IH (j - length l0)) as (k & l & i & Hk & Hi & Heq); [lia|].
    exists (S k), l, i. simpl. split; [done|]. split; [done|].
    unfold fmap in Heq. lia.
Qed.

(** * Ragged concatenation *)

Lemma wf_rows (a : ndarray) :
  wf_array a → arr_shape a ≠ [] →
  ∃ rows, arr_body a = Node rows
          ∧ arr_shape a = length rows :: trailing a
          ∧ forallb (conforms (trailing a)) rows = true.
Proof.
  unfold wf_array, trailing. destruct a as [d [|n s] [x|rows]]; simpl; try done.
  rewrite andb_true_iff, Nat.eqb_eq. intros [<- Hall] _. eauto.
Qed.

Lemma wf_leading (a : ndarray) :
  wf_array a → arr_shape a ≠ [] → length (nd_rows (arr_body a)) = leading a.
Proof.
  intros Hwf Hne. destruct (wf_rows a Hwf Hne) as (rows & Hb & Hs & _).
  unfold leading. by rewrite Hb, Hs.
Qed.

Section PaddedCopy.
Variable cast : Q → Q.
Variable z : nd.

Local Abbreviation padded := (padded_rows cast z).

Lemma copy_loop_spec (array_list : list ndarray) (done_rows : list nd) (extra : nat) :
  (∀ a, a ∈ array_list → wf_array a ∧ arr_shape a ≠ []) →
  copy_loop cast array_list (length done_rows)
    (Node (done_rows ++ replicate (sum_list (leading <$> array_list) + extra) z))
  = Ok (Node (done_rows ++ concat (padded <$> array_list) ++ replicate extra z)).
Proof.
  revert done_rows. induction array_list as [|a rest IH]; intros done_rows Hwf; [done|].
  destruct (Hwf a ltac:(left)) as [Ha Hne].
  destruct (wf_rows a Ha Hne) as (rows & Hb & Hs & _).
  cbn [copy_loop]. unfold shape0. rewrite Hs. cbn [head of_option rbind].
  unfold set_block. rewrite take_app_length, drop_app_length, Hb.
  change (sum_list (leading <$> a :: rest))
    with (leading a + sum_list (leading <$> rest)).
  cbn [nd_rows].
  assert (leading a = length rows) as -> by (unfold leading; by rewrite Hs).
  rewrite <- Nat.add_assoc, assign_rows_replicate.
  specialize (IH (done_rows ++ (set_topleft cast z <$> rows))).
  rewrite length_app, length_fmap in IH.
  rewrite (assoc_L (++)), IH by (intros; apply Hwf; by right).
  change (concat (padded <$> a :: rest)) with (padded a ++ concat (padded <$> rest)).
  assert (padded a = set_topleft cast z <$> rows) as ->
    by (unfold padded_rows; by rewrite Hb).
  by rewrite <- !(assoc_L (++)).
Qed.

Lemma padded_offsets (array_list : list ndarray) (k : nat) :
  (∀ a, a ∈ array_list → wf_array a ∧ arr_shape a ≠ []) →
  sum_list (length <$> take k (padded <$> array_list)) = row_offset array_list k.
Proof.
  unfold row_offset. revert k. induction array_list as [|a rest IH]; intros k Hwf.
  - by destruct k.
  - destruct k as [|k]; [done|].
    destruct (Hwf a ltac:(left)) as [Ha Hne].
    change (length (padded a) + sum_list (length <$> take k (padded <$> rest))
            = leading a + sum_list (leading <$> take k rest)).
    unfold padded_rows at 1. rewrite length_fmap, (wf_leading a Ha Hne).
    f_equal. apply IH. intros; apply Hwf; by right.
Qed.
End PaddedCopy.

Lemma rmapM_shape0 (array_list : list ndarray) :
  (∀ a, a ∈ array_list → arr_shape a ≠ []) →
  rmapM shape0 array_list = Ok (leading <$> array_list).
Proof.
  induction array_list as [|a rest IH]; intros Hne; [done|].
  cbn [rmapM]. rewrite IH by (intros; apply Hne; by right).
  change (leading <$> a :: rest) with (leading a :: (leading <$> rest)).
  unfold shape0, leading. pose proof (Hne a ltac:(left)).
  by destruct (arr_shape a).
Qed.

Lemma shape_table_ok (array_list : list ndarray) :
  (∀ a b, a ∈ array_list → b ∈ array_list → length (trailing a) = length (trailing b)) →
  shape_table array_list = Ok (trailing <$> array_list).
Proof.
  intros Hlen. unfold shape_table. destruct array_list as [|a0 rest]; [done|].
  change (trailing <$> a0 :: rest) with (trailing a0 :: (trailing <$> rest)).
  cbv beta iota zeta.
  assert (forallb (λ s', Nat.eqb (length s') (length (trailing a0)))
            (trailing <$> rest) = true) as ->; [|done].
  apply forallb_forall. intros s Hs%list_elem_of_In.
  apply (list_elem_of_fmap trailing) in Hs as (b & -> & Hb).
  apply Nat.eqb_eq. apply Hlen; [by right|left].
Qed.

Lemma concatenable_trailing (array_list : list ndarray) (a b : ndarray) :
  concatenable array_list → a ∈ array_list → b ∈ array_list →
  length (trailing a) = length (trailing b).
Proof.
  intros [_ Hrank] Ha Hb. unfold trailing. pose proof (Hrank a b Ha Hb).
  destruct (arr_shape a), (arr_shape b); simpl in *; lia.
Qed.

(** With equal trailing shapes the function is [np.concatenate]. *)
Lemma uniform_branch (array_list : list ndarray) :
  uniform_trailing array_list →
  concatenate_different_arrays array_list false = np_concatenate array_list.
Proof.
  intros Hu. unfold concatenate_different_arrays.
  rewrite shape_table_ok by (intros a b Ha Hb; by rewrite (Hu a b)).
  destruct array_list as [|a0 rest]; [done|].
  cbn [fmap list_fmap rbind axis_fold].
  rewrite bool_decide_eq_true_2; [done|].
  assert (Forall (λ t, t = trailing a0) (trailing <$> rest)) as Hsame.
  { apply Forall_fmap, Forall_forall. intros b Hb. simpl. apply Hu; [by right|left]. }
  apply min_eq_max_iff; [|done].
  eapply Forall_impl; [exact Hsame|]. by intros t ->.
Qed.

(** The padded branch, in closed form. *)
Lemma padded_branch (array_list : list ndarray) (a0 : ndarray) :
  head array_list = Some a0 → concatenable array_list → ¬ uniform_trailing array_list →
  ∃ m, is_componentwise_max array_list m
       ∧ concatenate_different_arrays array_list false
         = Ok (mk_ndarray (arr_dtype a0) (sum_list (leading <$> array_list) :: m)
                 (Node (concat (padded_rows (astype (arr_dtype a0)) (zeros m)
                                  <$> array_list)))).
Proof.
  intros Hhd Hc Hnu. destruct array_list as [|a rest]; [done|]. injection Hhd as ->.
  pose proof (λ b c, concatenable_trailing _ b c Hc) as Hlen.
  assert (Forall (λ t, length t = length (trailing a0)) (trailing <$> rest)) as Hall.
  { apply Forall_fmap, Forall_forall. intros b Hb. simpl. apply Hlen; [by right|left]. }
  exists (foldl (zip_with Nat.max) (trailing a0) (trailing <$> rest)). split.
  - split.
    + intros b Hb. rewrite (foldl_zip_with_length Nat.max) by done.
      apply Hlen; [done|left].
    + intros j x Hx.
      destruct (axis_max_spec _ _ _ _ Hall Hx) as [Hle (t & Ht & Htx)]. split.
      * intros b y Hb Hy. apply (Hle (trailing b)); [|done].
        change (trailing a0 :: (trailing <$> rest)) with (trailing <$> (a0 :: rest)).
        by apply list_elem_of_fmap_2.
      * change (trailing a0 :: (trailing <$> rest)) with (trailing <$> (a0 :: rest)) in Ht.
        apply list_elem_of_fmap in Ht as (b & -> & Hb). eauto.
  - unfold concatenate_different_arrays.
    rewrite shape_table_ok by done.
    cbn [fmap list_fmap rbind axis_fold].
    rewrite bool_decide_eq_false_2; cycle 1.
    { intros Heq. apply Hnu. apply min_eq_max_iff in Heq; [|done].
      assert (∀ b, b ∈ a0 :: rest → trailing b = trailing a0) as Hsame.
      { intros b [->|Hb]%elem_of_cons; [done|].
        eapply Forall_fmap, Forall_forall in Heq; [|exact Hb]. done. }
      intros b c Hb Hc'. by rewrite (Hsame b), (Hsame c). }
    destruct Hc as [Hwf _].
    rewrite rmapM_shape0 by (intros b Hb; by apply Hwf).
    cbn [rbind head of_option zeros].
    pose proof (copy_loop_spec (astype (arr_dtype a0))
                  (zeros (foldl (zip_with Nat.max) (trailing a0) (trailing <$> rest)))
                  (a0 :: rest) [] 0 Hwf) as Hloop.
    rewrite Nat.add_0_r, app_nil_r in Hloop. cbn [length app] in Hloop.
    unfold fmap in *. rewrite Hloop. done.
Qed.

Lemma componentwise_max_le (array_list : list ndarray) (m : list nat) (a : ndarray) :
  is_componentwise_max array_list m → a ∈ array_list → Forall2 le (trailing a) m.
Proof.
  intros [Hlen Hmax] Ha. apply Forall2_same_length_lookup_2; [by apply Hlen|].
  intros j y x Hy Hx. destruct (Hmax j x Hx) as [Hle _]. by apply (Hle a).
Qed.

Section PaddedRead.
Variable cast : Q → Q.
Variable array_list : list ndarray.
Variable m : list nat.
Hypothesis Hwf : ∀ a, a ∈ array_list → wf_array a ∧ arr_shape a ≠ [].
Hypothesis Hmax : is_componentwise_max array_list m.

Local Abbreviation out_rows := (concat (padded_rows cast (zeros m) <$> array_list)).

Lemma out_rows_lookup (k i : nat) (a : ndarray) (r : nd) :
  array_list !! k = Some a → nd_rows (arr_body a) !! i = Some r →
  out_rows !! (row_offset array_list k + i) = Some (set_topleft cast (zeros m) r).
Proof.
  intros Hk Hr. rewrite <- (padded_offsets cast (zeros m)) by done.
  rewrite (lookup_concat_offset _ k i (padded_rows cast (zeros m) a)).
  - unfold padded_rows. by rewrite list_lookup_fmap, Hr.
  - by rewrite list_lookup_fmap, Hk.
  - unfold padded_rows. rewrite length_fmap. by eapply lookup_lt_Some.
Qed.

Lemma length_out_rows : length out_rows = sum_list (leading <$> array_list).
Proof.
  clear Hmax. induction array_list as [|a rest IH]; [done|].
  change (length (padded_rows cast (zeros m) a
                  ++ concat (padded_rows cast (zeros m) <$> rest))
          = leading a + sum_list (leading <$> rest)).
  destruct (Hwf a ltac:(left)) as [Ha Hne].
  rewrite length_app, IH by (intros; apply Hwf; by right).
  unfold padded_rows. by rewrite length_fmap, (wf_leading a Ha Hne).
Qed.

(** Source elements are found at their shifted row, converted. *)
Lemma out_rows_data (k i : nat) (a : ndarray) (idx : list nat) (v : Q) :
  array_list !! k = Some a →
  nd_get (arr_body a) (i :: idx) = Some v →
  nd_get (Node out_rows) (row_offset array_list k + i :: idx) = Some (cast v).
Proof.
  intros Hk Hv.
  assert (a ∈ array_list) as Hin by (by eapply list_elem_of_lookup_2).
  destruct (Hwf a Hin) as [Ha Hne].
  destruct (wf_rows a Ha Hne) as (rows & Hb & Hs & Hall).
  rewrite Hb in Hv. cbn [nd_get] in Hv.
  destruct (rows !! i) as [r|] eqn:Hr; [|done].
  cbn [nd_get]. rewrite (out_rows_lookup k i a r) by (by rewrite ?Hb).
  apply nd_get_set_topleft_Some; [done|].
  apply (nd_get_in_bounds idx m); [apply conforms_zeros|].
  apply (in_bounds_mono m (trailing a)); [by apply (componentwise_max_le array_list)|].
  apply (nd_get_in_bounds idx (trailing a) r); [by eapply forallb_lookup|by eexists].
Qed.

(** Elements covered by no source are zero. *)
Lemma out_rows_zero (j : nat) (idx : list nat) :
  j < sum_list (leading <$> array_list) → in_bounds m idx →
  (∀ k a i, array_list !! k = Some a → j = row_offset array_list k + i →
            nd_get (arr_body a) (i :: idx) = None) →
  nd_get (Node out_rows) (j :: idx) = Some 0%Q.
Proof.
  intros Hj Hidx Hfree. rewrite <- length_out_rows in Hj.
  destruct (concat_locate _ j Hj) as (k & rows' & i & Hk & Hi & Hjeq).
  apply list_lookup_fmap_Some in Hk as (a & -> & Hk).
  rewrite (padded_offsets cast (zeros m)) in Hjeq by done. subst j.
  assert (a ∈ array_list) as Hin by (by eapply list_elem_of_lookup_2).
  destruct (Hwf a Hin) as [Ha Hne].
  destruct (wf_rows a Ha Hne) as (rows & Hb & Hs & Hall).
  unfold padded_rows in Hi. rewrite length_fmap, Hb in Hi. cbn [nd_rows] in Hi.
  destruct (lookup_lt_is_Some_2 rows i Hi) as [r Hr].
  specialize (Hfree k a i Hk eq_refl). rewrite Hb in Hfree. cbn [nd_get] in Hfree.
  rewrite Hr in Hfree.
  cbn [nd_get]. rewrite (out_rows_lookup k i a r) by (by rewrite ?Hb).
  rewrite nd_get_set_topleft_None by done. by apply nd_get_zeros.
Qed.

Lemma out_rows_conforms :
  conforms (sum_list (leading <$> array_list) :: m) (Node out_rows) = true.
Proof.
  cbn [conforms]. rewrite length_out_rows, Nat.eqb_refl. cbn [andb].
  apply forallb_forall. intros r Hr. apply in_concat in Hr as (rows & Hrows & Hr).
  apply list_elem_of_In, list_elem_of_fmap in Hrows as (a & -> & _).
  apply list_elem_of_In, list_elem_of_fmap in Hr as (x & -> & _).
  apply conforms_set_topleft, conforms_zeros.
Qed.
End PaddedRead.

(** The conversion of the model is the one the statements speak of. *)
Lemma astype_converted (d : dtype) (v : Q) : astype d v = converted d v.
Proof. by destruct d. Qed.

(** Within an array's own dtype the conversion changes no value. *)
Lemma converted_same_dtype (d : dtype) (v : Q) :
  cast_defined d d v = true → (converted d v == v)%Q.
Proof.
  destruct d; [|reflexivity]. cbn [cast_defined converted].
  intros [Hint _]%andb_true_iff. apply Z.eqb_eq in Hint.
  unfold integer_part, Qeq. cbn [Qnum Qden inject_Z].
  pose proof (Z.quot_rem' (Qnum v) (Z.pos (Qden v))) as Hqr. lia.
Qed.

(** At the borders: 3/2 becomes 1 in an int64 array and -3/2 becomes -1; the
    float 10^20 has no int64 value, and 2^53 + 1 is no float64. *)
Example cast_defined_borders :
  cast_defined DFloat DInt (3 # 2) = true ∧ converted DInt (3 # 2) = 1%Q
  ∧ cast_defined DFloat DInt (- 3 # 2) = true ∧ converted DInt (- 3 # 2) = (- 1)%Q
  ∧ cast_defined DFloat DInt (inject_Z (10 ^ 20)) = false
  ∧ cast_defined DInt DFloat (inject_Z (2 ^ 53)) = true
  ∧ cast_defined DInt DFloat (inject_Z (2 ^ 53 + 1)) = false.
Proof. repeat split; vm_compute; reflexivity. Qed.

(** An element of a block assigned over [res] is one of [res], or a
    converted one of the source. *)
Lemma nd_get_set_topleft_inv (cast : Q → Q) (idx : list nat) (res a : nd) (v : Q) :
  nd_get (set_topleft cast res a) idx = Some v →
  nd_get res idx = Some v ∨ ∃ w, nd_get a idx = Some w ∧ v = cast w.
Proof.
  destruct (nd_get a idx) as [w|] eqn:Ha.
  - intros Hv. right. exists w. split; [done|].
    destruct (nd_get res idx) as [x|] eqn:Hres.
    + rewrite (nd_get_set_topleft_Some cast idx res a w Ha) in Hv by (by eexists).
      congruence.
    + exfalso. revert res a Ha Hv Hres.
      induction idx as [|i idx IH]; intros res a Ha Hv Hres.
      * destruct a, res; simpl in *; done.
      * destruct a as [y|src], res as [x|dst]; simpl in *; try done.
        rewrite assign_rows_lookup in Hv.
        destruct (dst !! i) as [r|]; [|done].
        destruct (src !! i) as [x|]; [|congruence]. by apply (IH r x).
  - rewrite nd_get_set_topleft_None by done. by left.
Qed.

Lemma nd_get_zeros_inv (s idx : list nat) (v : Q) :
  nd_get (zeros s) idx = Some v → v = 0%Q.
Proof.
  intros Hv.
  assert (in_bounds s idx) as Hidx.
  { apply (nd_get_in_bounds idx s (zeros s)); [apply conforms_zeros|by eexists]. }
  rewrite nd_get_zeros in Hv by done. congruence.
Qed.

(** The elements of the padded result are zeros and converted elements of the
    inputs. *)
Lemma padded_rows_elements (cast : Q → Q) (array_list : list ndarray) (m idx : list nat)
    (v : Q) :
  nd_get (Node (concat (padded_rows cast (zeros m) <$> array_list))) idx = Some v →
  v = 0%Q ∨ ∃ w, v = cast w.
Proof.
  destruct idx as [|j idx]; [done|]. cbn [nd_get].
  destruct (concat (padded_rows cast (zeros m) <$> array_list) !! j) as [row|] eqn:Hrow;
    [|done].
  apply list_elem_of_lookup_2, list_elem_of_In, in_concat in Hrow as (rows & Hrows & Hr).
  apply list_elem_of_In, list_elem_of_fmap in Hrows as (a & -> & _).
  apply list_elem_of_In, list_elem_of_fmap in Hr as (x & -> & _).
  intros [Hv|(w & _ & ->)]%nd_get_set_topleft_inv; [|by eauto].
  left. by eapply nd_get_zeros_inv.
Qed.

Lemma astype_integral (d : dtype) (v : Q) :
  (d = DInt → ∃ z : Z, v = inject_Z z) → astype d v = v.
Proof.
  destruct d; [|done]. intros [z ->]; [done|].
  unfold astype, inject_Z. simpl. by rewrite Z.quot_1_r.
Qed.

(** C7. For a non-empty list of arrays of one rank: with equal trailing
    shapes the result is the plain concatenation; otherwise the result has
    the summed leading length and the componentwise maximum trailing shape,
    every input element that can be converted to the dtype of the first input
    reappears at its top-left-aligned place converted to that dtype (so
    unchanged for a well-typed input of that dtype), and all other entries are
    zero. *)
Theorem concatenate_different_arrays_padding (array_list : list ndarray) (a0 : ndarray) :
  head array_list = Some a0 → concatenable array_list →
  (uniform_trailing array_list →
     concatenate_different_arrays array_list false = np_concatenate array_list)
  ∧ (¬ uniform_trailing array_list →
     ∃ r m,
       concatenate_different_arrays array_list false = Ok r
       ∧ wf_array r
       ∧ arr_shape r = sum_list (leading <$> array_list) :: m
       ∧ is_componentwise_max array_list m
       ∧ data_converted (arr_dtype a0) array_list r
       ∧ (∀ k a i idx v,
            array_list !! k = Some a → arr_dtype a = arr_dtype a0 → well_typed a →
            nd_get (arr_body a) (i :: idx) = Some v →
            nd_get (arr_body r) (row_offset array_list k + i :: idx) = Some v)
       ∧ rest_is_zero array_list r).
Proof.
  intros Hhd Hc. split; [apply uniform_branch|]. intros Hnu.
  destruct (padded_branch array_list a0 Hhd Hc Hnu) as (m & Hmax & Hrun).
  destruct Hc as [Hwf _].
  eexists _, m. split; [exact Hrun|]. cbn [arr_shape arr_body].
  assert (data_reappears (astype (arr_dtype a0)) array_list
            (mk_ndarray (arr_dtype a0) (sum_list (leading <$> array_list) :: m)
               (Node (concat (padded_rows (astype (arr_dtype a0)) (zeros m)
                                <$> array_list))))) as Hdata.
  { intros k a i idx v Hk Hv.
    exact (out_rows_data _ _ m Hwf Hmax k i a idx v Hk Hv). }
  split; [exact (out_rows_conforms _ _ m Hwf)|]. split; [done|]. split; [done|].
  split.
  { intros k a i idx v Hk Hv _. rewrite <- astype_converted.
    exact (Hdata k a i idx v Hk Hv). }
  split.
  - intros k a i idx v Hk Hd Hty Hv.
    transitivity (Some (astype (arr_dtype a0) v)); [exact (Hdata k a i idx v Hk Hv)|].
    f_equal. apply astype_integral. intros Hint.
    apply (Hty ltac:(congruence) (i :: idx) v Hv).
  - intros j idx [Hj Hidx] Hfree.
    exact (out_rows_zero _ _ m Hwf j idx Hj Hidx Hfree).
Qed.

(** C10. When the trailing shapes differ, the result has the dtype of the
    first input, whatever the dtypes of the others; if that dtype is int64,
    the result holds integers only, whatever the inputs hold; and every
    element of an input that can be converted to that dtype is copied as its
    conversion: as it is into a float64 result, as its integer part into an
    int64 result. *)
Theorem concatenate_different_arrays_dtype (array_list : list ndarray) (a0 : ndarray) :
  head array_list = Some a0 → concatenable array_list → ¬ uniform_trailing array_list →
  ∃ r, concatenate_different_arrays array_list false = Ok r
       ∧ arr_dtype r = arr_dtype a0
       ∧ well_typed r
       ∧ data_converted (arr_dtype a0) array_list r.
Proof.
  intros Hhd Hc Hnu.
  destruct (padded_branch array_list a0 Hhd Hc Hnu) as (m & Hmax & Hrun).
  destruct Hc as [Hwf _].
  eexists. split; [exact Hrun|]. split; [done|]. split.
  - intros Hint idx v Hv. cbn [arr_dtype arr_body] in *. rewrite Hint in Hv.
    apply padded_rows_elements in Hv as [->|[w ->]]; [by exists 0%Z|].
    by exists (integer_part w).
  - intros k a i idx v Hk Hv _. rewrite <- astype_converted.
    exact (out_rows_data _ _ m Hwf Hmax k i a idx v Hk Hv).
Qed.

(** Membership in an explicit list, case by case. *)
Ltac list_cases H :=
  repeat (apply elem_of_cons in H as [->|H]); try (by apply elem_of_nil in H).

Lemma concatenable_mixed_pair : concatenable mixed_pair.
Proof.
  split.
  - intros a Ha. unfold mixed_pair in Ha. list_cases Ha; by split.
  - intros a b Ha Hb. unfold mixed_pair in Ha, Hb. list_cases Ha; list_cases Hb; done.
Qed.

Lemma mixed_pair_not_uniform : ¬ uniform_trailing mixed_pair.
Proof.
  intros Hu.
  specialize (Hu (mat DInt 1 [[1%Q]]) (mat DFloat 2 [[3 # 2; 5 # 2]%Q])
                ltac:(left) ltac:(right; left)).
  discriminate Hu.
Qed.

(** The padding theorem at [mixed_pair]. *)
Lemma concatenate_different_arrays_padding_witness :
  head mixed_pair = Some (mat DInt 1 [[1%Q]]) ∧ concatenable mixed_pair
  ∧ (¬ uniform_trailing mixed_pair →
     ∃ r m,
       concatenate_different_arrays mixed_pair false = Ok r
       ∧ wf_array r
       ∧ arr_shape r = sum_list (leading <$> mixed_pair) :: m
       ∧ is_componentwise_max mixed_pair m
       ∧ data_converted DInt mixed_pair r
       ∧ (∀ k a i idx v,
            mixed_pair !! k = Some a → arr_dtype a = DInt → well_typed a →
            nd_get (arr_body a) (i :: idx) = Some v →
            nd_get (arr_body r) (row_offset mixed_pair k + i :: idx) = Some v)
       ∧ rest_is_zero mixed_pair r).
Proof.
  split; [reflexivity|]. split; [exact concatenable_mixed_pair|].
  exact (proj2 (concatenate_different_arrays_padding mixed_pair (mat DInt 1 [[1%Q]])
                  eq_refl concatenable_mixed_pair)).
Defined.

(** C7, as stated, fails on mixed dtypes: after an integer block, the float
    entry 3/2 of the second block comes back as 1. *)
Lemma concatenate_mixed_dtype_truncates :
  concatenable mixed_pair ∧ ¬ uniform_trailing mixed_pair
  ∧ concatenate_different_arrays mixed_pair false = Ok mixed_result
  ∧ ¬ data_reappears (λ v, v) mixed_pair mixed_result.
Proof.
  split; [exact concatenable_mixed_pair|]. split; [exact mixed_pair_not_uniform|].
  split; [reflexivity|]. intros Hdata.
  specialize (Hdata 1 (mat DFloat 2 [[3 # 2; 5 # 2]%Q]) 0 [0] (3 # 2)%Q eq_refl eq_refl).
  vm_compute in Hdata. discriminate Hdata.
Qed.

(** The dtype theorem at [mixed_pair]. *)
Lemma concatenate_different_arrays_dtype_witness :
  head mixed_pair = Some (mat DInt 1 [[1%Q]]) ∧ concatenable mixed_pair
  ∧ ¬ uniform_trailing mixed_pair
  ∧ ∃ r, concatenate_different_arrays mixed_pair false = Ok r
         ∧ arr_dtype r = DInt
         ∧ well_typed r
         ∧ data_converted DInt mixed_pair r.
Proof.
  split; [reflexivity|]. split; [exact concatenable_mixed_pair|].
  split; [exact mixed_pair_not_uniform|].
  exact (concatenate_different_arrays_dtype mixed_pair (mat DInt 1 [[1%Q]])
           eq_refl concatenable_mixed_pair mixed_pair_not_uniform).
Defined.

(** * Stateful runs *)

Lemma bind_run {A B} (m : M A) (k : A → M B) (db db' : Database) (r : result B) :
  bind m k db = (r, db') →
  (∃ a db1, m db = (Ok a, db1) ∧ k a db1 = (r, db'))
  ∨ (∃ e, m db = (Raise e, db') ∧ r = Raise e).
Proof.
  unfold bind. destruct (m db) as [[a|e] db1]; [by eauto|].
  intros [= <- <-]. right. by exists e.
Qed.

Lemma preserves_run {A} (R : relation Database) (m : M A) (db db' : Database) (r : result A) :
  preserves R m → m db = (r, db') → R db db'.
Proof. intros Hm Hrun. specialize (Hm db). by rewrite Hrun in Hm. Qed.

Lemma cannot_raise_run {A} (e : error) (m : M A) (db db' : Database) :
  cannot_raise e m → m db ≠ (Raise e, db').
Proof. intros Hm Hrun. apply (Hm db). by rewrite Hrun. Qed.

Lemma preserves_bind {A B} (R : relation Database) `{!PreOrder R} (m : M A) (k : A → M B) :
  preserves R m → (∀ a, preserves R (k a)) → preserves R (bind m k).
Proof.
  intros Hm Hk db. unfold bind. specialize (Hm db).
  destruct (m db) as [[a|e0] db1]; cbn [snd] in *; [|done].
  trans db1; [done|apply Hk].
Qed.

Lemma preserves_for_each {A} (R : relation Database) `{!PreOrder R}
    (l : list A) (body : A → M unit) :
  (∀ x, preserves R (body x)) → preserves R (for_each l body).
Proof.
  intros Hbody. induction l as [|x l IH]; [by intros db|].
  cbn [for_each]. by apply preserves_bind.
Qed.

Lemma cannot_raise_bind {A B} (e : error) (m : M A) (k : A → M B) :
  cannot_raise e m → (∀ a, cannot_raise e (k a)) → cannot_raise e (bind m k).
Proof.
  intros Hm Hk db. unfold bind. specialize (Hm db).
  destruct (m db) as [[a|e0] db1]; cbn [fst] in *; [apply Hk|congruence].
Qed.

Lemma cannot_raise_for_each {A} (e : error) (l : list A) (body : A → M unit) :
  (∀ x, cannot_raise e (body x)) → cannot_raise e (for_each l body).
Proof.
  intros Hbody. induction l as [|x l IH]; [by intros db|].
  cbn [for_each]. by apply cannot_raise_bind.
Qed.

(** A raising loop raised in one of its rounds. *)
Lemma for_each_raises {A} (R : relation Database) `{!PreOrder R}
    (l : list A) (body : A → M unit) (db db' : Database) (e : error) :
  (∀ x, preserves R (body x)) →
  for_each l body db = (Raise e, db') →
  ∃ x db0, x ∈ l ∧ R db db0 ∧ body x db0 = (Raise e, db').
Proof.
  intros Hbody. revert db. induction l as [|x l IH]; intros db Hrun; [done|].
  cbn [for_each] in Hrun.
  apply bind_run in Hrun as [([] & db1 & Hx & Hrun)|(e0 & Hx & [= <-])].
  - destruct (IH db1 Hrun) as (y & db0 & Hy & HR & Hrun'). exists y, db0.
    split; [by right|]. split; [|done].
    trans db1; [|done]. by eapply preserves_run.
  - exists x, db. split; [left|done].
Qed.

Global Instance same_index_preorder : PreOrder same_index.
Proof.
  split.
  - by intros db.
  - intros db1 db2 db3 [Hi1 Hs1] [Hi2 Hs2]. unfold same_index. by rewrite Hi2, Hs2.
Qed.

Global Instance frame_preorder (g : string) : PreOrder (frame g).
Proof.
  split.
  - by intros db.
  - intros db1 db2 db3 (Hi1 & Hp1 & Hl1 & Hr1 & Hd1) (Hi2 & Hp2 & Hl2 & Hr2 & Hd2).
    unfold frame. rewrite Hp2, Hl2, Hr2.
    split; [by trans db2|]. do 3 (split; [done|]).
    intros g' Hg'. by rewrite Hd2, Hd1.
Qed.

Global Instance group_write_preorder (g : string) : PreOrder (group_write g).
Proof.
  split.
  - by intros db.
  - intros db1 db2 db3 [H1 Hf1] [H2 Hf2]. split; [by trans db2|by rewrite Hf2].
Qed.

(** ** The primitives, one by one *)

Ltac prim :=
  intros; intros ?;
  cbv [bind gets lift ret raise modify get_property_names group_lookup leaf_lookup
       flags_append indices_append create_data_group create_indices create_flags
       create_leaf_structure leaf_array group_array group_append of_option
       group_write frame same_index
       set_data set_db_size set_global_indices set_global_property
       set_leaf_structure set_property_names set_reductions];
  repeat case_match; simplify_eq;
  cbn [data db_size global_indices global_property leaf_structure property_names
       reductions fst snd];
  try done.

Lemma preserves_gets {A} (R : relation Database) `{!Reflexive R} (f : Database → A) :
  preserves R (gets f).
Proof. by intros db. Qed.
Lemma preserves_lift {A} (R : relation Database) `{!Reflexive R} (r : result A) :
  preserves R (lift r).
Proof. by intros db. Qed.
Lemma preserves_ret {A} (R : relation Database) `{!Reflexive R} (a : A) :
  preserves R (ret a).
Proof. by intros db. Qed.
Lemma preserves_raise {A} (R : relation Database) `{!Reflexive R} (e : error) :
  preserves R (raise e : M A).
Proof. by intros db. Qed.

Lemma cannot_raise_gets {A} (e : error) (f : Database → A) : cannot_raise e (gets f).
Proof. by intros db. Qed.
Lemma cannot_raise_ret {A} (e : error) (a : A) : cannot_raise e (ret a).
Proof. by intros db. Qed.
Lemma cannot_raise_modify (e : error) (f : Database → Database) : cannot_raise e (modify f).
Proof. by intros db. Qed.
Lemma cannot_raise_lift {A} (e : error) (r : result A) :
  r ≠ Raise e → cannot_raise e (lift r).
Proof. by intros Hr db. Qed.
Lemma cannot_raise_raise {A} (e e' : error) : e' ≠ e → cannot_raise e (raise e' : M A).
Proof. intros Hne db. cbn. congruence. Qed.

Lemma getitem_not_assertion (item : record) (key : string) :
  getitem item key ≠ Raise AssertionError.
Proof. unfold getitem, of_option. by repeat case_match. Qed.
Lemma py_len_not_assertion (a : ndarray) : py_len a ≠ Raise AssertionError.
Proof. unfold py_len, of_option. by case_match. Qed.
Lemma of_option_not_assertion {A} (e : error) (o : option A) :
  e ≠ AssertionError → of_option e o ≠ Raise AssertionError.
Proof. unfold of_option. destruct o; congruence. Qed.
Lemma zarr_append_not_assertion (a rows : ndarray) :
  zarr_append a rows ≠ Raise AssertionError.
Proof. unfold zarr_append. by repeat case_match. Qed.

Lemma flags_append_same_index flag : preserves same_index (flags_append flag).
Proof. prim. Qed.
Lemma create_flags_same_index fl : preserves same_index (create_flags fl).
Proof. prim. Qed.
Lemma create_leaf_structure_same_index : preserves same_index create_leaf_structure.
Proof. prim. Qed.
Lemma create_data_group_same_index g : preserves same_index (create_data_group g).
Proof. prim. Qed.
Lemma leaf_array_same_index key a : preserves same_index (leaf_array key a).
Proof. prim. Qed.
Lemma group_array_same_index g key a : preserves same_index (group_array g key a).
Proof. prim. Qed.
Lemma group_append_same_index g key a : preserves same_index (group_append g key a).
Proof. prim. Qed.
Lemma leaf_lookup_preserves R `{!Reflexive R} key : preserves R (leaf_lookup key).
Proof. prim. Qed.
Lemma group_lookup_preserves R `{!Reflexive R} g key : preserves R (group_lookup g key).
Proof. prim. Qed.
Lemma get_property_names_preserves R `{!Reflexive R} : preserves R get_property_names.
Proof. prim. Qed.

Lemma flags_append_frame g flag : preserves (frame g) (flags_append flag).
Proof. prim. Qed.
Lemma create_data_group_frame g : preserves (frame g) (create_data_group g).
Proof. prim. do 4 (split; [done|]). intros g' Hg'. by rewrite lookup_insert_ne. Qed.
Lemma group_array_frame g key a : preserves (frame g) (group_array g key a).
Proof. prim. do 4 (split; [done|]). intros g' Hg'. by rewrite lookup_insert_ne. Qed.

Lemma group_array_group_write g key a : preserves (group_write g) (group_array g key a).
Proof.
  prim. split; [|done]. do 4 (split; [done|]). intros g' Hg'. by rewrite lookup_insert_ne.
Qed.
Lemma group_write_frame g db db' : group_write g db db' → frame g db db'.
Proof. by intros [? _]. Qed.

Lemma flags_append_no_assertion flag : cannot_raise AssertionError (flags_append flag).
Proof. prim. Qed.
Lemma indices_append_no_assertion row : cannot_raise AssertionError (indices_append row).
Proof. prim. Qed.
Lemma create_indices_no_assertion rows : cannot_raise AssertionError (create_indices rows).
Proof. prim. Qed.
Lemma create_flags_no_assertion fl : cannot_raise AssertionError (create_flags fl).
Proof. prim. Qed.
Lemma create_leaf_structure_no_assertion : cannot_raise AssertionError create_leaf_structure.
Proof. prim. Qed.
Lemma create_data_group_no_assertion g : cannot_raise AssertionError (create_data_group g).
Proof. prim. Qed.
Lemma leaf_array_no_assertion key a : cannot_raise AssertionError (leaf_array key a).
Proof. prim. Qed.
Lemma group_array_no_assertion g key a : cannot_raise AssertionError (group_array g key a).
Proof. prim. Qed.
Lemma group_lookup_no_assertion g key : cannot_raise AssertionError (group_lookup g key).
Proof. prim. Qed.
Lemma get_property_names_no_assertion : cannot_raise AssertionError get_property_names.
Proof. prim. Qed.
Lemma group_append_no_assertion g key a : cannot_raise AssertionError (group_append g key a).
Proof.
  unfold group_append. apply cannot_raise_bind; [apply group_lookup_no_assertion|].
  intros a1. apply cannot_raise_bind; [apply cannot_raise_lift, zarr_append_not_assertion|].
  intros a2. apply cannot_raise_bind; [apply cannot_raise_gets|].
  intros d. apply cannot_raise_modify.
Qed.

Create HintDb no_assertion discriminated.
#[export] Hint Resolve cannot_raise_gets cannot_raise_ret cannot_raise_modify
  getitem_not_assertion py_len_not_assertion zarr_append_not_assertion
  flags_append_no_assertion indices_append_no_assertion create_indices_no_assertion
  create_flags_no_assertion create_leaf_structure_no_assertion
  create_data_group_no_assertion leaf_array_no_assertion group_array_no_assertion
  group_lookup_no_assertion get_property_names_no_assertion group_append_no_assertion
  : no_assertion.

(** Structural proof that a computation does not raise [AssertionError]. *)
Ltac no_assertion :=
  repeat first
    [ apply cannot_raise_bind; [|intros ?]
    | apply cannot_raise_for_each; intros ?
    | apply cannot_raise_lift; first [by auto with no_assertion
                                     | by apply of_option_not_assertion]
    | by apply cannot_raise_raise
    | by auto with no_assertion
    | case_match ].

Lemma first_element_no_assertion (item : record) :
  cannot_raise AssertionError (_add_first_element item).
Proof. unfold _add_first_element. no_assertion. Qed.

Lemma index_tail_no_assertion (n_atoms : nat) :
  cannot_raise AssertionError (index_tail n_atoms).
Proof. unfold index_tail. no_assertion. Qed.

Lemma gets_run {A} (f : Database → A) (db db' : Database) (r : result A) :
  gets f db = (r, db') → r = Ok (f db) ∧ db' = db.
Proof. by intros [= <- <-]. Qed.

Lemma lift_run {A} (x r : result A) (db db' : Database) :
  lift x db = (r, db') → x = r ∧ db' = db.
Proof. by intros [= <- <-]. Qed.

Lemma of_option_Ok {A} (e : error) (o : option A) (a : A) :
  of_option e o = Ok a → o = Some a.
Proof. destruct o; [by intros [= ->]|done]. Qed.

Lemma get_property_names_ok (db db' : Database) (names : list string) :
  get_property_names db = (Ok names, db') → property_names db = Some names ∧ db' = db.
Proof. intros [= Hn <-]. by apply of_option_Ok in Hn. Qed.

Lemma flags_append_ok (flag : Q) (db db' : Database) (u : unit) :
  flags_append flag db = (Ok u, db') →
  ∃ fl, global_property db = Some fl
        ∧ db' = set_global_property (Some (fl ++ [flag])) db.
Proof.
  unfold flags_append, bind, gets, raise, modify.
  destruct (global_property db) as [fl|]; [|done]. intros [= <-]. by exists fl.
Qed.

Lemma create_data_group_ok (g : string) (db db' : Database) (u : unit) :
  create_data_group g db = (Ok u, db') →
  data db !! g = None ∧ db' = set_data (<[g := ∅]> (data db)) db.
Proof.
  unfold create_data_group, bind, gets, raise, modify.
  destruct (data db !! g); [done|]. by intros [= <-].
Qed.

Lemma indices_append_ok (row : Z * Z) (db db' : Database) (u : unit) :
  indices_append row db = (Ok u, db') →
  ∃ ix, global_indices db = Some ix
        ∧ db' = set_global_indices (Some (ix ++ [row])) db.
Proof.
  unfold indices_append, bind, gets, raise, modify.
  destruct (global_indices db) as [ix|]; [|done]. intros [= <-]. by exists ix.
Qed.

Lemma create_indices_ok (rows : list (Z * Z)) (db db' : Database) (u : unit) :
  create_indices rows db = (Ok u, db') →
  global_indices db = None ∧ db' = set_global_indices (Some rows) db.
Proof.
  unfold create_indices, bind, gets, raise, modify.
  destruct (global_indices db); [done|]. by intros [= <-].
Qed.

(** A failed shape assertion in [add_instance] pins down the path taken. *)
Lemma add_record_assertion (item : record) (db db' : Database) :
  add_record item db = (Raise AssertionError, db') →
  ∃ fl species n_atoms names,
    db_size db ≠ 0
    ∧ global_property db = Some fl
    ∧ getitem item "species" = Ok species
    ∧ py_len species = Ok n_atoms
    ∧ property_names db = Some names
    ∧ data db !! format03 (Z.of_nat n_atoms) = None
    ∧ global_property db' = Some (fl ++ [get_flag item])
    ∧ frame (format03 (Z.of_nat n_atoms)) db db'
    ∧ ∃ key template value,
        key ∈ names
        ∧ leaf_structure db ≫= (.!! key) = Some template
        ∧ getitem item key = Ok value
        ∧ check_dimensions template value n_atoms = false.
Proof.
  intros Hrun. unfold add_record in Hrun.
  apply bind_run in Hrun as [(size & db1 & [[= ->] ->]%gets_run & Hrun)|(? & [? ?]%gets_run & ?)];
    [|done].
  case_bool_decide as Hsize.
  { exfalso. revert Hrun. apply cannot_raise_run, first_element_no_assertion. }
  apply bind_run in Hrun as [([] & db1 & Hflags & Hrun)|(? & Hflags & [= <-])];
    [|exfalso; revert Hflags; apply cannot_raise_run, flags_append_no_assertion].
  apply flags_append_ok in Hflags as (fl & Hfl & ->).
  apply bind_run in Hrun as [(species & ? & [Hsp ->]%lift_run & Hrun)|(? & [? ?]%lift_run & ?)];
    [|by destruct (getitem_not_assertion item "species"); congruence].
  apply bind_run in Hrun as [(n_atoms & ? & [Hlen ->]%lift_run & Hrun)|(? & [? ?]%lift_run & ?)];
    [|by destruct (py_len_not_assertion species); congruence].
  apply bind_run in Hrun as [(d & ? & [[= ->] ->]%gets_run & Hrun)|(? & [? ?]%gets_run & ?)];
    [|done].
  cbn [data set_global_property] in Hrun.
  set (g := format03 (Z.of_nat n_atoms)) in *.
  apply bind_run in Hrun as [([] & db2 & Hgroup & Hrun)|(? & Hgroup & [= <-])].
  { (* the group write succeeded: nothing after it asserts *)
    exfalso. revert Hrun. apply (cannot_raise_run _ (index_tail n_atoms)).
    apply index_tail_no_assertion. }
  destruct (data db !! g) as [grp|] eqn:Hg.
  { (* existing group: appends only *)
    exfalso. revert Hgroup. apply cannot_raise_run. no_assertion. }
  apply bind_run in Hgroup as [([] & db2 & Hcreate & Hgroup)|(? & Hcreate & [= <-])];
    [|exfalso; revert Hcreate; apply cannot_raise_run, create_data_group_no_assertion].
  apply bind_run in Hgroup as [(names & db3 & Hnames & Hgroup)|(? & Hnames & [= <-])];
    [|exfalso; revert Hnames; apply cannot_raise_run, get_property_names_no_assertion].
  apply create_data_group_ok in Hcreate as [_ ->].
  apply get_property_names_ok in Hnames as [Hpn ->].
  cbn [property_names set_data set_global_property] in Hpn.
  set (db3 := set_data _ _) in *.
  assert (frame g db db3) as Hframe3.
  { do 4 (split; [done|]). intros g' Hg'. cbn. by rewrite lookup_insert_ne. }
  assert (global_property db3 = Some (fl ++ [get_flag item])) as Hfl3 by done.
  apply (for_each_raises (group_write g))
    in Hgroup as (key & db0 & Hkey & [Hframe0 Hfl0] & Hbody).
  2:{ intros key. apply preserves_bind; [apply _|apply leaf_lookup_preserves, _|].
      intros t. apply preserves_bind; [apply _|apply preserves_lift, _|].
      intros v. case_match; [apply group_array_group_write|apply preserves_raise, _]. }
  exists fl, species, n_atoms, names.
  do 6 (split; [done|]).
  revert Hbody. unfold leaf_lookup, bind, gets, lift, raise.
  destruct Hframe0 as (? & ? & Hleaf0 & ? & ?).
  destruct Hframe3 as (? & ? & Hleaf3 & ? & ?).
  rewrite Hleaf0, Hleaf3.
  destruct (leaf_structure db ≫= (.!! key)) as [template|] eqn:Ht; [|done].
  cbn [of_option].
  destruct (getitem item key) as [value|] eqn:Hv;
    [|intros [= -> _]; by destruct (getitem_not_assertion item key)].
  destruct (check_dimensions template value n_atoms) eqn:Hcheck.
  { intros Hbody. exfalso. revert Hbody. apply cannot_raise_run, group_array_no_assertion. }
  intros [= <-].
  split; [by rewrite Hfl0|]. split.
  - trans db3; [by do 4 (split; [done|])|]. by do 4 (split; [done|]).
  - by exists key, template, value.
Qed.

(** * Failed shape validation *)

(** C2 (amended). If [add_instance] on one record fails with the
    shape-validation error, the Global Index, the record count and the arrays
    of every group that existed before the call are as they were before. *)
Theorem add_instance_mismatch_keeps_index (item : record) (db db' : Database) :
  add_instance (Dict item) db = (Raise AssertionError, db') →
  global_indices db' = global_indices db
  ∧ db_size db' = db_size db
  ∧ ∀ g, group_kept db db' g.
Proof.
  intros Hrun. cbn [add_instance] in Hrun.
  apply add_record_assertion in Hrun
    as (fl & species & n_atoms & names & _ & _ & _ & _ & _ & Hnew & _ & Hframe & _).
  destruct Hframe as ([Hix Hsize] & _ & _ & _ & Hdata).
  split; [done|]. split; [done|].
  intros g arrays Hg. rewrite Hdata; [done|]. intros ->. congruence.
Qed.

(** A five-atom record with forces of shape [(4, 3)], inserted after [water]. *)
Lemma add_instance_mismatch_keeps_index_witness :
  let out := add_instance (Dict five_atoms_short) store_water in
  out = (Raise AssertionError, out.2)
  ∧ global_indices out.2 = global_indices store_water
  ∧ db_size out.2 = db_size store_water
  ∧ ∀ g, group_kept store_water out.2 g.
Proof.
  cbv zeta.
  assert (add_instance (Dict five_atoms_short) store_water
          = (Raise AssertionError, (add_instance (Dict five_atoms_short) store_water).2))
    as Hrun by (vm_compute; reflexivity).
  split; [exact Hrun|].
  exact (add_instance_mismatch_keeps_index five_atoms_short store_water _ Hrun).
Defined.

(** C2, as stated, fails: the failed insertion has already appended the
    record's flag and created the new group with its first array. *)
Lemma add_instance_mismatch_leaves_writes :
  let out := add_instance (Dict five_atoms_short) store_water in
  out.1 = Raise AssertionError
  ∧ global_property store_water = Some [0%Q]
  ∧ global_property out.2 = Some [0%Q; 0%Q]
  ∧ data store_water !! "005" = None
  ∧ ∃ arrays, data out.2 !! "005" = Some arrays
              ∧ is_Some (arrays !! "species") ∧ arrays !! "forces" = None.
Proof.
  cbv zeta. split; [vm_compute; reflexivity|]. split; [vm_compute; reflexivity|].
  split; [vm_compute; reflexivity|]. split; [vm_compute; reflexivity|].
  eexists. split; [vm_compute; reflexivity|]. split; [|vm_compute; reflexivity].
  vm_compute. eexists. reflexivity.
Qed.

(** ** Running the insertion forward *)

Lemma bind_ok {A B} (m : M A) (k : A → M B) (db db1 : Database) (a : A) :
  m db = (Ok a, db1) → bind m k db = k a db1.
Proof. unfold bind. by intros ->. Qed.

Lemma bind_raise {A B} (m : M A) (k : A → M B) (db db1 : Database) (e : error) :
  m db = (Raise e, db1) → bind m k db = (Raise e, db1).
Proof. unfold bind. by intros ->. Qed.

Lemma flags_append_some (flag : Q) (db : Database) (fl : list Q) :
  global_property db = Some fl →
  flags_append flag db = (Ok (), set_global_property (Some (fl ++ [flag])) db).
Proof. unfold flags_append, bind, gets, modify. by intros ->. Qed.

Lemma create_data_group_fresh (g : string) (db : Database) :
  data db !! g = None →
  create_data_group g db = (Ok (), set_data (<[g := ∅]> (data db)) db).
Proof. unfold create_data_group, bind, gets, modify. by intros ->. Qed.

Lemma get_property_names_some (db : Database) (names : list string) :
  property_names db = Some names → get_property_names db = (Ok names, db).
Proof. unfold get_property_names, bind, gets, lift. by intros ->. Qed.

(** The round of the validating loop for one schema property. *)
Local Abbreviation new_group_round item n_atoms g :=
  (λ key : string,
     template_array <- leaf_lookup key ;;
     value <- lift (getitem item key) ;;
     if check_dimensions template_array value n_atoms
     then group_array g key (placeholder value)
     else raise AssertionError).

Lemma new_group_round_rejects item n_atoms g key db template value :
  leaf_structure db ≫= (.!! key) = Some template →
  getitem item key = Ok value →
  check_dimensions template value n_atoms = false →
  new_group_round item n_atoms g key db = (Raise AssertionError, db).
Proof.
  intros Ht Hv Hc. cbv beta iota delta [bind leaf_lookup gets lift raise].
  rewrite Ht. cbn [of_option]. by rewrite Hv, Hc.
Qed.

Lemma new_group_round_accepts item n_atoms g key db template value grp :
  leaf_structure db ≫= (.!! key) = Some template →
  getitem item key = Ok value →
  check_dimensions template value n_atoms = true →
  data db !! g = Some grp → grp !! key = None →
  new_group_round item n_atoms g key db
  = (Ok (), set_data (<[g := <[key := placeholder value]> grp]> (data db)) db).
Proof.
  intros Ht Hv Hc Hg Hfree.
  cbv beta iota delta [bind leaf_lookup gets lift group_array modify].
  rewrite Ht. cbn [of_option]. by rewrite Hv, Hc, Hg, Hfree.
Qed.

(** The validating loop stops at a rejected property. *)
Lemma new_group_loop_rejects (item : record) (n_atoms : nat) (g : string)
    (names : list string) (db : Database) (grp : gmap string ndarray) :
  NoDup names →
  data db !! g = Some grp →
  (∀ key, key ∈ names → grp !! key = None) →
  complete db names item →
  rejected db names item n_atoms →
  ∃ db', for_each names (new_group_round item n_atoms g) db = (Raise AssertionError, db').
Proof.
  revert db grp. induction names as [|key names IH]; intros db grp Hnd Hg Hfree Hall Hrej.
  { destruct Hrej as (k & _ & _ & Hk & _). by apply elem_of_nil in Hk. }
  apply NoDup_cons in Hnd as [Hkey Hnd].
  destruct (Hall key ltac:(left)) as (t & v & Ht & Hv).
  cbn [for_each].
  destruct (check_dimensions t v n_atoms) eqn:Hcheck.
  - rewrite (bind_ok _ _ _ _ _
               (new_group_round_accepts item n_atoms g key db t v grp
                  Ht Hv Hcheck Hg (Hfree key ltac:(left)))).
    apply (IH _ (<[key := placeholder v]> grp)).
    + done.
    + cbn. apply lookup_insert_eq.
    + intros k Hk. rewrite lookup_insert_ne; [apply Hfree; by right|].
      intros ->. done.
    + intros k Hk. apply Hall. by right.
    + destruct Hrej as (k & t' & v' & Hk & Ht' & Hv' & Hc').
      apply elem_of_cons in Hk as [->|Hk]; [congruence|].
      by exists k, t', v'.
  - rewrite (bind_raise _ _ _ _ _
               (new_group_round_rejects item n_atoms g key db t v Ht Hv Hcheck)).
    by eexists.
Qed.

(** C4 (amended). For a record inserted into a non-empty store on which the
    insertion can run (flags present, schema set and without repetition,
    species readable, every schema property with a template and a value):
    [add_instance] fails with the shape-validation error exactly when the
    record's group key is new and [check_dimensions] rejects one of the
    schema properties; with an existing group no such failure occurs. *)
Theorem add_instance_validates_new_group (item : record) (db : Database)
    (fl : list Q) (names : list string) (species : ndarray) (n_atoms : nat) :
  db_size db ≠ 0 →
  global_property db = Some fl →
  property_names db = Some names →
  NoDup names →
  getitem item "species" = Ok species →
  py_len species = Ok n_atoms →
  complete db names item →
  (∃ db', add_instance (Dict item) db = (Raise AssertionError, db'))
  ↔ data db !! format03 (Z.of_nat n_atoms) = None ∧ rejected db names item n_atoms.
Proof.
  intros Hsize Hfl Hpn Hnd Hsp Hlen Hall. split.
  - intros [db' Hrun]. cbn [add_instance] in Hrun.
    apply add_record_assertion in Hrun
      as (fl' & sp' & n' & names' & _ & _ & Hsp' & Hlen' & Hpn' & Hnew & _ & _ & Hrej).
    assert (sp' = species) as -> by congruence.
    assert (n' = n_atoms) as -> by congruence.
    assert (names' = names) as -> by congruence.
    done.
  - intros [Hnew Hrej]. cbn [add_instance]. unfold add_record.
    rewrite (bind_ok _ _ db db (db_size db)) by done.
    rewrite bool_decide_eq_false_2 by done.
    rewrite (bind_ok _ _ _ _ _ (flags_append_some _ _ _ Hfl)).
    set (db1 := set_global_property _ db).
    rewrite (bind_ok _ _ db1 db1 species) by (unfold lift; by rewrite Hsp).
    rewrite (bind_ok _ _ db1 db1 n_atoms) by (unfold lift; by rewrite Hlen).
    rewrite (bind_ok _ _ db1 db1 (data db1)) by done.
    assert (data db1 !! format03 (Z.of_nat n_atoms) = None) as Hnew1 by done.
    rewrite Hnew1.
    destruct (new_group_loop_rejects item n_atoms (format03 (Z.of_nat n_atoms))
                names (set_data (<[format03 (Z.of_nat n_atoms) := ∅]> (data db1)) db1) ∅)
      as [db' Hloop]; try done.
    { cbn. apply lookup_insert_eq. }
    exists db'. apply bind_raise.
    rewrite (bind_ok _ _ _ _ _ (create_data_group_fresh _ _ Hnew1)).
    rewrite (bind_ok _ _ _ _ names) by (by apply get_property_names_some).
    exact Hloop.
Qed.

Lemma store_water_complete : complete store_water ["species"; "forces"] five_atoms_short.
Proof.
  intros key Hkey. list_cases Hkey; eexists _, _; split; vm_compute; reflexivity.
Qed.

Lemma names_nodup : NoDup ["species"; "forces"].
Proof.
  apply NoDup_cons. split; [|apply NoDup_singleton].
  intros H%list_elem_of_singleton. discriminate H.
Qed.

(** The same insertion, read through the validation theorem. *)
Lemma add_instance_validates_new_group_witness :
  db_size store_water ≠ 0
  ∧ global_property store_water = Some [0%Q]
  ∧ property_names store_water = Some ["species"; "forces"]
  ∧ NoDup ["species"; "forces"]
  ∧ getitem five_atoms_short "species" = Ok (vec DInt [1; 8; 1; 4; 5]%Q)
  ∧ py_len (vec DInt [1; 8; 1; 4; 5]%Q) = Ok 5
  ∧ complete store_water ["species"; "forces"] five_atoms_short
  ∧ ((∃ db', add_instance (Dict five_atoms_short) store_water = (Raise AssertionError, db'))
     ↔ data store_water !! format03 (Z.of_nat 5) = None
       ∧ rejected store_water ["species"; "forces"] five_atoms_short 5).
Proof.
  assert (db_size store_water ≠ 0) as H1 by (vm_compute; lia).
  assert (global_property store_water = Some [0%Q]) as H2 by (vm_compute; reflexivity).
  assert (property_names store_water = Some ["species"; "forces"]) as H3
    by (vm_compute; reflexivity).
  assert (getitem five_atoms_short "species" = Ok (vec DInt [1; 8; 1; 4; 5]%Q)) as H5
    by (vm_compute; reflexivity).
  assert (py_len (vec DInt [1; 8; 1; 4; 5]%Q) = Ok 5) as H6 by reflexivity.
  do 7 (split; [assumption || exact names_nodup || exact store_water_complete|]).
  exact (add_instance_validates_new_group five_atoms_short store_water [0%Q]
           ["species"; "forces"] (vec DInt [1; 8; 1; 4; 5]%Q) 5
           H1 H2 H3 names_nodup H5 H6 store_water_complete).
Defined.

(** C4, as stated, fails for an existing group: no template check is made
    there.  A five-atom record whose forces have shape [(4, 3)] violates the
    single-axis rule against the [(3, 3)] template, yet inserting it into a
    store that already has the group of size 5 ends in the backend's
    [ValueError] for the append, not in the shape-validation error. *)
Lemma add_instance_existing_group_not_validated :
  db_size store_two ≠ 0
  ∧ is_Some (data store_two !! format03 5)
  ∧ (∃ template value,
       leaf_structure store_two ≫= (.!! "forces") = Some template
       ∧ getitem five_atoms_short "forces" = Ok value
       ∧ single_axis_rule (arr_shape template) (arr_shape value) 5 = false)
  ∧ (add_instance (Dict five_atoms_short) store_two).1 = Raise ValueError
  ∧ (add_instance (Dict five_atoms_short) store_two).1 ≠ Raise AssertionError.
Proof.
  split; [vm_compute; lia|]. split; [vm_compute; by eexists|].
  split; [eexists _, _; repeat split; vm_compute; reflexivity|].
  assert ((add_instance (Dict five_atoms_short) store_two).1 = Raise ValueError) as ->
    by (vm_compute; reflexivity).
  done.
Qed.

(** Through the unincremented counter of [check_dimensions], a new group takes
    a record whose forces differ from the template in two axes. *)
Lemma add_instance_accepts_two_axis_mismatch :
  (add_instance (Dict five_atoms_square) store_water).1 = Ok ().
Proof. vm_compute. reflexivity. Qed.

(** * Counting records *)

Lemma item_ind' (P : item → Prop) :
  (∀ r, P (Dict r)) → (∀ l, Forall P l → P (PyList l)) → P Other → ∀ it, P it.
Proof.
  intros HD HL HO. fix IH 1. intros [r|l|]; [apply HD| |apply HO].
  apply HL. induction l as [|x l IHl]; constructor; [apply IH|exact IHl].
Qed.

Lemma modify_same_index_names v : preserves same_index (modify (set_property_names v)).
Proof. by intros db. Qed.

Create HintDb same_index discriminated.
#[export] Hint Resolve flags_append_same_index create_flags_same_index
  create_leaf_structure_same_index create_data_group_same_index leaf_array_same_index
  group_array_same_index group_append_same_index modify_same_index_names
  : same_index.

(** Structural proof that a computation keeps the index and the count. *)
Ltac same_index :=
  repeat first
    [ apply preserves_bind; [apply _| |intros ?]
    | apply preserves_for_each; [apply _|intros ?]
    | by apply preserves_gets, _
    | by apply preserves_lift, _
    | by apply preserves_ret, _
    | by apply preserves_raise, _
    | by apply leaf_lookup_preserves, _
    | by apply group_lookup_preserves, _
    | by apply get_property_names_preserves, _
    | by auto with same_index
    | case_match ].









(** * Defects found by evaluation *)

(** C1. [create_initial_reduction] writes flag 2 at the positions named by the
    entries of the selected index rows, not at the selected positions.  On a
    store of four one-atom records with draw [[2; 3]] the selected rows are
    [(1, 2)] and [(1, 3)], and the flags become [[0; 2; 2; 2]]: position 1 is
    flagged although it was not drawn. *)
Theorem create_initial_reduction_flags_index_entries :
  let out := create_initial_reduction "lol" (1 # 2) false default_exclude_reduction
               [2; 3] store_four_h in
  global_property store_four_h = Some [0; 0; 0; 0]%Q
  ∧ global_indices store_four_h = Some [(1, 0); (1, 1); (1, 2); (1, 3)]%Z
  ∧ exclude_values [0; 0; 0; 0]%Q default_exclude_reduction = [0; 1; 2; 3]
  ∧ py_int (inject_Z 4 * (1 # 2))%Q = 2%Z
  ∧ is_draw [0; 1; 2; 3] 2 [2; 3]
  ∧ out.1 = Ok ()
  ∧ reductions out.2 !! "lol" ≫= (.!! "000") = Some [(1, 2); (1, 3)]%Z
  ∧ global_property out.2 = Some [0; 2; 2; 2]%Q.
Proof.
  cbv zeta. split; [vm_compute; reflexivity|]. split; [vm_compute; reflexivity|].
  split; [vm_compute; reflexivity|]. split; [reflexivity|]. split.
  { split; [reflexivity|]. split.
    - apply NoDup_cons. split; [|apply NoDup_singleton].
      intros H%list_elem_of_singleton. discriminate H.
    - intros p Hp. list_cases Hp; set_solver. }
  split; [vm_compute; reflexivity|]. split; vm_compute; reflexivity.
Qed.

(** C5. Single-record [get_item] formats the group key without zero padding:
    for the record stored in group ["003"] at index pair [(3, 0)] it looks up
    ["3"] and raises [KeyError]; the batch mode, which pads, finds the record. *)
Theorem get_item_single_misses_padded_group :
  global_indices store_water = Some [(3, 0)]%Z
  ∧ is_Some (data store_water !! "003")
  ∧ data store_water !! "3" = None
  ∧ get_item store_water (SelPair 3 0) false = Raise KeyError
  ∧ ∃ blocks, get_item store_water (SelBatch [(3, 0)]%Z) false = Ok (Grouped blocks)
              ∧ blocks !! "species" = Some [mk_ndarray DInt [1; 3]
                                              (Node [Node [Leaf 1; Leaf 8; Leaf 1]%Q])].
Proof.
  split; [vm_compute; reflexivity|]. split; [vm_compute; by eexists|].
  split; [vm_compute; reflexivity|]. split; [vm_compute; reflexivity|].
  eexists. split; vm_compute; reflexivity.
Qed.

(** Below 100 the unpadded and the padded group name differ. *)
Lemma unpadded_name_differs :
  forallb (λ n, negb (String.eqb (format_plain (Z.of_nat n)) (format03 (Z.of_nat n))))
          (seq 0 100) = true.
Proof. vm_compute. reflexivity. Qed.

(** From 100 on they agree. *)
Example padded_name_100 : format_plain 100 = format03 100.
Proof. reflexivity. Qed.

(** [get_chunk_loader] never looks at its [exclude_global] argument. *)
Lemma get_chunk_loader_ignores_exclusion (db : Database) (chunk_size : nat)
    (e1 e2 : option (list Q)) :
  get_chunk_loader db chunk_size e1 = get_chunk_loader db chunk_size e2.
Proof. reflexivity. Qed.

(** C6. [get_chunk_loader] does not filter by flag: on a store whose first
    record carries flag 1, the default exclusion [(1, 2)] leaves only position
    1, yet the loader's snapshot holds both index entries. *)
Theorem get_chunk_loader_keeps_excluded :
  global_property store_flagged = Some [1; 0]%Q
  ∧ global_indices store_flagged = Some [(3, 0); (5, 0)]%Z
  ∧ exclude_values [1; 0]%Q default_exclude_loader = [1]
  ∧ get_chunk_loader store_flagged 2 default_exclude_loader
    = Ok (mk_loader [[(3, 0); (5, 0)]%Z]).
Proof. repeat split; vm_compute; reflexivity. Qed.


(** * Windows of the chunk loader *)

Section Windows.
Context {A : Type}.
Variable w : nat.
Variable l : list A.

Local Abbreviation borders_from k m := ((λ j, j * w) <$> seq (S k) m).

Lemma slice_to_end (st : nat) : slice st (length l) l = drop st l.
Proof. unfold slice. apply take_ge. rewrite length_drop. lia. Qed.

Lemma np_split_from_step (k m : nat) :
  np_split_from (k * w) (borders_from k (S m)) l
  = slice (k * w) (S k * w) l :: np_split_from (S k * w) (borders_from (S k) m) l.
Proof. reflexivity. Qed.

Lemma length_np_split_from (k m : nat) :
  length (np_split_from (k * w) (borders_from k m) l) = S m.
Proof.
  revert k. induction m as [|m IH]; intros k; [done|].
  rewrite np_split_from_step. cbn [length]. by rewrite IH.
Qed.

Lemma concat_np_split_from (k m : nat) :
  concat (np_split_from (k * w) (borders_from k m) l) = drop (k * w) l.
Proof.
  revert k. induction m as [|m IH]; intros k.
  - cbn. by rewrite slice_to_end, app_nil_r.
  - rewrite np_split_from_step. cbn [concat]. rewrite IH. unfold slice.
    replace (S k * w - k * w) with w by lia.
    replace (S k * w) with (k * w + w) by lia.
    by rewrite <- drop_drop, take_drop.
Qed.

Lemma np_split_from_lookup (k m i : nat) :
  i ≤ m →
  np_split_from (k * w) (borders_from k m) l !! i
  = Some (if decide (i < m) then take w (drop ((k + i) * w) l)
          else drop ((k + m) * w) l).
Proof.
  revert k i. induction m as [|m IH]; intros k i Hi.
  - assert (i = 0) as -> by lia. cbn. rewrite slice_to_end.
    by rewrite Nat.add_0_r.
  - rewrite np_split_from_step. destruct i as [|i].
    + cbn [lookup list_lookup]. unfold slice. case_decide; [|lia].
      rewrite Nat.add_0_r. do 2 f_equal. lia.
    + cbn [lookup list_lookup]. rewrite IH by lia.
      replace ((S k + i) * w) with ((k + S i) * w) by lia.
      replace ((S k + m) * w) with ((k + S m) * w) by lia.
      repeat case_decide; try lia; done.
Qed.

Lemma length_np_split (m : nat) : length (np_split l (borders_from 0 m)) = S m.
Proof. apply (length_np_split_from 0). Qed.

Lemma concat_np_split (m : nat) : concat (np_split l (borders_from 0 m)) = l.
Proof. apply (concat_np_split_from 0). Qed.

Lemma np_split_lookup (m i : nat) :
  i ≤ m →
  np_split l (borders_from 0 m) !! i
  = Some (if decide (i < m) then take w (drop (i * w) l) else drop (m * w) l).
Proof. apply (np_split_from_lookup 0). Qed.
End Windows.

Lemma n_chunks_ceil (p w : nat) :
  w ≠ 0 → p / w + (if bool_decide (p mod w ≠ 0) then 1 else 0) = ceil_div p w.
Proof.
  intros Hw. unfold ceil_div.
  pose proof (Nat.div_mod_eq p w) as Hp.
  pose proof (Nat.mod_upper_bound p w Hw) as Hr.
  case_bool_decide as Hmod.
  - apply (Nat.div_unique _ _ _ (p mod w - 1)); lia.
  - apply (Nat.div_unique _ _ _ (w - 1)); lia.
Qed.

(** For a non-empty population the loader holds [ceil(P / W)] windows, all of
    size [W] but the last, which holds the remainder (or [W]), and the windows
    put together are the population. *)
Lemma chunk_loader_windows (indices : list (Z * Z)) (chunk_size : nat) :
  chunk_size ≠ 0 → indices ≠ [] →
  ∃ loader,
    ChunkLoader_init indices chunk_size = Ok loader
    ∧ ChunkLoader_len loader = ceil_div (length indices) chunk_size
    ∧ concat (chunk_indices loader) = indices
    ∧ ∀ i chunk,
        chunk_indices loader !! i = Some chunk →
        length chunk
        = if decide (S i < ChunkLoader_len loader) then chunk_size
          else if decide (length indices mod chunk_size = 0) then chunk_size
               else length indices mod chunk_size.
Proof.
  intros Hw Hne. unfold ChunkLoader_init.
  rewrite bool_decide_eq_false_2 by done.
  rewrite n_chunks_ceil by done.
  set (p := length indices). set (n := ceil_div p chunk_size).
  assert (0 < p) as Hp by (subst p; destruct indices; [done|simpl; lia]).
  pose proof (Nat.div_mod_eq p chunk_size) as Hdm.
  pose proof (Nat.mod_upper_bound p chunk_size Hw) as Hr.
  assert (n = p / chunk_size + (if decide (p mod chunk_size = 0) then 0 else 1)) as Hn.
  { subst n. rewrite <- n_chunks_ceil by done.
    case_bool_decide; case_decide; lia. }
  assert (0 < n) as Hpos.
  { rewrite Hn. case_decide; [|lia].
    destruct (p / chunk_size) eqn:Hq; lia. }
  eexists. split; [reflexivity|]. unfold ChunkLoader_len. cbn [chunk_indices].
  rewrite length_np_split.
  split; [lia|]. split; [apply concat_np_split|].
  intros i chunk Hi.
  assert (i ≤ n - 1) as Hle.
  { apply lookup_lt_Some in Hi. rewrite length_np_split in Hi. lia. }
  rewrite np_split_lookup in Hi by done. injection Hi as <-.
  assert ((n - 1) * chunk_size < p) as Hlast.
  { rewrite Hn. case_decide; nia. }
  repeat case_decide; try lia; rewrite ?length_take, length_drop; fold p; nia.
Qed.

(** C9. For an empty population the loader holds one (empty) window, not
    [ceil(0 / W) = 0] windows. *)
Theorem chunk_loader_empty_population :
  ChunkLoader_init [] 2 = Ok (mk_loader [[]])
  ∧ ChunkLoader_len (mk_loader [[]]) = 1
  ∧ ceil_div 0 2 = 0.
Proof. repeat split; reflexivity. Qed.

(** * The flag filter *)

Lemma zip_with_fmap_same {A B C D} (h : B → C → D) (f : A → B) (g : A → C) (l : list A) :
  zip_with h (f <$> l) (g <$> l) = (λ x, h (f x) (g x)) <$> l.
Proof. induction l as [|x l IH]; [done|]. cbn. by rewrite IH. Qed.

(** The mask after all comparisons: an entry is [true] when it differs from
    every value. *)
Lemma exclude_mask (array : list Q) (f : Q → bool) (vs : list Q) :
  foldl (λ mask value, zip_with andb mask ((λ x, flag_ne x value) <$> array))
        (f <$> array) vs
  = (λ x, f x && forallb (flag_ne x) vs) <$> array.
Proof.
  revert f. induction vs as [|v vs IH]; intros f.
  - cbn [foldl forallb]. apply list_fmap_ext. intros _ x _. by rewrite andb_true_r.
  - cbn [foldl forallb]. rewrite zip_with_fmap_same, IH.
    apply list_fmap_ext. intros _ x _. by rewrite andb_assoc.
Qed.

Lemma elem_of_np_where (mask : list bool) (i p : nat) :
  p ∈ np_where mask i ↔ ∃ j, p = i + j ∧ mask !! j = Some true.
Proof.
  revert i. induction mask as [|b mask IH]; intros i.
  - cbn. split; [by intros ?%elem_of_nil|by intros (j & _ & ?)].
  - cbn [np_where]. destruct b.
    + rewrite elem_of_cons, IH. split.
      * intros [->|(j & -> & Hj)]; [exists 0|exists (S j)]; split; try done; lia.
      * intros ([|j] & -> & Hj); [left; lia|right]. exists j. split; [lia|done].
    + rewrite IH. split.
      * intros (j & -> & Hj). exists (S j). split; [lia|done].
      * intros ([|j] & -> & Hj); [done|]. exists j. split; [lia|done].
Qed.

Lemma np_where_ascending (mask : list bool) (i : nat) :
  ascending (np_where mask i) ∧ ∀ p, p ∈ np_where mask i → i ≤ p.
Proof.
  revert i. induction mask as [|b mask IH]; intros i.
  - split; [by intros ? ? ? ? _ ?|by intros p ?%elem_of_nil].
  - destruct (IH (S i)) as [Hasc Hge]. cbn [np_where]. destruct b.
    + split.
      * intros [|a] [|c] x y Hac Hx Hy; try lia.
        -- injection Hx as <-. cbn in Hy.
           assert (S i ≤ y); [|lia]. apply Hge. by eapply list_elem_of_lookup_2.
        -- cbn in Hx, Hy. apply (Hasc a c); [lia|done..].
      * intros p [->|Hp]%elem_of_cons; [lia|]. specialize (Hge p Hp). lia.
    + split; [done|]. intros p Hp. specialize (Hge p Hp). lia.
Qed.

(** X1. [exclude_values] returns, in ascending order, exactly the positions
    whose entry differs from every value to exclude; with no values ([None]
    or an empty sequence) these are all positions. *)
Theorem exclude_values_positions (array : list Q) (values : option (list Q)) :
  (∀ p, p ∈ exclude_values array values
        ↔ ∃ x, array !! p = Some x ∧ ∀ v, v ∈ default [] values → flag_ne x v = true)
  ∧ ascending (exclude_values array values).
Proof.
  assert (∀ p, p ∈ seq 0 (length array)
               ↔ ∃ x, array !! p = Some x ∧ ∀ v : Q, v ∈ [] → flag_ne x v = true) as Hall.
  { intros p. rewrite elem_of_seq. split.
    - intros [_ Hp]. destruct (lookup_lt_is_Some_2 array p Hp) as [x Hx].
      exists x. split; [done|]. by intros v ?%elem_of_nil.
    - intros (x & Hx%lookup_lt_Some & _). lia. }
  assert (ascending (seq 0 (length array))) as Hseq.
  { intros i j x y Hij Hx%lookup_seq Hy%lookup_seq. lia. }
  destruct values as [[|v0 vs]|]; cbn [exclude_values default from_option id];
    [by split|..|by split].
  rewrite exclude_mask. split; [|apply np_where_ascending].
  intros p. rewrite elem_of_np_where. split.
  - intros (j & -> & Hj). rewrite list_lookup_fmap in Hj.
    destruct (array !! j) as [x|] eqn:Hx; [|done]. injection Hj as Hj.
    exists x. split; [done|]. intros v Hv.
    change (forallb (flag_ne x) (v0 :: vs) = true) in Hj.
    rewrite forallb_forall in Hj. by apply Hj, list_elem_of_In.
  - intros (x & Hx & Hv). exists p. split; [done|].
    rewrite list_lookup_fmap, Hx. cbn. f_equal.
    change (forallb (flag_ne x) (v0 :: vs) = true).
    apply forallb_forall. intros v Hin%list_elem_of_In. by apply Hv.
Qed.

(** * What [check_dimensions] accepts *)

(** X2. [check_dimensions] accepts a candidate exactly when it has the
    template's rank and every axis on which the two shapes differ has, in the
    candidate, the value [n_atoms]. *)
Theorem check_dimensions_accepts_iff (template array : ndarray) (n_atoms : nat) :
  check_dimensions template array n_atoms = true
  ↔ length (arr_shape template) = length (arr_shape array)
    ∧ ∀ i x y, arr_shape template !! i = Some x → arr_shape array !! i = Some y →
               x ≠ y → y = n_atoms.
Proof.
  rewrite check_dimensions_spec. unfold every_differing_axis_rule, differing_axes.
  rewrite andb_true_iff, Nat.eqb_eq, forallb_forall.
  split; intros [Hlen Hax]; (split; [done|]).
  - intros i x y Hx Hy Hne. apply Nat.eqb_eq.
    apply (Hax (x, y)). apply filter_In. split.
    + apply list_elem_of_In, list_elem_of_lookup. exists i.
      by rewrite lookup_zip_with, Hx, Hy.
    + cbn. by apply negb_true_iff, Nat.eqb_neq.
  - intros [x y] [Hin Hne]%filter_In. apply Nat.eqb_eq.
    apply list_elem_of_In, list_elem_of_lookup in Hin as [i Hi].
    apply lookup_zip_with_Some in Hi as (x' & y' & [= <- <-] & Hx & Hy).
    apply (Hax i x y Hx Hy). cbn in Hne. by apply negb_true_iff, Nat.eqb_neq in Hne.
Qed.

(** * When ragged concatenation returns *)

Lemma copy_loop_returns (cast : Q → Q) (array_list : list ndarray) (pos : nat) (res : nd) :
  (∀ a, a ∈ array_list → arr_shape a ≠ []) →
  ∃ r, copy_loop cast array_list pos res = Ok r.
Proof.
  revert pos res. induction array_list as [|a rest IH]; intros pos res Hne; [by eexists|].
  cbn [copy_loop]. unfold shape0.
  pose proof (Hne a ltac:(left)) as Ha. destruct (arr_shape a) as [|n s]; [done|].
  cbn [head of_option rbind]. apply IH. intros b Hb. apply Hne. by right.
Qed.

Lemma rank_tail (s : list nat) : s ≠ [] → length s = S (length (tail s)).
Proof. by destruct s. Qed.

(** Without stacking: the three ways to fail all end in [ValueError]. *)
Lemma concatenate_plain_result (array_list : list ndarray) :
  ((∃ r, concatenate_different_arrays array_list false = Ok r)
   ↔ array_list ≠ []
     ∧ (∀ a, a ∈ array_list → arr_shape a ≠ [])
     ∧ (∀ a b, a ∈ array_list → b ∈ array_list →
               length (arr_shape a) = length (arr_shape b)))
  ∧ ∀ e, concatenate_different_arrays array_list false = Raise e → e = ValueError.
Proof.
  destruct array_list as [|a0 rest].
  { split; [|by intros e [= <-]]. split; [by intros [r ?]|by intros [? _]]. }
  unfold concatenate_different_arrays, shape_table.
  change (trailing <$> a0 :: rest) with (trailing a0 :: (trailing <$> rest)).
  cbv beta iota zeta.
  destruct (forallb (λ s', Nat.eqb (length s') (length (trailing a0))) (trailing <$> rest))
    eqn:Hlens; cbn [rbind axis_fold].
  2:{ split; [|by intros e [= <-]]. split; [by intros [r ?]|].
      intros (_ & Hne & Hrank). exfalso.
      apply not_true_iff_false in Hlens. apply Hlens.
      apply forallb_forall. intros s Hs%list_elem_of_In.
      apply list_elem_of_fmap in Hs as (b & -> & Hb). apply Nat.eqb_eq.
      pose proof (Hrank b a0 ltac:(by right) ltac:(left)) as Hr.
      rewrite (rank_tail (arr_shape b)), (rank_tail (arr_shape a0)) in Hr
        by (apply Hne; (by right) || left).
      unfold trailing. lia. }
  assert (Forall (λ t, length t = length (trailing a0)) (trailing <$> rest)) as Hall.
  { apply Forall_forall. intros s Hs. rewrite forallb_forall in Hlens.
    by apply Nat.eqb_eq, Hlens, list_elem_of_In. }
  case_bool_decide as Huni.
  - (* equal trailing shapes: np.concatenate decides *)
    apply min_eq_max_iff in Huni; [|done].
    assert (∀ b, b ∈ rest → trailing b = trailing a0) as Hsame.
    { intros b Hb. eapply Forall_fmap, Forall_forall in Huni; [|exact Hb]. done. }
    unfold np_concatenate. destruct (arr_shape a0) as [|n0 tl0] eqn:Hs0.
    { split; [|by intros e [= <-]]. split; [by intros [r ?]|].
      intros (_ & Hne & _). by destruct (Hne a0 ltac:(left)). }
    destruct (forallb _ rest) eqn:Hrest.
    + split; [|done]. split; [|by eexists]. intros _. split; [done|].
      rewrite forallb_forall in Hrest.
      assert (∀ b, b ∈ rest → ∃ n, arr_shape b = n :: tl0) as Hshape.
      { intros b Hb. specialize (Hrest b ltac:(by apply list_elem_of_In)).
        destruct (arr_shape b) as [|n tl]; [done|].
        apply bool_decide_eq_true in Hrest as ->. by exists n. }
      split.
      * intros b [->|Hb]%elem_of_cons; [by rewrite Hs0|].
        by destruct (Hshape b Hb) as [n ->].
      * assert (∀ b, b ∈ a0 :: rest → length (arr_shape b) = S (length tl0)) as Hlen.
        { intros b [->|Hb]%elem_of_cons; [by rewrite Hs0|].
          by destruct (Hshape b Hb) as [n ->]. }
        intros b c Hb Hc. by rewrite (Hlen b), (Hlen c).
    + split; [|by intros e [= <-]]. split; [by intros [r ?]|].
      intros (_ & Hne & _). exfalso.
      apply not_true_iff_false in Hrest. apply Hrest.
      apply forallb_forall. intros b Hb%list_elem_of_In.
      specialize (Hsame b Hb). unfold trailing in Hsame. rewrite Hs0 in Hsame.
      pose proof (Hne b ltac:(by right)) as Hb0.
      destruct (arr_shape b) as [|n tl]; [done|]. cbn in Hsame.
      by apply bool_decide_eq_true.
  - (* differing trailing shapes: every input has rank at least 2 *)
    assert (trailing a0 ≠ []) as Ht0.
    { intros Hnil. apply Huni. apply min_eq_max_iff; [done|].
      eapply Forall_impl; [exact Hall|]. intros t Ht. cbv beta in Ht.
      rewrite Hnil in Ht |- *. by destruct t. }
    assert (∀ b, b ∈ a0 :: rest → arr_shape b ≠ [] ∧ length (trailing b) = length (trailing a0))
      as Hrank.
    { intros b Hb. assert (length (trailing b) = length (trailing a0)) as Hl.
      { apply elem_of_cons in Hb as [->|Hb]; [done|].
        eapply Forall_fmap, Forall_forall in Hall; [|exact Hb]. done. }
      split; [|done]. intros Hnil. unfold trailing in Hl at 1. rewrite Hnil in Hl.
      by destruct (trailing a0). }
    rewrite rmapM_shape0 by (intros b Hb; by apply Hrank).
    cbn [rbind head of_option].
    destruct (copy_loop_returns (astype (arr_dtype a0)) (a0 :: rest) 0
                (zeros (sum_list (leading <$> a0 :: rest)
                        :: foldl (zip_with Nat.max) (trailing a0) (trailing <$> rest))))
      as [body Hbody]; [intros b Hb; by apply Hrank|].
    rewrite Hbody. cbn [rbind]. split; [|done]. split; [|by eexists].
    intros _. split; [done|]. split; [intros b Hb; by apply Hrank|].
    intros b c Hb Hc.
    rewrite (rank_tail (arr_shape b)), (rank_tail (arr_shape c)) by (by apply Hrank).
    destruct (Hrank b Hb) as [_ Hb']. destruct (Hrank c Hc) as [_ Hc'].
    unfold trailing in *. lia.
Qed.

(** X3. [concatenate_different_arrays] returns an array exactly when the list
    is non-empty, its arrays have one common rank and (unless [stack] is set)
    that rank is at least 1; in every other case it raises [ValueError]. *)
Theorem concatenate_different_arrays_returns_iff (array_list : list ndarray) (stack : bool) :
  ((∃ r, concatenate_different_arrays array_list stack = Ok r)
   ↔ array_list ≠ []
     ∧ (stack = false → ∀ a, a ∈ array_list → arr_shape a ≠ [])
     ∧ (∀ a b, a ∈ array_list → b ∈ array_list →
               length (arr_shape a) = length (arr_shape b)))
  ∧ ∀ e, concatenate_different_arrays array_list stack = Raise e → e = ValueError.
Proof.
  destruct stack.
  - change (concatenate_different_arrays array_list true)
      with (concatenate_different_arrays (reshape1 <$> array_list) false).
    destruct (concatenate_plain_result (reshape1 <$> array_list)) as [Hiff Herr].
    split; [|exact Herr]. rewrite Hiff. split.
    + intros (Hne & _ & Hrank). split; [by destruct array_list|]. split; [done|].
      intros a b Ha Hb.
      pose proof (Hrank (reshape1 a) (reshape1 b)
                    ltac:(by apply list_elem_of_fmap_2)
                    ltac:(by apply list_elem_of_fmap_2)) as Hr.
      cbn in Hr. lia.
    + intros (Hne & _ & Hrank). split; [by destruct array_list|]. split.
      * intros a' (a & -> & _)%list_elem_of_fmap. done.
      * intros a' b' (a & -> & Ha)%list_elem_of_fmap (b & -> & Hb)%list_elem_of_fmap.
        cbn. f_equal. by apply Hrank.
  - destruct (concatenate_plain_result array_list) as [Hiff Herr].
    split; [|exact Herr]. rewrite Hiff. split.
    + intros (? & ? & ?). by split.
    + intros (? & Hne & ?). split; [done|]. split; [by apply Hne|done].
Qed.

(** * Insertion: what it keeps *)

Lemma bind_assoc {A B C} (m : M A) (k : A → M B) (h : B → M C) (db : Database) :
  bind (bind m k) h db = bind m (λ a, bind (k a) h) db.
Proof. unfold bind. by destruct (m db) as [[a|e] db1]. Qed.

Lemma for_each_app {A} (l1 l2 : list A) (body : A → M unit) (db : Database) :
  for_each (l1 ++ l2) body db = (for_each l1 body ;;; for_each l2 body) db.
Proof.
  revert db. induction l1 as [|x l1 IH]; intros db; [done|].
  cbn [app for_each]. rewrite bind_assoc.
  destruct (body x db) as [[[]|e] db1] eqn:Hx.
  - rewrite !(bind_ok _ _ _ _ _ Hx). apply IH.
  - by rewrite !(bind_raise _ _ _ _ _ Hx).
Qed.

(** X4. A (nested) list argument is handled as the sequence of its leaves:
    [add_instance] on any argument is the run of [add_instance] over the
    flattened argument, with the same result and the same store. *)
Theorem add_instance_flatten (it : item) (db : Database) :
  add_instance it db = add_instances (flatten it) db.
Proof.
  unfold add_instances. revert db.
  induction it as [r|l IH|] using item_ind'; intros db.
  - cbn [flatten for_each].
    destruct (add_instance (Dict r) db) as [[[]|e] db1] eqn:Hr.
    + by rewrite (bind_ok _ _ _ _ _ Hr).
    + by rewrite (bind_raise _ _ _ _ _ Hr).
  - cbn [add_instance flatten]. revert db.
    induction IH as [|x l Hx _ IHl]; intros db; [done|].
    cbn [List.map concat]. rewrite for_each_app.
    destruct (add_instance x db) as [[[]|e] db1] eqn:Hrun.
    + rewrite (bind_ok _ _ _ _ _ Hrun). rewrite Hx in Hrun.
      rewrite (bind_ok _ _ _ _ _ Hrun). apply IHl.
    + rewrite (bind_raise _ _ _ _ _ Hrun). rewrite Hx in Hrun.
      by rewrite (bind_raise _ _ _ _ _ Hrun).
  - done.
Qed.

Global Instance schema_same_preorder : PreOrder schema_same.
Proof.
  split.
  - by intros db.
  - intros db1 db2 db3 (H1 & Hp1 & Hl1 & Hr1) (H2 & Hp2 & Hl2 & Hr2).
    unfold schema_same. rewrite Hp2, Hl2, Hr2. split; [lia|done].
Qed.

Global Instance reductions_same_preorder : PreOrder reductions_same.
Proof.
  split; [by intros db|]. intros db1 db2 db3 H1 H2. unfold reductions_same in *. congruence.
Qed.

Global Instance schema_kept_preorder : PreOrder schema_kept.
Proof.
  split.
  - by intros db.
  - intros db1 db2 db3 (H1 & Hr1 & Hs1) (H2 & Hr2 & Hs2).
    split; [lia|]. split; [congruence|]. intros Hne.
    destruct (Hs1 Hne) as [Hp Hl]. destruct Hs2 as [Hp' Hl']; [lia|]. split; congruence.
Qed.

(** A computation built from the store primitives keeps a relation that each
    primitive keeps; [leaf] proves it for a primitive and [block] for a
    composite that is to be taken as a whole. *)
Ltac preserving block leaf :=
  repeat first
    [ solve [block]
    | apply preserves_bind; [apply _| |intros ?]
    | apply preserves_for_each; [apply _|intros ?]
    | by apply preserves_gets, _
    | by apply preserves_lift, _
    | by apply preserves_ret, _
    | by apply preserves_raise, _
    | solve [leaf]
    | case_match ].

(** A primitive, unfolded to the store it returns. *)
Ltac unfold_prim :=
  intros ?;
  cbv [bind gets lift ret raise modify get_property_names group_lookup leaf_lookup
       flags_append indices_append create_data_group create_indices create_flags
       create_leaf_structure leaf_array group_array group_append of_option
       set_data set_db_size set_global_indices set_global_property
       set_leaf_structure set_property_names set_reductions];
  repeat case_match; simplify_eq;
  cbn [data db_size global_indices global_property leaf_structure property_names
       reductions fst snd].

Lemma add_instance_preserves (R : relation Database) `{!PreOrder R} :
  (∀ r, preserves R (add_record r)) → ∀ it, preserves R (add_instance it).
Proof.
  intros Hrec. induction it as [r|l IH|] using item_ind'.
  - apply Hrec.
  - cbn [add_instance]. induction IH as [|x l Hx _ IHl]; [by apply preserves_ret, _|].
    by apply preserves_bind.
  - by apply preserves_raise, _.
Qed.

(** Counting the new record and appending its index row. *)
Lemma count_and_index_schema_same (row : Z * Z) :
  preserves schema_same
    (size <- gets db_size ;; modify (set_db_size (size + 1)) ;;; indices_append row).
Proof. unfold_prim; unfold schema_same; cbn; (split; [lia|done]). Qed.

Lemma add_record_schema_kept (r : record) : preserves schema_kept (add_record r).
Proof.
  intros db. unfold add_record. rewrite (bind_ok _ _ db db (db_size db)) by done.
  case_bool_decide as Hsize.
  - assert (preserves reductions_same (_add_first_element r)) as Hred.
    { unfold _add_first_element.
      preserving fail ltac:(unfold_prim; unfold reductions_same; cbn; done). }
    specialize (Hred db). split; [lia|]. split; [exact Hred|]. by intros [].
  - match goal with
    | |- schema_kept _ (?m db).2 => assert (preserves schema_same m) as Hsame
    end.
    { preserving ltac:(apply count_and_index_schema_same)
                 ltac:(unfold_prim; unfold schema_same; cbn; done). }
    destruct (Hsame db) as (Hle & Hp & Hl & Hr). by split.
Qed.

(** X5. Whatever its argument and its outcome, [add_instance] never lowers
    the record count and never touches the reductions, and on a store that
    already holds a record it leaves the schema ([property_names] and the
    leaf structure) as it is. *)
Theorem add_instance_keeps_schema (it : item) (db : Database) :
  schema_kept db (add_instance it db).2.
Proof. revert db. apply add_instance_preserves; [apply _|apply add_record_schema_kept]. Qed.

(** * Insertion only appends *)

Lemma array_extends_refl (a : ndarray) : array_extends a a.
Proof.
  split; [done|]. split; [exists []; by rewrite app_nil_r|].
  destruct (arr_shape a) as [|n s]; [done|]. exists 0. by rewrite Nat.add_0_r.
Qed.

Lemma array_extends_trans (a b c : ndarray) :
  array_extends a b → array_extends b c → array_extends a c.
Proof.
  intros (Hd1 & [m1 Hr1] & Hs1) (Hd2 & [m2 Hr2] & Hs2).
  split; [congruence|]. split.
  - exists (m1 ++ m2). by rewrite Hr2, Hr1, (assoc_L (++)).
  - destruct (arr_shape a) as [|n s].
    + by rewrite Hs1 in Hs2.
    + destruct Hs1 as [k1 Hs1]. rewrite Hs1 in Hs2. destruct Hs2 as [k2 ->].
      exists (k1 + k2). f_equal. lia.
Qed.

Global Instance grows_preorder : PreOrder grows.
Proof.
  split.
  - intros db. split; [|split].
    + intros ix ->. exists []. by rewrite app_nil_r.
    + intros fl ->. exists []. by rewrite app_nil_r.
    + intros g grp ->. exists grp. split; [done|]. intros key a ->.
      exists a. split; [done|apply array_extends_refl].
  - intros db1 db2 db3 (Hi1 & Hf1 & Hd1) (Hi2 & Hf2 & Hd2). split; [|split].
    + intros ix Hix. destruct (Hi1 ix Hix) as [m1 H1]. destruct (Hi2 _ H1) as [m2 H2].
      exists (m1 ++ m2). by rewrite H2, (assoc_L (++)).
    + intros fl Hfl. destruct (Hf1 fl Hfl) as [m1 H1]. destruct (Hf2 _ H1) as [m2 H2].
      exists (m1 ++ m2). by rewrite H2, (assoc_L (++)).
    + intros g grp Hg. destruct (Hd1 g grp Hg) as (grp2 & Hg2 & Ha2).
      destruct (Hd2 g grp2 Hg2) as (grp3 & Hg3 & Ha3).
      exists grp3. split; [done|]. intros key a Ha.
      destruct (Ha2 key a Ha) as (a2 & Hk2 & He2).
      destruct (Ha3 key a2 Hk2) as (a3 & Hk3 & He3).
      exists a3. split; [done|]. by eapply array_extends_trans.
Qed.

(** Stores that agree on index, flags and data. *)
Lemma grows_same_fields (db db' : Database) :
  global_indices db' = global_indices db →
  global_property db' = global_property db →
  data db' = data db →
  grows db db'.
Proof.
  intros Hi Hf Hd. destruct (reflexivity (R := grows) db) as (H1 & H2 & H3).
  unfold grows. by rewrite Hi, Hf, Hd.
Qed.

(** A store whose data differs from [db]'s in group [g] only, where the
    arrays of [db] are extended. *)
Lemma grows_group (db db' : Database) (g : string) (grp' : gmap string ndarray) :
  global_indices db' = global_indices db →
  global_property db' = global_property db →
  data db' = <[g := grp']> (data db) →
  (∀ grp key a, data db !! g = Some grp → grp !! key = Some a →
                ∃ a', grp' !! key = Some a' ∧ array_extends a a') →
  grows db db'.
Proof.
  intros Hi Hf Hd Hgrp. split; [|split].
  - intros ix Hix. exists []. by rewrite Hi, app_nil_r.
  - intros fl Hfl. exists []. by rewrite Hf, app_nil_r.
  - intros g0 grp Hg0. rewrite Hd. destruct (decide (g = g0)) as [->|Hne].
    + exists grp'. rewrite lookup_insert_eq. split; [done|]. intros key a. by apply Hgrp.
    + exists grp. rewrite lookup_insert_ne by done. split; [done|].
      intros key a ->. exists a. split; [done|apply array_extends_refl].
Qed.

Lemma zarr_append_extends (a rows a' : ndarray) :
  zarr_append a rows = Ok a' → array_extends a a'.
Proof.
  unfold zarr_append. destruct (arr_shape a) as [|n s] eqn:Hs; [done|].
  destruct (arr_shape rows) as [|k s']; [done|]. case_bool_decide; [|done].
  intros [= <-]. split; [done|]. split; [by eexists|]. rewrite Hs. by exists k.
Qed.

(** A store that differs from [db] in the Global Index only, which is
    extended or was absent. *)
Lemma grows_index (db db' : Database) :
  (∀ ix, global_indices db = Some ix → ∃ more, global_indices db' = Some (ix ++ more)) →
  global_property db' = global_property db →
  data db' = data db →
  grows db db'.
Proof.
  intros Hi Hf Hd. destruct (reflexivity (R := grows) db) as (H1 & H2 & H3).
  unfold grows. by rewrite Hf, Hd.
Qed.

(** The same for the flag array. *)
Lemma grows_flags (db db' : Database) :
  global_indices db' = global_indices db →
  (∀ fl, global_property db = Some fl → ∃ more, global_property db' = Some (fl ++ more)) →
  data db' = data db →
  grows db db'.
Proof.
  intros Hi Hf Hd. destruct (reflexivity (R := grows) db) as (H1 & H2 & H3).
  unfold grows. by rewrite Hi, Hd.
Qed.

Lemma flags_append_grows flag : preserves grows (flags_append flag).
Proof.
  unfold_prim; try done. apply grows_flags; [done| |done].
  intros fl Hfl. exists [flag]. cbn. congruence.
Qed.

Lemma indices_append_grows row : preserves grows (indices_append row).
Proof.
  unfold_prim; try done. apply grows_index; [|done..].
  intros ix Hix. exists [row]. cbn. congruence.
Qed.

Lemma create_indices_grows rows : preserves grows (create_indices rows).
Proof. unfold_prim; try done. apply grows_index; [|done..]. intros ix Hix. congruence. Qed.

Lemma create_flags_grows fl : preserves grows (create_flags fl).
Proof. unfold_prim; try done. apply grows_flags; [done| |done]. intros ix Hix. congruence. Qed.

Lemma create_data_group_grows g : preserves grows (create_data_group g).
Proof.
  unfold_prim; try done.
  eapply (grows_group db _ g ∅); [done..|]. intros grp key a Hg. congruence.
Qed.

Lemma group_array_grows g key a : preserves grows (group_array g key a).
Proof.
  unfold_prim; try done.
  eapply (grows_group db _ g); [done..|]. intros grp key' a' Hg Ha'.
  assert (grp = g0) as -> by congruence.
  exists a'. split; [|apply array_extends_refl].
  rewrite lookup_insert_ne; [done|]. intros ->. congruence.
Qed.

Lemma group_append_grows g key value : preserves grows (group_append g key value).
Proof.
  intros db. unfold group_append.
  destruct (group_lookup g key db) as [[a|e] db1] eqn:Hlook.
  2:{ rewrite (bind_raise _ _ _ _ _ Hlook). revert Hlook.
      unfold group_lookup, bind, gets, lift. by intros [= _ <-]. }
  rewrite (bind_ok _ _ _ _ _ Hlook). revert Hlook.
  unfold group_lookup, bind, gets, lift at 1. intros [= Ha <-].
  apply of_option_Ok in Ha.
  destruct (data db !! g) as [grp|] eqn:Hg; [|done]. cbn in Ha.
  unfold bind, lift. destruct (zarr_append a (reshape1 value)) as [a'|e] eqn:Happ; [|done].
  unfold gets, modify. cbn [snd]. rewrite Hg. cbn [default from_option id].
  eapply (grows_group db _ g); [done..|]. intros grp0 key' a0 Hg0 Ha0.
  assert (grp0 = grp) as -> by congruence.
  destruct (decide (key = key')) as [<-|Hne].
  - exists a'. rewrite lookup_insert_eq. split; [done|].
    assert (a0 = a) as -> by congruence. by eapply zarr_append_extends.
  - exists a0. rewrite lookup_insert_ne by done. split; [done|apply array_extends_refl].
Qed.

Lemma add_record_grows (r : record) : preserves grows (add_record r).
Proof.
  unfold add_record, _add_first_element.
  preserving
    ltac:(first [ apply flags_append_grows | apply indices_append_grows
                | apply create_indices_grows | apply create_flags_grows
                | apply create_data_group_grows | apply group_array_grows
                | apply group_append_grows ])
    ltac:(unfold_prim; by apply grows_same_fields).
Qed.

(** X6. [add_instance] only appends: whatever its argument and its outcome,
    an existing Global Index and an existing flag array are afterwards the
    old ones followed by new entries, and every array of every existing group
    keeps its dtype, its trailing shape and its rows, with new rows after
    them. *)
Theorem add_instance_appends_only (it : item) (db : Database) :
  grows db (add_instance it db).2.
Proof. revert db. apply add_instance_preserves; [apply _|apply add_record_grows]. Qed.

(** Appending rows does not disturb earlier reads: a row read at a
    non-negative offset is read unchanged from the extended array. *)
Lemma read_row_stable (a a' : ndarray) (offset : Z) (row : ndarray) :
  array_extends a a' → (0 ≤ offset)%Z →
  read_row a offset = Ok row → read_row a' offset = Ok row.
Proof.
  intros (Hd & [more Hrows] & Hs) Hoff. unfold read_row.
  destruct (arr_shape a) as [|n s]; [done|]. destruct Hs as [k ->].
  unfold norm_index. cbv zeta.
  rewrite (bool_decide_eq_false_2 (offset < 0)%Z) by lia.
  case_bool_decide as Hn; [|done]. cbn [rbind].
  destruct (nd_rows (arr_body a) !! Z.to_nat offset) as [r|] eqn:Hr; [|done].
  cbn [of_option rbind]. intros [= <-].
  rewrite bool_decide_eq_true_2 by lia. cbn [rbind].
  rewrite Hrows, (lookup_app_l_Some _ _ _ _ Hr). cbn. by rewrite Hd.
Qed.

(** X7. What was stored stays readable: a row that [get_item] reads from a
    stored array at a non-negative local offset is read unchanged, from the
    same group, property and offset, after any later [add_instance], whether
    that call returns or raises. *)
Theorem add_instance_keeps_stored_rows (it : item) (db : Database) (g key : string)
    (grp : gmap string ndarray) (a : ndarray) (offset : Z) (row : ndarray) :
  data db !! g = Some grp → grp !! key = Some a →
  (0 ≤ offset)%Z → read_row a offset = Ok row →
  ∃ grp' a',
    data (add_instance it db).2 !! g = Some grp' ∧ grp' !! key = Some a'
    ∧ read_row a' offset = Ok row.
Proof.
  intros Hg Hkey Hoff Hread.
  destruct (add_instance_preserves grows add_record_grows it db) as (_ & _ & Hdata).
  destruct (Hdata g grp Hg) as (grp' & Hg' & Harr).
  destruct (Harr key a Hkey) as (a' & Hkey' & Hext).
  exists grp', a'. split; [done|]. split; [done|]. by eapply read_row_stable.
Qed.

(** The species of the first record of [store_water] are still read at offset
    0 of group 003 after a second three-atom record is inserted. *)
Lemma add_instance_keeps_stored_rows_witness :
  ∃ grp' a',
    data (add_instance (Dict water) store_water).2 !! "003" = Some grp'
    ∧ grp' !! "species" = Some a'
    ∧ read_row a' 0 = Ok (vec DInt [1; 8; 1]%Q).
Proof.
  apply (add_instance_keeps_stored_rows (Dict water) store_water "003" "species"
           (default ∅ (data store_water !! "003"))
           (default (vec DInt []) (default ∅ (data store_water !! "003") !! "species"))
           0 (vec DInt [1; 8; 1]%Q)).
  - vm_compute. reflexivity.
  - vm_compute. reflexivity.
  - lia.
  - vm_compute. reflexivity.
Defined.

(** * The windows of a loader *)

(** For a positive chunk size the constructor returns, and the windows put
    together are the population. *)
Lemma chunk_loader_windows_total (indices : list (Z * Z)) (chunk_size : nat) :
  chunk_size ≠ 0 →
  ∃ loader,
    ChunkLoader_init indices chunk_size = Ok loader
    ∧ concat (chunk_indices loader) = indices.
Proof.
  intros Hw. destruct (decide (indices = [])) as [->|Hne].
  - exists (mk_loader [[]]). unfold ChunkLoader_init.
    rewrite bool_decide_eq_false_2 by done. cbn [length].
    rewrite Nat.Div0.div_0_l, Nat.Div0.mod_0_l.
    by rewrite (bool_decide_eq_false_2 (0 ≠ 0)) by (intros ?; done).
  - destruct (chunk_loader_windows indices chunk_size Hw Hne) as (loader & ? & _ & ? & _).
    by exists loader.
Qed.

(** X8. For a positive chunk size the constructor of [ChunkLoader] returns,
    for every population, a loader whose windows put together are the
    population in its order, none longer than the chunk size, and there are
    [ceil(P / W)] of them, but one for the empty population. *)
Theorem chunk_loader_covers (indices : list (Z * Z)) (chunk_size : nat) :
  chunk_size ≠ 0 →
  ∃ loader,
    ChunkLoader_init indices chunk_size = Ok loader
    ∧ concat (chunk_indices loader) = indices
    ∧ ChunkLoader_len loader = Nat.max 1 (ceil_div (length indices) chunk_size)
    ∧ ∀ chunk, chunk ∈ chunk_indices loader → length chunk ≤ chunk_size.
Proof.
  intros Hw. destruct (decide (indices = [])) as [->|Hne].
  - exists (mk_loader [[]]). unfold ChunkLoader_init.
    rewrite bool_decide_eq_false_2 by done. cbn [length].
    rewrite Nat.Div0.div_0_l, Nat.Div0.mod_0_l.
    rewrite (bool_decide_eq_false_2 (0 ≠ 0)) by (intros ?; done).
    repeat split.
    + unfold ceil_div. cbn [length ChunkLoader_len chunk_indices].
      rewrite Nat.div_small by lia. done.
    + intros chunk ->%list_elem_of_singleton. cbn. lia.
  - destruct (chunk_loader_windows indices chunk_size Hw Hne)
      as (loader & Hinit & Hlen & Hcat & Hsizes).
    exists loader. repeat split; [done..| |].
    + rewrite Hlen. assert (0 < length indices) by (destruct indices; [done|cbn; lia]).
      assert (0 < ceil_div (length indices) chunk_size); [|lia].
      unfold ceil_div. apply Nat.div_str_pos. lia.
    + intros chunk [i Hi]%list_elem_of_lookup. rewrite (Hsizes i chunk Hi).
      pose proof (Nat.mod_upper_bound (length indices) chunk_size Hw).
      repeat case_decide; lia.
Qed.

(** Five index rows in windows of two. *)
Lemma chunk_loader_covers_witness :
  ∃ loader,
    ChunkLoader_init [(3, 0); (3, 1); (5, 0); (5, 1); (5, 2)]%Z 2 = Ok loader
    ∧ concat (chunk_indices loader) = [(3, 0); (3, 1); (5, 0); (5, 1); (5, 2)]%Z
    ∧ ChunkLoader_len loader = 3
    ∧ ∀ chunk, chunk ∈ chunk_indices loader → length chunk ≤ 2.
Proof. apply (chunk_loader_covers [(3, 0); (3, 1); (5, 0); (5, 1); (5, 2)]%Z 2). lia. Defined.

(** * Group names *)

Lemma digit_value_pretty_N_char (x : N) :
  (x < 10)%N → digit_value (pretty_N_char x) = Some (Z.of_N x).
Proof.
  intros Hx.
  assert (x = 0 ∨ x = 1 ∨ x = 2 ∨ x = 3 ∨ x = 4 ∨ x = 5 ∨ x = 6 ∨ x = 7 ∨ x = 8 ∨ x = 9)%N
    as Hcases by lia.
  repeat (destruct Hcases as [->|Hcases]; [reflexivity|]). by subst.
Qed.

(** Reading the digits that [pretty] wrote in front of [s]. *)
Lemma digits_value_pretty_N_go (x : N) :
  ∀ s, ∃ k : nat, ∀ acc,
    digits_value acc (pretty_N_go x s) = digits_value (acc * 10 ^ Z.of_nat k + Z.of_N x)%Z s.
Proof.
  induction (N.lt_wf_0 x) as [x _ IH]. intros s.
  destruct (decide (x = 0)%N) as [->|Hx].
  - exists 0. intros acc. rewrite pretty_N_go_0. f_equal. cbn. lia.
  - rewrite pretty_N_go_step by lia.
    destruct (IH (x `div` 10)%N ltac:(apply N.div_lt; lia)
                (String (pretty_N_char (x `mod` 10)) s)) as [k Hk].
    exists (S k). intros acc. rewrite Hk. cbn [digits_value].
    rewrite digit_value_pretty_N_char by (apply N.mod_lt; lia). cbn.
    f_equal. rewrite Nat2Z.inj_succ, Z.pow_succ_r by lia.
    pose proof (N.div_mod x 10 ltac:(lia)) as Hdm.
    assert (Z.of_N x = 10 * Z.of_N (x `div` 10) + Z.of_N (x `mod` 10))%Z by lia.
    lia.
Qed.

Lemma digits_value_pretty_N (x : N) : digits_value 0 (pretty x) = Some (Z.of_N x).
Proof.
  unfold pretty, pretty_N. case_decide as Hx; [by subst|].
  destruct (digits_value_pretty_N_go x "") as [k Hk]. rewrite Hk. cbn. f_equal; lia.
Qed.

Lemma digits_value_zero_pad (k : nat) (s : string) :
  digits_value 0 (zero_pad k s) = digits_value 0 s.
Proof. induction k as [|k IH]; [done|]. cbn. exact IH. Qed.

(** [pretty] of a natural number starts with a digit. *)
Lemma pretty_N_head (x : N) :
  ∃ c s, pretty x = String c s ∧ is_Some (digit_value c).
Proof.
  assert (∀ y s, (∃ c s', s = String c s' ∧ is_Some (digit_value c)) →
                 ∃ c s', pretty_N_go y s = String c s' ∧ is_Some (digit_value c)) as Hgo.
  { intros y. induction (N.lt_wf_0 y) as [y _ IH]. intros s Hs.
    destruct (decide (y = 0)%N) as [->|Hy]; [by rewrite pretty_N_go_0|].
    rewrite pretty_N_go_step by lia. apply IH; [apply N.div_lt; lia|].
    eexists _, _. split; [done|].
    rewrite digit_value_pretty_N_char by (apply N.mod_lt; lia). done. }
  unfold pretty, pretty_N. case_decide as Hx.
  - exists "0"%char, "". split; [done|]. by eexists.
  - rewrite pretty_N_go_step by lia. apply Hgo. eexists _, _. split; [done|].
    rewrite digit_value_pretty_N_char by (apply N.mod_lt; lia). done.
Qed.

Lemma digit_value_not_dash (c : ascii) : is_Some (digit_value c) → c ≠ "-"%char.
Proof. intros [d Hd] ->. vm_compute in Hd. done. Qed.

Lemma decimal_value_digits (s : string) (c : ascii) (s' : string) :
  s = String c s' → is_Some (digit_value c) → decimal_value s = digits_value 0 s.
Proof.
  intros -> Hc. apply digit_value_not_dash in Hc. unfold decimal_value.
  destruct c as [[] [] [] [] [] [] [] []]; try done.
Qed.

Lemma zero_pad_head (k : nat) (s : string) :
  (∃ c s', s = String c s' ∧ is_Some (digit_value c)) →
  ∃ c s', zero_pad k s = String c s' ∧ is_Some (digit_value c).
Proof.
  intros Hs. destruct k as [|k]; [done|]. cbn. eexists _, _. split; [done|]. by eexists.
Qed.

Lemma decimal_value_format03 (n : Z) : decimal_value (format03 n) = Some n.
Proof.
  unfold format03. case_bool_decide as Hn.
  - destruct n as [|p|p]; try lia. cbv zeta.
    change (pretty (Z.abs (Z.neg p))) with (pretty (N.pos p)).
    destruct (zero_pad_head (2 - String.length (pretty (N.pos p))) (pretty (N.pos p))
                (pretty_N_head (N.pos p))) as (c & s' & Hpad & Hc).
    rewrite Hpad. unfold decimal_value.
    change ("-"%char) with (Ascii true false true true false true false false).
    cbn match. rewrite <- Hpad, digits_value_zero_pad, digits_value_pretty_N. done.
  - cbv zeta.
    assert (pretty n = pretty (Z.to_N n)) as ->.
    { destruct n as [|p|p]; try lia; done. }
    destruct (zero_pad_head (3 - String.length (pretty (Z.to_N n))) (pretty (Z.to_N n))
                (pretty_N_head (Z.to_N n))) as (c & s' & Hpad & Hc).
    rewrite (decimal_value_digits _ _ _ Hpad Hc).
    rewrite digits_value_zero_pad, digits_value_pretty_N. f_equal. lia.
Qed.

Lemma format03_inj (m n : Z) : format03 m = format03 n → m = n.
Proof.
  intros Heq. pose proof (decimal_value_format03 m) as Hm.
  rewrite Heq, decimal_value_format03 in Hm. congruence.
Qed.

(** X9. The name [f"{n:03}"] of a group denotes its entity size: read back as
    a decimal number it gives [n], so two entity sizes share a group name
    only if they are equal. *)
Theorem format03_names_the_size (n : Z) :
  decimal_value (format03 n) = Some n ∧ ∀ m, format03 m = format03 n ↔ m = n.
Proof.
  split; [apply decimal_value_format03|]. intros m. split; [apply format03_inj|by intros ->].
Qed.

(** * The snapshot of a loader *)

Lemma rmapM_lookup_seq {A} (e : error) (l : list A) (n i : nat) :
  i + n ≤ length l →
  rmapM (λ p, of_option e (l !! p)) (seq i n) = Ok (take n (drop i l)).
Proof.
  revert i. induction n as [|n IH]; intros i Hn; [done|].
  cbn [seq rmapM]. destruct (lookup_lt_is_Some_2 l i ltac:(lia)) as [x Hx].
  rewrite Hx. cbn [of_option rbind]. rewrite IH by lia. cbn [rbind].
  by rewrite (drop_S _ _ _ Hx).
Qed.


Lemma rmapM_lookup_ok {A} (e : error) (d : A) (l : list A) (ps : list nat) :
  Forall (λ p, p < length l) ps →
  rmapM (λ p, of_option e (l !! p)) ps = Ok ((λ p, default d (l !! p)) <$> ps).
Proof.
  induction 1 as [|p ps Hp _ IH]; [done|].
  cbn [rmapM fmap list_fmap]. destruct (lookup_lt_is_Some_2 l p Hp) as [x Hx].
  rewrite Hx. cbn [of_option rbind]. unfold fmap in IH. by rewrite IH.
Qed.

Lemma fmap_lookup_seq {A} (d : A) (l : list A) :
  (λ p, default d (l !! p)) <$> seq 0 (length l) = l.
Proof.
  apply list_eq. intros i. rewrite list_lookup_fmap.
  destruct (decide (i < length l)) as [Hi|Hi].
  - rewrite lookup_seq_lt by done. cbn.
    destruct (lookup_lt_is_Some_2 l i Hi) as [x Hx]. by rewrite Hx.
  - rewrite lookup_seq_ge by lia. cbn. symmetry. apply lookup_ge_None. lia.
Qed.

Section ArgSort.

Lemma insert_by_key_perm (x : Z * nat) (l : list (Z * nat)) : insert_by_key x l ≡ₚ x :: l.
Proof.
  induction l as [|y l IH]; [done|]. cbn [insert_by_key]. case_bool_decide; [done|].
  rewrite IH. apply Permutation_swap.
Qed.

Lemma insert_by_key_sorted (x : Z * nat) (l : list (Z * nat)) :
  keys_ascend l → keys_ascend (insert_by_key x l).
Proof.
  induction l as [|y l IH]; cbn [insert_by_key keys_ascend].
  - done.
  - intros [Hy Hl]. case_bool_decide as Hxy; cbn [keys_ascend].
    + split; [|done]. constructor; [lia|].
      eapply Forall_impl; [exact Hy|]. intros z Hz. cbn in *. lia.
    + split; [|by apply IH]. rewrite insert_by_key_perm. constructor; [lia|done].
Qed.

Lemma foldl_insert_perm (l acc : list (Z * nat)) :
  foldl (λ acc x, insert_by_key x acc) acc l ≡ₚ l ++ acc.
Proof.
  revert acc. induction l as [|x l IH]; intros acc; [done|].
  cbn [foldl]. rewrite IH, insert_by_key_perm. symmetry. apply Permutation_middle.
Qed.

Lemma foldl_insert_sorted (l acc : list (Z * nat)) :
  keys_ascend acc → keys_ascend (foldl (λ acc x, insert_by_key x acc) acc l).
Proof.
  revert acc. induction l as [|x l IH]; intros acc Hacc; [done|].
  cbn [foldl]. by apply IH, insert_by_key_sorted.
Qed.

Lemma keys_ascend_lookup (l : list (Z * nat)) (i j : nat) (a b : Z * nat) :
  keys_ascend l → i ≤ j → l !! i = Some a → l !! j = Some b → (a.1 ≤ b.1)%Z.
Proof.
  revert i j. induction l as [|x l IH]; intros i j Hl Hij Ha Hb; [done|].
  destruct Hl as [Hx Hl]. destruct i as [|i], j as [|j]; try lia; simplify_eq/=.
  - lia.
  - rewrite Forall_forall in Hx. apply (Hx b). by eapply list_elem_of_lookup_2.
  - apply (IH i j); [done|lia|done..].
Qed.

(** [np.argsort] returns every position once. *)
Lemma np_argsort_perm (keys : list Z) : np_argsort keys ≡ₚ seq 0 (length keys).
Proof.
  unfold np_argsort. rewrite foldl_insert_perm, app_nil_r.
  by rewrite snd_zip by (by rewrite length_seq).
Qed.

(** Reading the rows at the positions [np.argsort] returns gives them in
    ascending key order. *)
Lemma np_argsort_sorted (d : Z * Z) (rows : list (Z * Z)) :
  sorted_by_key ((λ p, default d (rows !! p)) <$> np_argsort (fst <$> rows)).
Proof.
  unfold np_argsort.
  set (pairs := foldl _ _ _).
  assert (keys_ascend pairs) as Hsorted by (by apply foldl_insert_sorted).
  assert (∀ kp, kp ∈ pairs → (default d (rows !! kp.2)).1 = kp.1) as Hkeys.
  { intros [k p]. unfold pairs. rewrite foldl_insert_perm, app_nil_r.
    intros [i Hi]%list_elem_of_lookup. apply lookup_zip_with_Some in Hi
      as (k' & p' & [= <- <-] & Hk & Hp).
    apply lookup_seq in Hp as [-> _]. rewrite list_lookup_fmap in Hk. cbn in *.
    by destruct (rows !! i) as [[]|]; simplify_eq/=. }
  clearbody pairs. intros i j p q Hij.
  rewrite <- list_fmap_compose, !list_lookup_fmap.
  destruct (pairs !! i) as [a|] eqn:Ha; [|done].
  destruct (pairs !! j) as [b|] eqn:Hb; [|done].
  cbn. intros [= <-] [= <-].
  rewrite (Hkeys a), (Hkeys b) by (by eapply list_elem_of_lookup_2).
  by eapply keys_ascend_lookup.
Qed.

End ArgSort.

(** Reading the rows at the positions [np.argsort] returns gives every row
    once. *)
Lemma np_argsort_rows_perm (d : Z * Z) (rows : list (Z * Z)) :
  (λ p, default d (rows !! p)) <$> np_argsort (fst <$> rows) ≡ₚ rows.
Proof. rewrite np_argsort_perm, length_fmap. by rewrite fmap_lookup_seq. Qed.

(** With flags that do not outnumber the index rows, [get_chunk_loader]
    hands the index rows that have a flag, reordered by [np.argsort], to the
    constructor of the loader. *)
Lemma get_chunk_loader_run (db : Database) (chunk_size : nat)
    (exclude_global : option (list Q)) (flags : list Q) (indices : list (Z * Z)) :
  global_property db = Some flags → global_indices db = Some indices →
  length flags ≤ length indices →
  let valid := take (length flags) indices in
  get_chunk_loader db chunk_size exclude_global
  = ChunkLoader_init
      ((λ p, default (0, 0)%Z (valid !! p)) <$> np_argsort (fst <$> valid)) chunk_size.
Proof.
  intros Hfl Hix Hlen valid. unfold get_chunk_loader.
  rewrite Hfl, Hix. cbn [of_option rbind exclude_values].
  rewrite rmapM_lookup_seq by lia. cbn [rbind drop]. fold valid.
  rewrite (rmapM_lookup_ok _ (0, 0)%Z); [done|].
  rewrite Forall_forall. intros p. rewrite np_argsort_perm, elem_of_seq.
  rewrite length_fmap. lia.
Qed.

(** X10. With a flag array of at most as many entries as the Global Index
    has rows, and a positive chunk size, [get_chunk_loader] returns a loader
    whose windows, put together, hold each of the index rows that have a flag
    exactly once, in ascending order of the group key. *)
Theorem get_chunk_loader_sorted_snapshot (db : Database) (chunk_size : nat)
    (exclude_global : option (list Q)) (flags : list Q) (indices : list (Z * Z)) :
  global_property db = Some flags → global_indices db = Some indices →
  length flags ≤ length indices → chunk_size ≠ 0 →
  ∃ loader,
    get_chunk_loader db chunk_size exclude_global = Ok loader
    ∧ concat (chunk_indices loader) ≡ₚ take (length flags) indices
    ∧ sorted_by_key (concat (chunk_indices loader)).
Proof.
  intros Hfl Hix Hlen Hw.
  rewrite (get_chunk_loader_run db chunk_size exclude_global flags indices) by done.
  cbv zeta. set (valid := take (length flags) indices).
  destruct (chunk_loader_windows_total
              ((λ p, default (0, 0)%Z (valid !! p)) <$> np_argsort (fst <$> valid))
              chunk_size Hw) as (loader & Hinit & Hcat).
  exists loader. split; [exact Hinit|]. rewrite Hcat.
  split; [apply np_argsort_rows_perm|apply np_argsort_sorted].
Qed.

(** The two records of [store_two], in windows of two. *)
Lemma get_chunk_loader_sorted_snapshot_witness :
  ∃ loader,
    get_chunk_loader store_two 2 default_exclude_loader = Ok loader
    ∧ concat (chunk_indices loader) ≡ₚ take (length [0; 0]%Q) [(3, 0); (5, 0)]%Z
    ∧ sorted_by_key (concat (chunk_indices loader)).
Proof.
  apply (get_chunk_loader_sorted_snapshot store_two 2 default_exclude_loader
           [0; 0]%Q [(3, 0); (5, 0)]%Z).
  - vm_compute. reflexivity.
  - vm_compute. reflexivity.
  - cbn. lia.
  - lia.
Defined.

(** * What a failed insertion leaves behind *)

Global Instance same_flags_preorder : PreOrder same_flags.
Proof.
  split; [by intros db|]. intros db1 db2 db3 H1 H2. unfold same_flags in *. congruence.
Qed.





(** * What an initial reduction writes *)

Lemma rmapM_lookup_Forall2 {A} (e : error) (l : list A) (ps : list nat) (rows : list A) :
  rmapM (λ p, of_option e (l !! p)) ps = Ok rows →
  Forall2 (λ p row, l !! p = Some row) ps rows.
Proof.
  revert rows. induction ps as [|p ps IH]; intros rows; cbn [rmapM].
  - intros [= <-]. constructor.
  - destruct (l !! p) as [x|] eqn:Hx; [|done]. cbn [of_option rbind].
    destruct (rmapM _ ps) as [ys|]; [|done]. cbn [rbind]. intros [= <-].
    constructor; [done|by apply IH].
Qed.

Lemma np_random_choice_Ok (population : list nat) (size : Z) (draw selected : list nat) :
  np_random_choice population size draw = Ok selected → selected = draw.
Proof. unfold np_random_choice. repeat case_bool_decide; congruence. Qed.

Lemma rmapM_raises {A B} (e e' : error) (f : A → result B) (l : list A) :
  (∀ x e', f x = Raise e' → e' = e) → rmapM f l = Raise e' → e' = e.
Proof.
  intros Hf. induction l as [|x l IH]; [done|]. cbn [rmapM].
  destruct (f x) as [y|e0] eqn:Hx; cbn [rbind]; [|intros [= <-]; by eapply Hf].
  destruct (rmapM f l); cbn [rbind]; [done|]. intros [= <-]. by apply IH.
Qed.

Lemma lookup_raises {A} (e e' : error) (l : list A) (p : nat) :
  of_option e (l !! p) = Raise e' → e' = e.
Proof. destruct (l !! p); [done|]. by intros [= <-]. Qed.

Lemma np_random_choice_raises (population : list nat) (size : Z) (draw : list nat) (e : error) :
  np_random_choice population size draw = Raise e → e = ValueError.
Proof. unfold np_random_choice. repeat case_bool_decide; congruence. Qed.

Lemma norm_index_raises (len : nat) (i : Z) (e : error) :
  norm_index len i = Raise e → e = IndexError.
Proof. unfold norm_index. repeat case_bool_decide; congruence. Qed.

Lemma set_coordinates_raises (flags : list Q) (coords : list Z) (value : Q) (e : error) :
  set_coordinates flags coords value = Raise e → e = IndexError.
Proof.
  unfold set_coordinates. destruct (rmapM _ coords) eqn:Hks; [done|].
  cbn [rbind]. intros [= <-]. eapply rmapM_raises; [|exact Hks].
  intros x e'. apply norm_index_raises.
Qed.

(** X12. [create_initial_reduction] writes to the flag array and to the
    reduction of the given name and to nothing else.  When it returns, that
    reduction consists of the one stage 000, whatever it held before, and the
    stage holds the Global Index rows at the drawn positions, in the order of
    the draw; when it raises, the reductions are as they were. *)
Theorem create_initial_reduction_effect (name : string) (fraction : Q) (overwrite : bool)
    (exclude_global : option (list Q)) (draw : list nat) (db : Database) :
  let out := create_initial_reduction name fraction overwrite exclude_global draw db in
  (data out.2 = data db ∧ global_indices out.2 = global_indices db
   ∧ db_size out.2 = db_size db ∧ property_names out.2 = property_names db
   ∧ leaf_structure out.2 = leaf_structure db)
  ∧ match out.1 with
    | Ok _ =>
        ∃ indices rows,
          global_indices db = Some indices
          ∧ Forall2 (λ p row, indices !! p = Some row) draw rows
          ∧ reductions out.2 = <[name := {["000" := rows]}]> (reductions db)
    | Raise _ => reductions out.2 = reductions db
    end.
Proof.
  unfold create_initial_reduction, create_reduction_group, reduction_array.
  cbv [bind gets lift modify raise ret].
  destruct (global_property db) as [flags|]; [|done]. cbn [of_option].
  destruct (np_random_choice _ _ draw) as [selected|] eqn:Hdraw; [|done].
  apply np_random_choice_Ok in Hdraw as ->.
  destruct (global_indices db) as [indices|] eqn:Hix; [|done]. cbn [of_option].
  destruct (rmapM _ draw) as [rows|] eqn:Hrows; [|done].
  apply rmapM_lookup_Forall2 in Hrows.
  destruct (set_coordinates _ _ _) as [flags'|]; [|done].
  cbn [reductions set_global_property].
  assert (∀ r : gmap string (gmap string (list (Z * Z))),
            <[name := <["000" := rows]> (∅ : gmap string (list (Z * Z)))]> (<[name := ∅]> r)
            = <[name := {["000" := rows]}]> r) as Hins.
  { intros r. by rewrite insert_insert_eq, insert_empty. }
  destruct (reductions db !! name) as [g|] eqn:Hname.
  - destruct overwrite; cbn [fst snd reductions set_reductions set_global_property
                              data global_indices db_size property_names leaf_structure].
    + rewrite lookup_insert_eq, lookup_empty.
      cbn [fst snd reductions set_reductions set_global_property
           data global_indices db_size property_names leaf_structure].
      split; [done|]. exists indices, rows. by rewrite Hins.
    + done.
  - cbn [fst snd reductions set_reductions set_global_property
         data global_indices db_size property_names leaf_structure].
    rewrite lookup_insert_eq, lookup_empty.
    cbn [fst snd reductions set_reductions set_global_property
         data global_indices db_size property_names leaf_structure].
    split; [done|]. exists indices, rows. by rewrite Hins.
Qed.

(** X13. A name that is taken is refused late: with [overwrite=False] and a
    reduction of that name in the store the call never returns, and when it
    raises the error of the group creation the flag array has been written
    exactly as by the same call with [overwrite=True]. *)
Theorem create_initial_reduction_name_taken (name : string) (fraction : Q)
    (exclude_global : option (list Q)) (draw : list nat) (db : Database) :
  let refused := create_initial_reduction name fraction false exclude_global draw db in
  let forced := create_initial_reduction name fraction true exclude_global draw db in
  is_Some (reductions db !! name) →
  (∃ e, refused.1 = Raise e)
  ∧ (refused.1 = Raise ContainsGroupError →
     forced.1 = Ok tt ∧ global_property refused.2 = global_property forced.2).
Proof.
  intros refused forced [g Hname]. subst refused forced.
  unfold create_initial_reduction, create_reduction_group, reduction_array.
  cbv [bind gets lift modify raise ret].
  destruct (global_property db) as [flags|];
    [|simpl; split; [by eexists|intros [=]]].
  cbn [of_option].
  destruct (np_random_choice _ _ draw) as [selected|e] eqn:Hdraw.
  2:{ apply np_random_choice_raises in Hdraw as ->.
      simpl; split; [by eexists|intros [=]]. }
  destruct (global_indices db) as [indices|];
    [|simpl; split; [by eexists|intros [=]]].
  cbn [of_option].
  destruct (rmapM _ selected) as [rows|e] eqn:Hrows.
  2:{ eapply rmapM_raises in Hrows as ->; [|intros x e'; apply lookup_raises].
      simpl; split; [by eexists|intros [=]]. }
  destruct (set_coordinates _ _ _) as [flags'|e] eqn:Hset.
  2:{ apply set_coordinates_raises in Hset as ->.
      simpl; split; [by eexists|intros [=]]. }
  cbn [reductions set_global_property]. rewrite Hname.
  cbn [fst snd reductions set_reductions set_global_property global_property].
  rewrite lookup_insert_eq, lookup_empty.
  split; [by eexists|done].
Qed.

(** The reduction lol exists in the store after it was drawn once. *)
Lemma create_initial_reduction_name_taken_witness :
  let db := (create_initial_reduction "lol" (1 # 2) false default_exclude_reduction [2; 3]
               store_four_h).2 in
  let refused :=
    create_initial_reduction "lol" (1 # 2) false default_exclude_reduction [0; 1] db in
  let forced :=
    create_initial_reduction "lol" (1 # 2) true default_exclude_reduction [0; 1] db in
  (∃ e, refused.1 = Raise e)
  ∧ (refused.1 = Raise ContainsGroupError →
     forced.1 = Ok tt ∧ global_property refused.2 = global_property forced.2).
Proof.
  intros db.
  apply (create_initial_reduction_name_taken "lol" (1 # 2) default_exclude_reduction
           [0; 1] db).
  vm_compute. by eexists.
Defined.

(** * Reading a reduction back *)

Lemma zfill_pretty (n : Z) : zfill 3 (pretty n) = format03 n.
Proof.
  unfold format03, zfill. case_bool_decide as Hn.
  - destruct n as [|p|p]; try lia. cbv zeta.
    change (pretty (Z.neg p)) with (String "-" (pretty (N.pos p))).
    change (pretty (Z.abs (Z.neg p))) with (pretty (N.pos p)).
    cbv iota beta. rewrite bool_decide_eq_true_2 by (by left). done.
  - cbv zeta. assert (pretty n = pretty (Z.to_N n)) as ->.
    { destruct n as [|p|p]; try lia; done. }
    destruct (pretty_N_head (Z.to_N n)) as (c & s & Hs & Hc). rewrite Hs.
    cbv iota beta. rewrite bool_decide_eq_false_2; [done|].
    intros [->| ->]; vm_compute in Hc; by destruct Hc.
Qed.

(** A successful [create_initial_reduction] leaves the one stage 000 under
    the name. *)
Lemma create_initial_reduction_ok (name : string) (fraction : Q) (overwrite : bool)
    (exclude_global : option (list Q)) (draw : list nat) (db db' : Database) (u : unit) :
  create_initial_reduction name fraction overwrite exclude_global draw db = (Ok u, db') →
  ∃ indices rows,
    global_indices db' = Some indices
    ∧ Forall2 (λ p row, indices !! p = Some row) draw rows
    ∧ reductions db' !! name = Some {["000" := rows]}.
Proof.
  unfold create_initial_reduction, create_reduction_group, reduction_array.
  cbv [bind gets lift modify raise ret].
  destruct (global_property db) as [flags|]; [|done]. cbn [of_option].
  destruct (np_random_choice _ _ draw) as [selected|] eqn:Hdraw; [|done].
  apply np_random_choice_Ok in Hdraw as ->.
  destruct (global_indices db) as [indices|] eqn:Hix; [|done]. cbn [of_option].
  destruct (rmapM _ draw) as [rows|] eqn:Hrows; [|done].
  apply rmapM_lookup_Forall2 in Hrows.
  destruct (set_coordinates _ _ _) as [flags'|]; [|done].
  cbn [reductions set_global_property].
  assert (∀ db0, (let (r, db1) :=
                    (Ok (), set_reductions (<[name := ∅]> (reductions db)) db0)
                      : result unit * Database in
                  match r with
                  | Ok _ =>
                      match reductions db1 !! name with
                      | Some g =>
                          match g !! "000" with
                          | Some _ => λ db2, (Raise ContainsArrayError, db2)
                          | None => λ db2,
                              (Ok (), set_reductions
                                        (<[name := <["000" := rows]> g]> (reductions db1)) db2)
                          end
                      | None => λ db2, (Raise KeyError, db2)
                      end db1
                  | Raise e => (Raise e, db1)
                  end) = (Ok u, db') →
                global_indices db0 = Some indices →
                ∃ indices rows0,
                  global_indices db' = Some indices
                  ∧ Forall2 (λ p row, indices !! p = Some row) draw rows0
                  ∧ reductions db' !! name = Some {["000" := rows0]}) as Hcreate.
  { intros db0. cbn [reductions set_reductions].
    rewrite lookup_insert_eq, lookup_empty. intros [= _ <-] Hix0.
    exists indices, rows. cbn [global_indices reductions set_reductions].
    rewrite lookup_insert_eq, insert_empty. done. }
  destruct (reductions db !! name) as [g|]; [destruct overwrite|]; try done;
    intros Hrun; by apply Hcreate in Hrun.
Qed.

(** X14. After a successful [create_initial_reduction], the last reduction
    of that name is the stage just written, and [dump_reduction] of it, asked
    for the last stage, for stage [0] or for stage 000, returns what
    [get_item] with padding returns for the selected index rows, whatever the
    output format; with an empty selection that is an [IndexError]. *)
Theorem dump_reduction_after_create (name : string) (fraction : Q) (overwrite : bool)
    (exclude_global : option (list Q)) (draw : list nat) (db db' : Database) :
  create_initial_reduction name fraction overwrite exclude_global draw db = (Ok tt, db') →
  ∃ indices rows,
    global_indices db' = Some indices
    ∧ Forall2 (λ p row, indices !! p = Some row) draw rows
    ∧ get_last_reduction db' name = Ok rows
    ∧ (∀ output_format stage,
         stage ∈ [StageNone; StageInt 0; StageName "000"] →
         dump_reduction db' name output_format stage = get_item db' (SelBatch rows) true)
    ∧ (draw = [] → get_item db' (SelBatch rows) true = Raise IndexError).
Proof.
  intros (indices & rows & Hix & Hrows & Hred)%create_initial_reduction_ok.
  exists indices, rows. split; [done|]. split; [done|].
  assert (get_last_reduction db' name = Ok rows) as Hlast.
  { unfold get_last_reduction. rewrite Hred. cbn [of_option rbind].
    rewrite map_to_list_singleton. cbn. by rewrite lookup_singleton_eq. }
  split; [done|]. split.
  - intros output_format stage Hstage. unfold dump_reduction.
    repeat (apply elem_of_cons in Hstage as [->|Hstage]).
    + by rewrite Hlast.
    + rewrite Hred. cbn. by rewrite lookup_singleton_eq.
    + rewrite Hred. cbn. by rewrite lookup_singleton_eq.
    + by apply elem_of_nil in Hstage.
  - intros ->. by apply Forall2_nil_inv_l in Hrows as ->.
Qed.

(** Two of the four one-atom records are drawn. *)
Lemma dump_reduction_after_create_witness :
  let db' := (create_initial_reduction "lol" (1 # 2) false default_exclude_reduction [2; 3]
                store_four_h).2 in
  ∃ indices rows,
    global_indices db' = Some indices
    ∧ Forall2 (λ p row, indices !! p = Some row) [2; 3] rows
    ∧ get_last_reduction db' "lol" = Ok rows
    ∧ (∀ output_format stage,
         stage ∈ [StageNone; StageInt 0; StageName "000"] →
         dump_reduction db' "lol" output_format stage = get_item db' (SelBatch rows) true)
    ∧ ([2; 3] = [] → get_item db' (SelBatch rows) true = Raise IndexError).
Proof.
  intros db'.
  apply (dump_reduction_after_create "lol" (1 # 2) false default_exclude_reduction [2; 3]
           store_four_h db').
  vm_compute. reflexivity.
Defined.

(** * The Global Index after insertions *)

Lemma count_size_app (n : nat) (l1 l2 : list nat) :
  count_size n (l1 ++ l2) = count_size n l1 + count_size n l2.
Proof. unfold count_size. by rewrite List.filter_app, length_app. Qed.

Lemma count_size_singleton (n m : nat) :
  count_size n [m] = if decide (n = m) then 1 else 0.
Proof.
  unfold count_size. cbn. case_decide as Hnm.
  - by rewrite (proj2 (Nat.eqb_eq n m) Hnm).
  - by rewrite (proj2 (Nat.eqb_neq n m) Hnm).
Qed.

Lemma expected_index_snoc (sizes : list nat) (n : nat) :
  expected_index (sizes ++ [n])
  = expected_index sizes ++ [(Z.of_nat n, Z.of_nat (count_size n sizes))].
Proof.
  unfold expected_index. rewrite imap_app. f_equal.
  - apply imap_ext. intros i m Hi. cbn. apply lookup_lt_Some in Hi.
    by rewrite take_app_le by lia.
  - cbn. rewrite Nat.add_0_r, take_app_length. done.
Qed.

Lemma length_expected_index (sizes : list nat) :
  length (expected_index sizes) = length sizes.
Proof. unfold expected_index. by rewrite length_imap. Qed.

(** A loop that returns keeps an invariant that each of its rounds keeps. *)
Lemma for_each_ok_inv {A} (I : list A → Database → Prop) (body : A → M unit) (l : list A) :
  (∀ seen x rest db db' u,
     l = seen ++ x :: rest → I seen db → body x db = (Ok u, db') → I (seen ++ [x]) db') →
  ∀ db db' u, I [] db → for_each l body db = (Ok u, db') → I l db'.
Proof.
  intros Hstep.
  assert (∀ rest seen db db' u,
            l = seen ++ rest → I seen db → for_each rest body db = (Ok u, db') →
            I l db') as Hgen.
  { induction rest as [|x rest IH]; intros seen db db' u Hl Hseen Hrun.
    - injection Hrun as _ <-. by rewrite Hl, app_nil_r.
    - cbn [for_each] in Hrun.
      apply bind_run in Hrun as [([] & db1 & Hx & Hrun)|(? & ? & [=])].
      apply (IH (seen ++ [x]) db1 db' u); [by rewrite <- (assoc_L (++))| |done].
      by eapply Hstep. }
  intros db db' u. by apply (Hgen l []).
Qed.

Lemma create_flags_ok (fl : list Q) (db db' : Database) (u : unit) :
  create_flags fl db = (Ok u, db') →
  global_property db = None ∧ db' = set_global_property (Some fl) db.
Proof.
  unfold create_flags, bind, gets, raise, modify.
  destruct (global_property db); [done|]. by intros [= <-].
Qed.

Lemma leaf_array_ok (key : string) (a : ndarray) (db db' : Database) (u : unit) :
  leaf_array key a db = (Ok u, db') →
  ∃ ls, leaf_structure db = Some ls ∧ ls !! key = None
        ∧ db' = set_leaf_structure (Some (<[key := a]> ls)) db.
Proof.
  unfold leaf_array, bind, gets, raise, modify.
  destruct (leaf_structure db) as [ls|]; [|done].
  destruct (ls !! key) eqn:Hkey; [done|]. intros [= <-]. by exists ls.
Qed.

Lemma group_array_ok (g key : string) (a : ndarray) (db db' : Database) (u : unit) :
  group_array g key a db = (Ok u, db') →
  ∃ grp, data db !! g = Some grp ∧ grp !! key = None
         ∧ db' = set_data (<[g := <[key := a]> grp]> (data db)) db.
Proof.
  unfold group_array, bind, gets, raise, modify.
  destruct (data db !! g) as [grp|]; [|done].
  destruct (grp !! key) eqn:Hkey; [done|]. intros [= <-]. by exists grp.
Qed.

Lemma leaf_lookup_ok (key : string) (db db' : Database) (a : ndarray) :
  leaf_lookup key db = (Ok a, db') → db' = db.
Proof. by intros [= _ <-]. Qed.

Lemma group_lookup_ok (g key : string) (db db' : Database) (a : ndarray) :
  group_lookup g key db = (Ok a, db') →
  ∃ grp, data db !! g = Some grp ∧ grp !! key = Some a ∧ db' = db.
Proof.
  intros [= Ha <-]. apply of_option_Ok in Ha.
  destruct (data db !! g) as [grp|]; [|done]. by exists grp.
Qed.

Lemma group_append_ok (g key : string) (value : ndarray) (db db' : Database) (u : unit) :
  group_append g key value db = (Ok u, db') →
  ∃ grp a a',
    data db !! g = Some grp ∧ grp !! key = Some a
    ∧ zarr_append a (reshape1 value) = Ok a'
    ∧ db' = set_data (<[g := <[key := a']> grp]> (data db)) db.
Proof.
  unfold group_append. intros Hrun.
  apply bind_run in Hrun as [(a & ? & (grp & Hg & Ha & ->)%group_lookup_ok & Hrun)
                            |(? & ? & [=])].
  apply bind_run in Hrun as [(a' & ? & [Happ ->]%lift_run & Hrun)|(? & ? & [=])].
  revert Hrun. unfold bind, gets, modify. rewrite Hg. cbn. intros [= <-].
  by exists grp, a, a'.
Qed.

Lemma set_data_group_write (g : string) (grp' : gmap string ndarray) (db : Database) :
  group_write g db (set_data (<[g := grp']> (data db)) db).
Proof.
  repeat split. intros g' Hne. cbn [data set_data]. by rewrite lookup_insert_ne.
Qed.

Lemma nd_get_nd_map (f : Q → Q) (a : nd) (idx : list nat) (v : Q) :
  nd_get a idx = Some v → nd_get (nd_map f a) idx = Some (f v).
Proof.
  revert a. induction idx as [|i idx IH]; intros [x|rows]; cbn; try done.
  - by intros [= ->].
  - change (List.map (nd_map f) rows) with (nd_map f <$> rows).
    rewrite list_lookup_fmap. destruct (rows !! i) as [r|]; [|done]. cbn. apply IH.
Qed.

Lemma norm_index_nat (len loc : nat) : loc < len → norm_index len (Z.of_nat loc) = Ok loc.
Proof.
  intros Hloc. unfold norm_index. cbv zeta.
  rewrite (bool_decide_eq_false_2 (Z.of_nat loc < 0)%Z) by lia.
  rewrite bool_decide_eq_true_2 by lia. by rewrite Nat2Z.id.
Qed.

Lemma placeholder_has_rows (value : ndarray) : has_rows (placeholder value) 1.
Proof. split; [done|]. unfold placeholder. cbn. by destruct (arr_body value). Qed.

Lemma placeholder_holds (value : ndarray) : holds_value (placeholder value) 0 value.
Proof.
  exists (mk_ndarray (arr_dtype value) (arr_shape value)
            (set_topleft (astype (arr_dtype value)) (zeros (arr_shape value))
                         (arr_body value))).
  split; [done|]. split; [done|]. split; [done|].
  intros idx v Hidx Hv _. cbn [arr_body arr_dtype placeholder].
  rewrite <- astype_converted.
  apply nd_get_set_topleft_Some; [done|]. rewrite nd_get_zeros by done. by eexists.
Qed.

Lemma zarr_append_rank (a value a' : ndarray) :
  zarr_append a (reshape1 value) = Ok a' →
  length (arr_shape a') = length (arr_shape a).
Proof.
  unfold zarr_append. destruct (arr_shape a) as [|n s]; [done|].
  cbn [reshape1 arr_shape]. case_bool_decide; [|done]. by intros [= <-].
Qed.

Lemma check_dimensions_rank (template value : ndarray) (n_atoms : nat) :
  check_dimensions template value n_atoms = true →
  length (arr_shape template) = length (arr_shape value).
Proof.
  rewrite check_dimensions_spec. unfold every_differing_axis_rule.
  intros [Hlen _]%andb_true_iff. by apply Nat.eqb_eq.
Qed.

Lemma zarr_append_has_rows (a value a' : ndarray) (c : nat) :
  zarr_append a (reshape1 value) = Ok a' → has_rows a c → has_rows a' (S c).
Proof.
  unfold zarr_append, has_rows. destruct (arr_shape a) as [|n s]; [done|].
  cbn [reshape1 arr_shape]. case_bool_decide; [|done].
  intros [= <-] [[= ->] Hrows]. cbn. rewrite length_app. cbn. split; [f_equal|]; lia.
Qed.

Lemma zarr_append_holds (a value a' : ndarray) (c : nat) :
  zarr_append a (reshape1 value) = Ok a' → has_rows a c → holds_value a' c value.
Proof.
  unfold zarr_append, has_rows. destruct (arr_shape a) as [|n s]; [done|].
  cbn [reshape1 arr_shape]. case_bool_decide as Hs; [|done].
  intros [= <-] [[= ->] Hrows].
  exists (mk_ndarray (arr_dtype a) s (nd_map (astype (arr_dtype a)) (arr_body value))).
  split; [|split; [done|split; [done|]]].
  - unfold read_row. cbn [arr_shape arr_body arr_dtype nd_rows reshape1 List.map].
    rewrite norm_index_nat by lia. cbn [rbind].
    rewrite lookup_app_r by lia. by rewrite Hrows, Nat.sub_diag.
  - intros idx v _ Hv _. cbn [arr_body arr_dtype].
    rewrite <- astype_converted. by apply nd_get_nd_map.
Qed.

(** The loop of [add_instance] over an existing group: each array of the
    schema gets the value of the record as a new row, the others stay. *)
Lemma append_loop_ok (item : record) (g : string) (names : list string)
    (db db' : Database) (u : unit) (grp : gmap string ndarray) :
  for_each names (λ key,
    value <- lift (getitem item key) ;;
    group_append g key value) db = (Ok u, db') →
  NoDup names → data db !! g = Some grp →
  group_write g db db'
  ∧ ∃ grp', data db' !! g = Some grp'
            ∧ (∀ key, key ∉ names → grp' !! key = grp !! key)
            ∧ ∀ key, key ∈ names →
                ∃ a a' value,
                  grp !! key = Some a ∧ getitem item key = Ok value
                  ∧ zarr_append a (reshape1 value) = Ok a' ∧ grp' !! key = Some a'.
Proof.
  intros Hrun Hnodup Hg.
  pose (I := λ (seen : list string) (dbx : Database),
          group_write g db dbx
          ∧ ∃ grpx, data dbx !! g = Some grpx
                    ∧ (∀ key, key ∉ seen → grpx !! key = grp !! key)
                    ∧ ∀ key, key ∈ seen →
                        ∃ a a' value,
                          grp !! key = Some a ∧ getitem item key = Ok value
                          ∧ zarr_append a (reshape1 value) = Ok a'
                          ∧ grpx !! key = Some a').
  apply (for_each_ok_inv I) in Hrun; [done| |].
  - clear db' u Hrun. intros seen x rest dbx db' u Hl (Hw & grpx & Hgx & Hrest & Hseen) Hx.
    apply bind_run in Hx as [(value & ? & [Hval ->]%lift_run & Hx)|(? & ? & [=])].
    apply group_append_ok in Hx as (grp0 & a & a' & Hg0 & Ha & Happ & ->).
    assert (grp0 = grpx) as -> by congruence.
    assert (x ∉ seen) as Hfresh.
    { rewrite Hl in Hnodup. apply NoDup_app in Hnodup as (_ & Hdisj & _).
      intros Hin. apply (Hdisj x Hin). by left. }
    split; [by etrans; [exact Hw|apply set_data_group_write]|].
    exists (<[x := a']> grpx). cbn [data set_data]. rewrite lookup_insert_eq.
    split; [done|]. split.
    + intros key Hkey. rewrite lookup_insert_ne; [apply Hrest|]; set_solver.
    + intros key [Hkey| ->%list_elem_of_singleton]%elem_of_app.
      * destruct (Hseen key Hkey) as (a0 & a0' & value0 & ? & ? & ? & ?).
        exists a0, a0', value0. repeat split; [done..|].
        rewrite lookup_insert_ne; [done|]. by intros ->.
      * exists a, a', value. rewrite lookup_insert_eq.
        rewrite Hrest in Ha by done. done.
  - split; [done|]. exists grp. split; [done|]. split; [done|].
    by intros key ?%elem_of_nil.
Qed.

Lemma leaf_lookup_value (key : string) (db db' : Database) (a : ndarray) :
  leaf_lookup key db = (Ok a, db') → leaf_structure db ≫= (.!! key) = Some a.
Proof. intros [= Ha _]. by apply of_option_Ok in Ha. Qed.

(** The loop of [add_instance] over a new group: each array of the schema is
    created with the value of the record, which passed the check against the
    template, as its one row. *)
Lemma new_group_loop_ok (item : record) (n_atoms : nat) (g : string) (names : list string)
    (db db' : Database) (u : unit) (grp : gmap string ndarray) :
  for_each names (λ key,
    template_array <- leaf_lookup key ;;
    value <- lift (getitem item key) ;;
    if check_dimensions template_array value n_atoms
    then group_array g key (placeholder value)
    else raise AssertionError) db = (Ok u, db') →
  data db !! g = Some grp →
  group_write g db db'
  ∧ ∃ grp', data db' !! g = Some grp'
            ∧ (∀ key, key ∉ names → grp' !! key = grp !! key)
            ∧ ∀ key, key ∈ names →
                ∃ value template,
                  getitem item key = Ok value
                  ∧ grp' !! key = Some (placeholder value)
                  ∧ leaf_structure db ≫= (.!! key) = Some template
                  ∧ check_dimensions template value n_atoms = true.
Proof.
  intros Hrun Hg.
  pose (I := λ (seen : list string) (dbx : Database),
          group_write g db dbx
          ∧ ∃ grpx, data dbx !! g = Some grpx
                    ∧ (∀ key, key ∉ seen → grpx !! key = grp !! key)
                    ∧ ∀ key, key ∈ seen →
                        ∃ value template,
                          getitem item key = Ok value
                          ∧ grpx !! key = Some (placeholder value)
                          ∧ leaf_structure db ≫= (.!! key) = Some template
                          ∧ check_dimensions template value n_atoms = true).
  apply (for_each_ok_inv I) in Hrun; [done| |].
  - clear db' u Hrun. intros seen x rest dbx db' u _ (Hw & grpx & Hgx & Hrest & Hseen) Hx.
    apply bind_run in Hx as [(template & dbx' & Hleaf & Hx)|(? & ? & [=])].
    pose proof (leaf_lookup_value _ _ _ _ Hleaf) as Htemplate.
    apply leaf_lookup_ok in Hleaf as ->.
    apply bind_run in Hx as [(value & ? & [Hval ->]%lift_run & Hx)|(? & ? & [=])].
    destruct (check_dimensions template value n_atoms) eqn:Hcheck; [|done].
    apply group_array_ok in Hx as (grp0 & Hg0 & Hnone & ->).
    assert (grp0 = grpx) as -> by congruence.
    assert (leaf_structure dbx = leaf_structure db) as Hls by apply Hw.
    rewrite Hls in Htemplate.
    split; [by etrans; [exact Hw|apply set_data_group_write]|].
    exists (<[x := placeholder value]> grpx). cbn [data set_data]. rewrite lookup_insert_eq.
    split; [done|]. split.
    + intros key Hkey. rewrite lookup_insert_ne; [apply Hrest|]; set_solver.
    + intros key [Hkey| ->%list_elem_of_singleton]%elem_of_app.
      * destruct (Hseen key Hkey) as (value0 & t0 & ? & Hk & ? & ?).
        exists value0, t0. split; [done|]. split; [|done].
        rewrite lookup_insert_ne; [done|]. intros ->. congruence.
      * exists value, template. by rewrite lookup_insert_eq.
  - split; [done|]. exists grp. split; [done|]. split; [done|].
    by intros key ?%elem_of_nil.
Qed.

(** The loop of [_add_first_element]: a template and an array with the value
    as its one row for each property of the schema, none of which is named
    twice. *)
Lemma first_loop_ok (item : record) (g : string) (names : list string)
    (db db' : Database) (u : unit) :
  for_each names (λ key,
    value <- lift (getitem item key) ;;
    leaf_array key (zeros_like value) ;;;
    group_array g key (placeholder value)) db = (Ok u, db') →
  leaf_structure db = Some ∅ → data db !! g = Some ∅ →
  NoDup names
  ∧ ∃ ls' grp',
      db' = set_data (<[g := grp']> (data db)) (set_leaf_structure (Some ls') db)
      ∧ (∀ key, is_Some (ls' !! key) ↔ key ∈ names)
      ∧ (∀ key, is_Some (grp' !! key) ↔ key ∈ names)
      ∧ ∀ key, key ∈ names →
          ∃ value, getitem item key = Ok value
                   ∧ grp' !! key = Some (placeholder value)
                   ∧ ls' !! key = Some (zeros_like value).
Proof.
  intros Hrun Hls Hg.
  pose (I := λ (seen : list string) (dbx : Database),
          NoDup seen
          ∧ ∃ ls' grp',
              dbx = set_data (<[g := grp']> (data db)) (set_leaf_structure (Some ls') db)
              ∧ (∀ key, is_Some (ls' !! key) ↔ key ∈ seen)
              ∧ (∀ key, is_Some (grp' !! key) ↔ key ∈ seen)
              ∧ ∀ key, key ∈ seen →
                  ∃ value, getitem item key = Ok value
                           ∧ grp' !! key = Some (placeholder value)
                           ∧ ls' !! key = Some (zeros_like value)).
  apply (for_each_ok_inv I) in Hrun; [done| |].
  - clear db' u Hrun.
    intros seen x rest dbx db' u _ (Hnodup & ls' & grp' & -> & Hdom & Hkeys & Hseen) Hx.
    apply bind_run in Hx as [(value & ? & [Hval ->]%lift_run & Hx)|(? & ? & [=])].
    apply bind_run in Hx as [([] & ? & (ls0 & Hls0 & Hnone & ->)%leaf_array_ok & Hx)
                            |(? & ? & [=])].
    cbn [leaf_structure set_data set_leaf_structure] in Hls0. injection Hls0 as <-.
    apply group_array_ok in Hx as (grp0 & Hg0 & Hnone' & ->).
    cbn [data set_data set_leaf_structure] in Hg0.
    rewrite lookup_insert_eq in Hg0. injection Hg0 as <-.
    assert (x ∉ seen) as Hfresh.
    { intros Hin%Hdom. rewrite Hnone in Hin. by destruct Hin. }
    assert (∀ (m : gmap string ndarray) (a : ndarray) key,
              (∀ key, is_Some (m !! key) ↔ key ∈ seen) →
              is_Some (<[x := a]> m !! key) ↔ key ∈ seen ++ [x]) as Hins.
    { intros m a key Hm. rewrite elem_of_app, list_elem_of_singleton, <- Hm.
      destruct (decide (key = x)) as [->|Hne].
      - rewrite lookup_insert_eq. split; [by right|by eexists].
      - rewrite lookup_insert_ne by done. split; [by left|by intros [?|?]]. }
    split.
    { apply NoDup_app. split; [done|]. split; [|apply NoDup_singleton].
      intros y Hy ->%list_elem_of_singleton. done. }
    exists (<[x := zeros_like value]> ls'), (<[x := placeholder value]> grp').
    split; [|split; [|split]].
    + cbn [data set_data set_leaf_structure leaf_structure property_names db_size
           global_indices global_property reductions].
      by rewrite insert_insert_eq.
    + intros key. by apply Hins.
    + intros key. by apply Hins.
    + intros key [Hkey| ->%list_elem_of_singleton]%elem_of_app.
      * destruct (Hseen key Hkey) as (value0 & ? & Hk & Hl). exists value0. split; [done|].
        rewrite !lookup_insert_ne; [done|intros ->; congruence|intros ->; congruence].
      * exists value. by rewrite !lookup_insert_eq.
  - split; [apply NoDup_nil_2|]. exists ∅, ∅. split; [|split; [|split]].
    + destruct db. cbn in *. subst. unfold set_data, set_leaf_structure. cbn.
      f_equal. by rewrite insert_id.
    + intros key. rewrite lookup_empty. split; [by intros []|by intros ?%elem_of_nil].
    + intros key. rewrite lookup_empty. split; [by intros []|by intros ?%elem_of_nil].
    + by intros key ?%elem_of_nil.
Qed.

Lemma create_leaf_structure_ok (db db' : Database) (u : unit) :
  create_leaf_structure db = (Ok u, db') →
  leaf_structure db = None ∧ db' = set_leaf_structure (Some ∅) db.
Proof.
  unfold create_leaf_structure, bind, gets, raise, modify.
  destruct (leaf_structure db); [done|]. by intros [= <-].
Qed.

Lemma py_len_Ok (a : ndarray) (n : nat) : py_len a = Ok n → head (arr_shape a) = Some n.
Proof. apply of_option_Ok. Qed.

(** The first insertion into a fresh store. *)
Lemma add_record_first (item : record) (names0 : option (list string))
    (db' : Database) (u : unit) :
  add_record item (Database_init names0) = (Ok u, db') →
  ∃ n, n_atoms_of item = Some n ∧ store_inv db' [n] [get_flag item]
       ∧ record_stored db' item n 0.
Proof.
  unfold add_record. intros Hrun.
  apply bind_run in Hrun as [(size & ? & [[= ->] ->]%gets_run & Hrun)|(? & ? & [=])].
  cbn [db_size Database_init] in Hrun. rewrite bool_decide_eq_true_2 in Hrun by done.
  unfold _add_first_element in Hrun.
  apply bind_run in Hrun as [(species & ? & [Hsp ->]%lift_run & Hrun)|(? & ? & [=])].
  apply bind_run in Hrun as [(n & ? & [Hlen%py_len_Ok ->]%lift_run & Hrun)|(? & ? & [=])].
  exists n. split; [unfold n_atoms_of; by rewrite Hsp|].
  apply bind_run in Hrun as [([] & ? & [_ ->]%create_indices_ok & Hrun)|(? & ? & [=])].
  apply bind_run in Hrun as [([] & ? & [_ ->]%create_flags_ok & Hrun)|(? & ? & [=])].
  apply bind_run in Hrun as [([] & ? & [_ ->]%create_leaf_structure_ok & Hrun)|(? & ? & [=])].
  apply bind_run in Hrun as [([] & ? & [_ ->]%create_data_group_ok & Hrun)|(? & ? & [=])].
  apply bind_run in Hrun as [(has & ? & [[= ->] ->]%gets_run & Hrun)|(? & ? & [=])].
  apply bind_run in Hrun as [([] & db1 & Hnames & Hrun)|(? & ? & [=])].
  set (g := format03 (Z.of_nat n)) in *.
  assert (∃ names, db1 = mk_db (Some names) 0 {[g := ∅]} (Some [(Z.of_nat n, 0%Z)])
                           (Some [get_flag item]) (Some ∅) ∅) as [names ->].
  { destruct names0 as [names|]; cbn in Hnames; injection Hnames as <-.
    - exists names. unfold set_data, set_leaf_structure, set_global_property,
        set_global_indices, Database_init. cbn. by rewrite insert_empty.
    - exists (keys item). unfold set_property_names, set_data, set_leaf_structure,
        set_global_property, set_global_indices, Database_init. cbn.
      by rewrite insert_empty. }
  apply bind_run in Hrun as [(names' & ? & [[= <-] ->]%get_property_names_ok & Hrun)
                            |(? & ? & [=])].
  apply bind_run in Hrun as [([] & db2 & Hloop & Hrun)|(? & ? & [=])].
  apply first_loop_ok in Hloop as (Hnodup & ls' & grp' & -> & Hdom & Hkeys & Hgrp);
    [|done|by cbn; rewrite lookup_singleton_eq].
  injection Hrun as Hdb. subst db'. clear Hnames.
  unfold store_inv, record_stored.
  cbn [db_size global_indices global_property property_names leaf_structure data
       set_db_size set_data set_leaf_structure].
  split.
  - repeat split; [done..|].
    exists names, ls'. do 3 (split; [done|]). split; [exact Hdom|].
    intros m. destruct (decide (m = n)) as [->|Hne].
    + fold g. rewrite lookup_insert_eq. split; [split; [exact Hkeys|]|].
      * intros key a Ha. rewrite count_size_singleton, decide_True by done.
        destruct (Hgrp key) as (value & _ & Hk & _); [apply Hkeys; by eexists|].
        assert (a = placeholder value) as -> by congruence. apply placeholder_has_rows.
      * intros key a template Ha Ht.
        destruct (Hgrp key) as (value & _ & Hk & Hl); [apply Hkeys; by eexists|].
        assert (a = placeholder value) as -> by congruence.
        assert (template = zeros_like value) as -> by congruence. done.
    + rewrite lookup_insert_ne, lookup_singleton_ne.
      * rewrite count_size_singleton. by rewrite decide_False.
      * unfold g. intros Heq%format03_inj. lia.
      * unfold g. intros Heq%format03_inj. lia.
  - exists names, grp'. split; [done|]. fold g. rewrite lookup_insert_eq. split; [done|].
    intros key Hkey. destruct (Hgrp key Hkey) as (value & Hval & Hk & _).
    exists value, (placeholder value). split; [done|]. split; [done|].
    apply placeholder_holds.
Qed.

(** The group write of [add_instance] on a store with a schema: afterwards
    the group of the record's size has one more row in every array, which
    holds the value of the record. *)
Lemma group_phase_ok (item : record) (n_atoms : nat) (names : list string) (c : nat)
    (ls : gmap string ndarray) (db db' : Database) (u : unit) :
  let group_name := format03 (Z.of_nat n_atoms) in
  match data db !! group_name with
  | None =>
      create_data_group group_name ;;;
      names <- get_property_names ;;
      for_each names (λ key,
        template_array <- leaf_lookup key ;;
        value <- lift (getitem item key) ;;
        if check_dimensions template_array value n_atoms
        then group_array group_name key (placeholder value)
        else raise AssertionError)
  | Some _ =>
      names <- get_property_names ;;
      for_each names (λ key,
        value <- lift (getitem item key) ;;
        group_append group_name key value)
  end db = (Ok u, db') →
  property_names db = Some names → NoDup names → leaf_structure db = Some ls →
  match data db !! group_name with
  | None => c = 0
  | Some grp => group_inv names c grp ∧ group_ranks ls grp
  end →
  group_write group_name db db'
  ∧ ∃ grp', data db' !! group_name = Some grp'
            ∧ group_inv names (S c) grp' ∧ group_ranks ls grp'
            ∧ ∀ key, key ∈ names →
                ∃ value a, getitem item key = Ok value ∧ grp' !! key = Some a
                           ∧ holds_value a c value.
Proof.
  intros g Hrun Hnames Hnodup Hls Hc.
  destruct (data db !! g) as [grp|] eqn:Hg.
  - destruct Hc as [[Hkeys Hrows] Hranks].
    apply bind_run in Hrun as [(names' & ? & [Hn ->]%get_property_names_ok & Hrun)
                              |(? & ? & [=])].
    assert (names' = names) as -> by congruence.
    apply append_loop_ok with (grp := grp) in Hrun as (Hw & grp' & Hg' & Hrest & Hnew);
      [|done..].
    split; [done|]. exists grp'. split; [done|].
    assert (∀ key, is_Some (grp' !! key) ↔ key ∈ names) as Hkeys'.
    { intros key. destruct (decide (key ∈ names)) as [Hin|Hout].
      - destruct (Hnew key Hin) as (a & a' & value & _ & _ & _ & Hk).
        split; [done|by eexists].
      - rewrite Hrest by done. apply Hkeys. }
    split; [split; [done|]|split].
    + intros key a'' Hk. assert (key ∈ names) as Hin by (apply Hkeys'; by eexists).
      destruct (Hnew key Hin) as (a & a' & value & Ha & _ & Happ & Hk').
      assert (a'' = a') as -> by congruence.
      eapply zarr_append_has_rows; [done|]. by eapply Hrows.
    + intros key a'' template Hk Ht.
      assert (key ∈ names) as Hin by (apply Hkeys'; by eexists).
      destruct (Hnew key Hin) as (a & a' & value & Ha & _ & Happ & Hk').
      assert (a'' = a') as -> by congruence.
      rewrite (zarr_append_rank _ _ _ Happ). by eapply Hranks.
    + intros key Hin. destruct (Hnew key Hin) as (a & a' & value & Ha & Hval & Happ & Hk').
      exists value, a'. split; [done|]. split; [done|].
      eapply zarr_append_holds; [done|]. by eapply Hrows.
  - subst c.
    apply bind_run in Hrun as [([] & ? & [_ ->]%create_data_group_ok & Hrun)|(? & ? & [=])].
    apply bind_run in Hrun as [(names' & ? & [Hn ->]%get_property_names_ok & Hrun)
                              |(? & ? & [=])].
    cbn [property_names set_data] in Hn.
    assert (names' = names) as -> by congruence.
    apply new_group_loop_ok with (grp := ∅) in Hrun as (Hw & grp' & Hg' & Hrest & Hnew);
      [|by cbn; rewrite lookup_insert_eq].
    cbn [leaf_structure set_data] in Hnew. rewrite Hls in Hnew.
    split; [etrans; [apply set_data_group_write|exact Hw]|].
    exists grp'. split; [done|].
    assert (∀ key, is_Some (grp' !! key) ↔ key ∈ names) as Hkeys'.
    { intros key. destruct (decide (key ∈ names)) as [Hin|Hout].
      - destruct (Hnew key Hin) as (value & t & _ & Hk & _). split; [done|by eexists].
      - rewrite Hrest, lookup_empty by done. split; [by intros []|done]. }
    split; [split; [done|]|split].
    + intros key a Hk. assert (key ∈ names) as Hin by (apply Hkeys'; by eexists).
      destruct (Hnew key Hin) as (value & t & _ & Hk' & _).
      assert (a = placeholder value) as -> by congruence. apply placeholder_has_rows.
    + intros key a template Hk Ht.
      assert (key ∈ names) as Hin by (apply Hkeys'; by eexists).
      destruct (Hnew key Hin) as (value & t & _ & Hk' & Ht' & Hcheck).
      assert (a = placeholder value) as -> by congruence.
      cbn in Ht'. assert (t = template) as -> by congruence.
      cbn [placeholder arr_shape length]. f_equal. symmetry.
      by eapply check_dimensions_rank.
    + intros key Hin. destruct (Hnew key Hin) as (value & t & Hval & Hk' & _).
      exists value, (placeholder value). split; [done|]. split; [done|].
      apply placeholder_holds.
Qed.

(** A later insertion. *)
Lemma add_record_next (item : record) (db db' : Database) (u : unit)
    (sizes : list nat) (flags : list Q) :
  sizes ≠ [] → store_inv db sizes flags →
  add_record item db = (Ok u, db') →
  ∃ n, n_atoms_of item = Some n
       ∧ store_inv db' (sizes ++ [n]) (flags ++ [get_flag item])
       ∧ record_stored db' item n (count_size n sizes).
Proof.
  intros Hne (Hsize & Hix & Hfl & Hlen & names & ls & Hnames & Hnodup & Hls & Hdom & Hgroups).
  unfold add_record. intros Hrun.
  apply bind_run in Hrun as [(size & ? & [[= ->] ->]%gets_run & Hrun)|(? & ? & [=])].
  rewrite bool_decide_eq_false_2 in Hrun by (rewrite Hsize; by destruct sizes).
  apply bind_run in Hrun as [([] & ? & (fl & Hfl' & ->)%flags_append_ok & Hrun)
                            |(? & ? & [=])].
  assert (fl = flags) as -> by congruence.
  apply bind_run in Hrun as [(species & ? & [Hsp ->]%lift_run & Hrun)|(? & ? & [=])].
  apply bind_run in Hrun as [(n & ? & [Hn%py_len_Ok ->]%lift_run & Hrun)|(? & ? & [=])].
  exists n. split; [unfold n_atoms_of; by rewrite Hsp|].
  apply bind_run in Hrun as [(d & ? & [[= ->] ->]%gets_run & Hrun)|(? & ? & [=])].
  apply bind_run in Hrun as [([] & db3 & Hphase & Hrun)|(? & ? & [=])].
  set (db1 := set_global_property (Some (flags ++ [get_flag item])) db) in *.
  destruct (group_phase_ok item n names (count_size n sizes) ls db1 db3 () Hphase
              Hnames Hnodup Hls (Hgroups n)) as (Hw & grp' & Hg' & Hgrp' & Hranks' & Hheld).
  destruct Hw as [([Hix3 Hsize3] & Hnames3 & Hls3 & _ & Hother) Hfl3].
  apply bind_run in Hrun as [(names' & ? & [Hn' ->]%get_property_names_ok & Hrun)
                            |(? & ? & [=])].
  assert (names' = names) as -> by (rewrite Hnames3 in Hn'; cbn in Hn'; congruence).
  apply bind_run in Hrun as [(first & ? & [Hfirst%of_option_Ok ->]%lift_run & Hrun)
                            |(? & ? & [=])].
  apply bind_run in Hrun as [(a & ? & (grp0 & Hg0 & Ha & ->)%group_lookup_ok & Hrun)
                            |(? & ? & [=])].
  assert (grp0 = grp') as -> by congruence.
  apply bind_run in Hrun as [(len & ? & [Hlen'%py_len_Ok ->]%lift_run & Hrun)
                            |(? & ? & [=])].
  assert (len = S (count_size n sizes)) as ->.
  { destruct Hgrp' as [_ Hrows]. destruct (Hrows first a Ha) as [Hhead _]. congruence. }
  apply bind_run in Hrun as [(size & ? & [[= ->] ->]%gets_run & Hrun)|(? & ? & [=])].
  apply bind_run in Hrun as [([] & ? & [= <-] & Hrun)|(? & ? & [=])].
  apply indices_append_ok in Hrun as (ix & Hix' & ->).
  cbn [global_indices set_db_size] in Hix'. rewrite Hix3 in Hix'.
  cbn [global_indices db1 set_global_property] in Hix'.
  assert (ix = expected_index sizes) as -> by congruence.
  unfold store_inv, record_stored.
  cbn [db_size global_indices global_property property_names leaf_structure data
       set_db_size set_global_indices].
  rewrite Hsize3, Hfl3, Hnames3, Hls3.
  cbn [db_size global_indices global_property property_names leaf_structure data
       db1 set_global_property].
  split; [|by exists names, grp'].
  split; [rewrite length_app; cbn; lia|].
  split.
  { rewrite expected_index_snoc.
    by replace (Z.of_nat (S (count_size n sizes)) - 1)%Z
      with (Z.of_nat (count_size n sizes)) by lia. }
  split; [done|]. split; [rewrite !length_app; cbn; lia|].
  exists names, ls. do 3 (split; [done|]). split; [exact Hdom|].
  intros m. destruct (decide (m = n)) as [->|Hmn].
  - rewrite Hg'. rewrite count_size_app, count_size_singleton, decide_True by done.
    by rewrite Nat.add_1_r.
  - rewrite Hother by (intros Heq%format03_inj; lia).
    cbn [data db1 set_global_property].
    rewrite count_size_app, count_size_singleton, decide_False, Nat.add_0_r by done.
    apply Hgroups.
Qed.

Lemma holds_value_extends (a a' : ndarray) (loc : nat) (value : ndarray) :
  array_extends a a' → holds_value a loc value → holds_value a' loc value.
Proof.
  intros Hext (row & Hread & Hdt & Hcopy).
  exists row. destruct Hext as (Hdtype & Hrest). rewrite Hdtype.
  split; [|done]. eapply read_row_stable; [by split|lia|done].
Qed.

(** A record that is stored stays stored through later insertions. *)
Lemma record_stored_kept (it : item) (db : Database) (r : record) (n loc : nat) :
  db_size db ≠ 0 → record_stored db r n loc →
  record_stored (add_instance it db).2 r n loc.
Proof.
  intros Hsize (names & grp & Hnames & Hg & Hvalues).
  destruct (add_instance_preserves schema_kept add_record_schema_kept it db)
    as (_ & _ & Hschema).
  destruct (Hschema Hsize) as [Hnames' _].
  destruct (add_instance_preserves grows add_record_grows it db) as (_ & _ & Hdata).
  destruct (Hdata _ grp Hg) as (grp' & Hg' & Harr).
  exists names, grp'. split; [congruence|]. split; [done|].
  intros key Hkey. destruct (Hvalues key Hkey) as (value & a & Hval & Ha & Hheld).
  destruct (Harr key a Ha) as (a' & Ha' & Hext).
  exists value, a'. split; [done|]. split; [done|]. by eapply holds_value_extends.
Qed.

Lemma store_state_size (db : Database) (sizes : list nat) (flags : list Q) :
  store_state db sizes flags → db_size db = length sizes.
Proof.
  destruct sizes; [by intros (_ & names & ->)|]. by intros (? & _).
Qed.

Lemma add_record_state (item : record) (db db' : Database) (u : unit)
    (recs : list record) (sizes : list nat) (flags : list Q) :
  store_state db sizes flags →
  length recs = length sizes → records_stored db recs sizes →
  add_record item db = (Ok u, db') →
  ∃ n, n_atoms_of item = Some n
       ∧ store_state db' (sizes ++ [n]) (flags ++ [get_flag item])
       ∧ records_stored db' (recs ++ [item]) (sizes ++ [n]).
Proof.
  intros Hstate Hlen Hstored Hrun.
  assert (∃ n, n_atoms_of item = Some n
               ∧ store_state db' (sizes ++ [n]) (flags ++ [get_flag item])
               ∧ record_stored db' item n (count_size n sizes)) as (n & Hn & Hstate' & Hnew).
  { destruct sizes as [|m sizes].
    - destruct Hstate as (-> & names & ->).
      destruct (add_record_first item names db' u Hrun) as (n & ? & ? & ?).
      by exists n.
    - destruct (add_record_next item db db' u (m :: sizes) flags) as (n & ? & ? & ?);
        [done..|].
      by exists n. }
  exists n. split; [done|]. split; [done|].
  intros i r m Hr Hm.
  destruct (decide (i < length recs)) as [Hi|Hi].
  - rewrite lookup_app_l in Hr by lia. rewrite lookup_app_l in Hm by lia.
    rewrite take_app_le by lia.
    replace db' with (add_instance (Dict item) db).2
      by (cbn [add_instance]; by rewrite Hrun).
    apply record_stored_kept; [|by apply Hstored].
    rewrite (store_state_size _ _ _ Hstate). lia.
  - assert (i = length recs) as ->.
    { apply lookup_lt_Some in Hr. rewrite length_app in Hr. cbn in Hr. lia. }
    rewrite lookup_app_r in Hr by lia. rewrite Hlen in Hm.
    rewrite lookup_app_r in Hm by lia. rewrite Nat.sub_diag in *.
    cbn in Hr, Hm. simplify_eq. by rewrite Hlen, take_app_length.
Qed.

Lemma add_instance_state (it : item) :
  ∀ db db' u recs sizes flags,
    store_state db sizes flags →
    length recs = length sizes → records_stored db recs sizes →
    add_instance it db = (Ok u, db') →
    ∃ sizes',
      Forall2 (λ r n, n_atoms_of r = Some n) (leaf_records it) sizes'
      ∧ store_state db' (sizes ++ sizes') (flags ++ (get_flag <$> leaf_records it))
      ∧ records_stored db' (recs ++ leaf_records it) (sizes ++ sizes').
Proof.
  induction it as [r|l IH|] using item_ind';
    intros db db' u recs sizes flags Hinv Hlen Hstored Hrun.
  - cbn [add_instance leaf_records] in *.
    destruct (add_record_state r db db' u recs sizes flags Hinv Hlen Hstored Hrun)
      as (n & Hn & Hinv' & Hstored').
    exists [n]. split; [by repeat constructor|done].
  - cbn [add_instance leaf_records] in *. revert db recs sizes flags Hinv Hlen Hstored Hrun.
    induction IH as [|x l Hx _ IHl]; intros db recs sizes flags Hinv Hlen Hstored Hrun.
    + injection Hrun as _ <-. exists []. split; [constructor|].
      cbn. by rewrite !app_nil_r.
    + apply bind_run in Hrun as [([] & db1 & Hx' & Hrun)|(? & ? & [=])].
      destruct (Hx db db1 () recs sizes flags Hinv Hlen Hstored Hx')
        as (s1 & Hs1 & Hinv1 & Hstored1).
      destruct (IHl db1 (recs ++ leaf_records x) _ _ Hinv1) as (s2 & Hs2 & Hinv2 & Hstored2);
        [|done..|].
      { rewrite !length_app. by rewrite (Forall2_length _ _ _ Hs1), Hlen. }
      exists (s1 ++ s2). cbn [List.map concat]. split; [by apply Forall2_app|].
      by rewrite fmap_app, !(assoc_L (++)).
  - done.
Qed.

(** What a sequence of successful calls on a fresh store leaves. *)
Lemma add_instances_state (names : option (list string)) (calls : list item)
    (db' : Database) :
  add_instances calls (Database_init names) = (Ok tt, db') →
  ∃ sizes,
    Forall2 (λ r n, n_atoms_of r = Some n) (concat (leaf_records <$> calls)) sizes
    ∧ store_state db' sizes (get_flag <$> concat (leaf_records <$> calls))
    ∧ records_stored db' (concat (leaf_records <$> calls)) sizes.
Proof.
  intros Hrun.
  destruct (add_instance_state (PyList calls) (Database_init names) db' tt [] [] [])
    as (sizes & Hsizes & Hstate & Hstored);
    [by split; [|exists names]|done|by intros i r n ?| |by exists sizes].
  revert Hrun. unfold add_instances. cbn [add_instance].
  assert (for_each calls add_instance
          = (fix loop (l : list item) : M unit :=
               match l with
               | [] => ret ()
               | i :: l' => add_instance i;;; loop l'
               end) calls) as ->; [|done].
  induction calls as [|it calls IH]; [done|]. cbn [for_each]. by rewrite IH.
Qed.



(** X16. After such a sequence that inserted at least one record,
    [get_chunk_loader] with a positive chunk size returns a loader whose
    windows, put together, hold every row of the Global Index exactly once,
    in ascending order of the entity size. *)
Theorem get_chunk_loader_after_insertions (names : option (list string))
    (calls : list item) (db' : Database) (chunk_size : nat)
    (exclude_global : option (list Q)) :
  add_instances calls (Database_init names) = (Ok tt, db') →
  concat (leaf_records <$> calls) ≠ [] → chunk_size ≠ 0 →
  ∃ indices loader,
    global_indices db' = Some indices
    ∧ length indices = length (concat (leaf_records <$> calls))
    ∧ get_chunk_loader db' chunk_size exclude_global = Ok loader
    ∧ concat (chunk_indices loader) ≡ₚ indices
    ∧ sorted_by_key (concat (chunk_indices loader)).
Proof.
  intros (sizes & Hsizes & Hstate & _)%add_instances_state Hne Hw.
  pose proof (Forall2_length _ _ _ Hsizes) as Hlen.
  destruct sizes as [|n sizes]; [by destruct (concat _)|].
  destruct Hstate as (_ & Hix & Hfl & Hlenfl & _).
  exists (expected_index (n :: sizes)). rewrite length_fmap in Hlenfl.
  rewrite (get_chunk_loader_run db' chunk_size exclude_global _ _ Hfl Hix)
    by (rewrite length_expected_index, length_fmap; lia).
  cbv zeta. rewrite firstn_all2 by (rewrite length_expected_index, length_fmap; lia).
  set (indices := expected_index (n :: sizes)).
  destruct (chunk_loader_windows_total
              ((λ p, default (0, 0)%Z (indices !! p)) <$> np_argsort (fst <$> indices))
              chunk_size Hw) as (loader & Hinit & Hcat).
  exists loader. split; [done|].
  split; [unfold indices; by rewrite length_expected_index|].
  split; [exact Hinit|]. rewrite Hcat.
  split; [apply np_argsort_rows_perm|apply np_argsort_sorted].
Qed.

(** The demo's store of two records. *)
Lemma get_chunk_loader_after_insertions_witness :
  let calls := [Dict water; Dict five_atoms] in
  let db' := (add_instances calls (Database_init None)).2 in
  ∃ indices loader,
    global_indices db' = Some indices
    ∧ length indices = length (concat (leaf_records <$> calls))
    ∧ get_chunk_loader db' 2 default_exclude_loader = Ok loader
    ∧ concat (chunk_indices loader) ≡ₚ indices
    ∧ sorted_by_key (concat (chunk_indices loader)).
Proof.
  intros calls db'.
  apply (get_chunk_loader_after_insertions None calls db' 2 default_exclude_loader).
  - vm_compute. reflexivity.
  - done.
  - done.
Defined.

Lemma expected_index_lookup (sizes : list nat) (i n : nat) :
  sizes !! i = Some n →
  expected_index sizes !! i
  = Some (Z.of_nat n, Z.of_nat (count_size n (take i sizes))).
Proof. intros Hn. unfold expected_index. by rewrite list_lookup_imap, Hn. Qed.

(** X17. After a sequence of [add_instance] calls on a fresh store, each
    returning normally, the i-th row of the Global Index points at the i-th
    inserted record: its first entry is the record's entity size, and in the
    group of that size the row with the number given by its second entry
    holds, for every property of the schema, the record's value: it has the
    value's shape and, for every element of the value that can be converted
    to the dtype of the stored array, that element converted. *)
Theorem add_instances_round_trip (names : option (list string)) (calls : list item)
    (db' : Database) (i : nat) (r : record) :
  add_instances calls (Database_init names) = (Ok tt, db') →
  concat (leaf_records <$> calls) !! i = Some r →
  ∃ n loc,
    default [] (global_indices db') !! i = Some (Z.of_nat n, Z.of_nat loc)
    ∧ n_atoms_of r = Some n
    ∧ record_stored db' r n loc.
Proof.
  intros (sizes & Hsizes & Hstate & Hstored)%add_instances_state Hr.
  destruct (Forall2_lookup_l _ _ _ _ _ Hsizes Hr) as (n & Hn & Hsize).
  exists n, (count_size n (take i sizes)).
  split; [|split; [done|by eapply Hstored]].
  destruct sizes as [|m sizes]; [done|].
  destruct Hstate as (_ & -> & _). by apply expected_index_lookup.
Qed.

(** The second water record of three calls. *)
Lemma add_instances_round_trip_witness :
  let calls := [Dict water; PyList [Dict five_atoms; PyList [Dict water]]; PyList []] in
  let db' := (add_instances calls (Database_init None)).2 in
  ∃ n loc,
    default [] (global_indices db') !! 2 = Some (Z.of_nat n, Z.of_nat loc)
    ∧ n_atoms_of water = Some n
    ∧ record_stored db' water n loc.
Proof.
  intros calls db'.
  apply (add_instances_round_trip None calls db' 2 water).
  - vm_compute. reflexivity.
  - reflexivity.
Defined.

(** * Reading a record back *)

Lemma read_rows_single (a : ndarray) (i : Z) (row : ndarray) :
  read_row a i = Ok row → read_rows a [i] = Ok (reshape1 row).
Proof.
  unfold read_row, read_rows. destruct (arr_shape a) as [|n s]; [done|].
  cbn [rmapM]. destruct (norm_index n i) as [k|]; [|done]. cbn [rbind].
  destruct (nd_rows (arr_body a) !! k) as [r|]; [|done]. cbn [of_option rbind].
  by intros [= <-].
Qed.

(** The first round of the batch loop of [get_item] collects one block for
    each array of the group. *)
Lemma first_round_blocks (offsets : list Z) (block : ndarray → ndarray)
    (l : list (string * ndarray)) (res : gmap string (list ndarray)) :
  (∀ kv, kv ∈ l → read_rows kv.2 offsets = Ok (block kv.2)) →
  foldl (λ acc (kv : string * ndarray),
           rbind acc (λ res,
           rbind (read_rows kv.2 offsets) (λ block,
             Ok (<[kv.1 := [block]]> res))))
        (Ok res) l
  = Ok (foldl (λ res (kv : string * ndarray), <[kv.1 := [block kv.2]]> res) res l).
Proof.
  revert res. induction l as [|kv l IH]; intros res Hl; [done|].
  cbn [foldl rbind]. rewrite Hl by (by left). cbn [rbind].
  apply IH. intros kv' Hkv'. apply Hl. by right.
Qed.

Lemma foldl_insert_lookup {V W} (f : V → W) (l : list (string * V)) (res : gmap string W)
    (key : string) :
  NoDup l.*1 →
  foldl (λ res (kv : string * V), <[kv.1 := f kv.2]> res) res l !! key
  = match list_find (λ kv, kv.1 = key) l with
    | Some (_, kv) => Some (f kv.2)
    | None => res !! key
    end.
Proof.
  revert res. induction l as [|[k v] l IH]; intros res Hnodup; [done|].
  apply NoDup_cons in Hnodup as [Hk Hnodup]. cbn [foldl list_find fst snd].
  rewrite IH by done. case_decide as Hkey.
  - subst key. cbn. destruct (list_find _ l) as [[j [k' v']]|] eqn:Hfind.
    + apply list_find_Some in Hfind as (Hj & Hk' & _). cbn in Hk'. subst k'.
      destruct Hk. apply list_elem_of_fmap. exists (k, v'). split; [done|].
      by eapply list_elem_of_lookup_2.
    + by rewrite lookup_insert_eq.
  - cbn. destruct (list_find _ l) as [[j [k' v']]|]; cbn; [done|].
    by rewrite lookup_insert_ne.
Qed.

Lemma blocks_of_group {W} (f : ndarray → W) (grp : gmap string ndarray)
    (res : gmap string W) (key : string) :
  foldl (λ res (kv : string * ndarray), <[kv.1 := f kv.2]> res) res (map_to_list grp) !! key
  = match grp !! key with Some a => Some (f a) | None => res !! key end.
Proof.
  rewrite foldl_insert_lookup by apply NoDup_fst_map_to_list.
  destruct (list_find _ (map_to_list grp)) as [[j [k a]]|] eqn:Hfind.
  - apply list_find_Some in Hfind as (Hj & Hk & _). cbn in Hk. subst k.
    apply list_elem_of_lookup_2, elem_of_map_to_list in Hj. by rewrite Hj.
  - destruct (grp !! key) as [a|] eqn:Ha; [|done].
    apply elem_of_map_to_list in Ha.
    eapply list_find_None, Forall_forall in Hfind; [|exact Ha]. done.
Qed.

(** X18. What is inserted is what [get_item] returns: after a sequence of
    [add_instance] calls on a fresh store, each returning normally, the batch
    form of [get_item], asked for the i-th row of the Global Index alone,
    returns a dictionary that holds under indices that row and, under every
    other property of the schema, one block of one row, which is the value of
    the i-th inserted record as it is stored: of the value's shape, and with
    every element that can be converted to the dtype of the stored array,
    converted. *)
Theorem get_item_returns_inserted (names : option (list string)) (calls : list item)
    (db' : Database) (i : nat) (r : record) :
  add_instances calls (Database_init names) = (Ok tt, db') →
  concat (leaf_records <$> calls) !! i = Some r →
  ∃ pair results schema,
    default [] (global_indices db') !! i = Some pair
    ∧ get_item db' (SelBatch [pair]) false = Ok (Grouped results)
    ∧ results !! "indices" = Some [index_array [pair]]
    ∧ property_names db' = Some schema
    ∧ ∀ key, key ∈ schema → key ≠ "indices" →
        ∃ value row,
          getitem r key = Ok value
          ∧ results !! key = Some [reshape1 row]
          ∧ stored_copy row value.
Proof.
  intros (sizes & Hsizes & Hstate & Hstored)%add_instances_state Hr.
  destruct (Forall2_lookup_l _ _ _ _ _ Hsizes Hr) as (n & Hn & Hsize).
  set (loc := count_size n (take i sizes)).
  destruct (Hstored i r n Hr Hn) as (schema & grp & Hschema & Hg & Hvalues). fold loc in Hvalues.
  destruct sizes as [|m sizes]; [done|].
  destruct Hstate as (_ & Hix & _ & _ & schema' & ls & Hschema' & _ & _ & _ & Hgroups).
  assert (schema' = schema) as -> by congruence.
  pose proof (Hgroups n) as Hgrp. rewrite Hg in Hgrp. destruct Hgrp as [[Hkeys _] _].
  exists (Z.of_nat n, Z.of_nat loc).
  set (block := λ a : ndarray,
         match read_row a (Z.of_nat loc) with Ok row => reshape1 row | Raise _ => a end).
  exists (<["indices" := [index_array [(Z.of_nat n, Z.of_nat loc)]]]>
            (foldl (λ res (kv : string * ndarray), <[kv.1 := [block kv.2]]> res)
                   ∅ (map_to_list grp))).
  exists schema.
  split; [rewrite Hix; by apply expected_index_lookup|].
  split.
  - unfold get_item. cbn [fmap list_fmap fst np_unique foldr insert_unique foldl rbind].
    unfold get_item_group. cbn [List.filter fst].
    rewrite bool_decide_eq_true_2 by done. rewrite Hg. cbn [of_option rbind].
    rewrite bool_decide_eq_true_2 by done.
    cbn [fmap list_fmap snd].
    rewrite (first_round_blocks [Z.of_nat loc] block); [done|].
    intros [key a] Hkv%elem_of_map_to_list. cbn [snd].
    destruct (Hvalues key) as (value & a' & _ & Ha' & row & Hread & _);
      [apply Hkeys; by eexists|].
    assert (a' = a) as -> by congruence.
    unfold block. rewrite Hread. by apply read_rows_single.
  - split; [by rewrite lookup_insert_eq|]. split; [done|].
    intros key Hkey Hne.
    destruct (Hvalues key Hkey) as (value & a & Hval & Ha & row & Hread & Hdt & Hcopy).
    exists value, row. split; [done|]. split; [|done].
    rewrite lookup_insert_ne by done.
    rewrite (blocks_of_group (λ a, [block a])), Ha. unfold block. by rewrite Hread.
Qed.

(** The second water record of three calls. *)
Lemma get_item_returns_inserted_witness :
  let calls := [Dict water; PyList [Dict five_atoms; PyList [Dict water]]; PyList []] in
  let db' := (add_instances calls (Database_init None)).2 in
  ∃ pair results schema,
    default [] (global_indices db') !! 2 = Some pair
    ∧ get_item db' (SelBatch [pair]) false = Ok (Grouped results)
    ∧ results !! "indices" = Some [index_array [pair]]
    ∧ property_names db' = Some schema
    ∧ ∀ key, key ∈ schema → key ≠ "indices" →
        ∃ value row,
          getitem water key = Ok value
          ∧ results !! key = Some [reshape1 row]
          ∧ stored_copy row value.
Proof.
  intros calls db'.
  apply (get_item_returns_inserted None calls db' 2 water).
  - vm_compute. reflexivity.
  - reflexivity.
Defined.

(** * Opening an existing store *)

Lemma string_leb_trans (a b c : string) :
  String.leb a b = true → String.leb b c = true → String.leb a c = true.
Proof.
  unfold String.leb. revert b c.
  induction a as [|c1 a IH]; intros [|c2 b] [|c3 c]; cbn [String.compare]; try done.
  unfold Ascii.compare.
  destruct (N.compare_spec (N_of_ascii c1) (N_of_ascii c2)) as [H12|H12|H12];
    destruct (N.compare_spec (N_of_ascii c2) (N_of_ascii c3)) as [H23|H23|H23];
    destruct (N.compare_spec (N_of_ascii c1) (N_of_ascii c3)) as [H13|H13|H13];
    try done; try lia.
  apply IH.
Qed.

Lemma insert_name_perm (x : string) (l : list string) : insert_name x l ≡ₚ x :: l.
Proof.
  induction l as [|y l IH]; [done|]. cbn [insert_name]. destruct (String.leb x y); [done|].
  rewrite IH. apply Permutation_swap.
Qed.

Lemma insert_name_sorted (x : string) (l : list string) :
  names_sorted l → names_sorted (insert_name x l).
Proof.
  induction l as [|y l IH]; cbn [insert_name names_sorted]; [done|].
  intros [Hy Hl]. destruct (String.leb x y) eqn:Hxy; cbn [names_sorted].
  - split; [|done]. constructor; [done|].
    eapply Forall_impl; [exact Hy|]. intros z Hz. by eapply string_leb_trans.
  - split; [|by apply IH]. rewrite insert_name_perm. constructor; [|done].
    destruct (String.leb_total x y) as [Hle|Hle]; congruence.
Qed.

Lemma sorted_names_perm (l : list string) : sorted_names l ≡ₚ l.
Proof.
  induction l as [|x l IH]; [done|]. cbn. by rewrite insert_name_perm, IH.
Qed.

Lemma sorted_names_sorted (l : list string) : names_sorted (sorted_names l).
Proof. induction l as [|x l IH]; [done|]. cbn. by apply insert_name_sorted. Qed.

Lemma group_inv_perm (names names' : list string) (c : nat) (grp : gmap string ndarray) :
  names' ≡ₚ names → group_inv names c grp → group_inv names' c grp.
Proof.
  intros Hperm [Hkeys Hrows]. split; [|done]. intros key. by rewrite Hperm.
Qed.

(** Opening the store again keeps what the insertions established. *)
Lemma load_from_zarr_state (db : Database) (recs : list record) (sizes : list nat)
    (flags : list Q) :
  store_state db sizes flags → records_stored db recs sizes →
  ∃ db', load_from_zarr db = Ok db' ∧ same_store db db'
         ∧ store_state db' sizes flags ∧ records_stored db' recs sizes.
Proof.
  destruct sizes as [|m sizes].
  - intros (-> & names & ->) Hstored. eexists. split; [done|].
    split; [done|]. split; [by split; [|exists None]|].
    intros i r n _ Hn. done.
  - intros (Hsize & Hix & Hfl & Hlen & names & ls & Hnames & Hnodup & Hls & Hdom & Hgroups)
      Hstored.
    unfold load_from_zarr. rewrite Hls, Hix. cbn [of_option rbind].
    eexists. split; [done|]. split; [done|].
    assert (sorted_names (map_to_list ls).*1 ≡ₚ names) as Hperm.
    { rewrite sorted_names_perm. apply NoDup_Permutation; [|done|].
      - apply NoDup_fst_map_to_list.
      - intros key. rewrite <- Hdom. split.
        + intros ([k a] & -> & Hka%elem_of_map_to_list)%list_elem_of_fmap. by eexists.
        + intros [a Ha]. apply list_elem_of_fmap. exists (key, a).
          split; [done|]. by apply elem_of_map_to_list. }
    split.
    + unfold store_state, store_inv.
      cbn [db_size global_indices global_property property_names leaf_structure data].
      split; [by rewrite length_expected_index|]. do 3 (split; [done|]).
      eexists _, ls. split; [done|]. split; [by rewrite Hperm|]. split; [done|].
      split; [intros key; by rewrite Hperm|].
      intros n. specialize (Hgroups n). destruct (data db !! _); [|done].
      destruct Hgroups as [Hinv Hranks]. split; [by eapply group_inv_perm|done].
    + intros i r n Hr Hn.
      destruct (Hstored i r n Hr Hn) as (names' & grp & Hnames' & Hg & Hvalues).
      assert (names' = names) as -> by congruence.
      eexists _, grp. cbn [property_names data]. split; [done|]. split; [done|].
      intros key Hkey. apply Hvalues. by rewrite <- Hperm.
Qed.

(** X19. Opening the store again after a sequence of [add_instance] calls on
    a fresh store that returned normally and inserted a record gives an
    object over the same store with the same record count, whose schema
    consists of the same property names, now in sorted order. *)
Theorem load_from_zarr_after_insertions (names : option (list string))
    (calls : list item) (db : Database) :
  add_instances calls (Database_init names) = (Ok tt, db) →
  concat (leaf_records <$> calls) ≠ [] →
  ∃ db' schema schema',
    load_from_zarr db = Ok db' ∧ same_store db db'
    ∧ Database_len db' = Database_len db
    ∧ property_names db = Some schema ∧ property_names db' = Some schema'
    ∧ schema' ≡ₚ schema ∧ names_sorted schema'.
Proof.
  intros (sizes & Hsizes & Hstate & Hstored)%add_instances_state Hne.
  destruct sizes as [|m sizes];
    [apply Forall2_length in Hsizes; by destruct (concat _)|].
  destruct Hstate as (Hsize & Hix & Hfl & Hlen & schema & ls & Hnames & Hnodup & Hls
                      & Hdom & Hgroups).
  unfold load_from_zarr. rewrite Hls, Hix. cbn [of_option rbind].
  eexists _, schema, _. split; [done|]. split; [done|].
  unfold Database_len. cbn [db_size property_names].
  split; [by rewrite length_expected_index|]. do 2 (split; [done|]).
  split; [|apply sorted_names_sorted].
  rewrite sorted_names_perm. apply NoDup_Permutation; [|done|].
  - apply NoDup_fst_map_to_list.
  - intros key. rewrite <- Hdom. split.
    + intros ([k a] & -> & Hka%elem_of_map_to_list)%list_elem_of_fmap. by eexists.
    + intros [a Ha]. apply list_elem_of_fmap. exists (key, a).
      split; [done|]. by apply elem_of_map_to_list.
Qed.

(** The demo's first step: one record, then the store is opened again. *)
Lemma load_from_zarr_after_insertions_witness :
  let db := (add_instances [Dict water] (Database_init (Some ["species"; "forces"]))).2 in
  ∃ db' schema schema',
    load_from_zarr db = Ok db' ∧ same_store db db'
    ∧ Database_len db' = Database_len db
    ∧ property_names db = Some schema ∧ property_names db' = Some schema'
    ∧ schema' ≡ₚ schema ∧ names_sorted schema'.
Proof.
  intros db.
  apply (load_from_zarr_after_insertions (Some ["species"; "forces"]) [Dict water] db).
  - vm_compute. reflexivity.
  - done.
Defined.

Lemma add_instances_PyList (calls : list item) :
  add_instances calls = add_instance (PyList calls).
Proof.
  unfold add_instances. cbn [add_instance].
  induction calls as [|it calls IH]; [done|]. cbn [for_each]. by rewrite IH.
Qed.

(** X20. Opening the store again between insertions changes nothing for the
    Global Index: after successful calls on a fresh store, a reload, and
    further successful calls on the reloaded object, the record count is
    the number of records inserted over both runs, and the i-th index row
    still points at the i-th of them, as in a single run: at the row of its
    group that holds its values, converted to the dtypes of the stored arrays
    where they can be. *)
Theorem insertions_across_reload (names : option (list string))
    (calls1 calls2 : list item) (db1 db2 db3 : Database) (i : nat) (r : record) :
  add_instances calls1 (Database_init names) = (Ok tt, db1) →
  load_from_zarr db1 = Ok db2 →
  add_instances calls2 db2 = (Ok tt, db3) →
  concat (leaf_records <$> calls1 ++ calls2) !! i = Some r →
  Database_len db3 = length (concat (leaf_records <$> calls1 ++ calls2))
  ∧ ∃ n loc,
      default [] (global_indices db3) !! i = Some (Z.of_nat n, Z.of_nat loc)
      ∧ n_atoms_of r = Some n
      ∧ record_stored db3 r n loc.
Proof.
  intros (sizes1 & Hsizes1 & Hstate1 & Hstored1)%add_instances_state Hload Hrun Hr.
  destruct (load_from_zarr_state db1 _ _ _ Hstate1 Hstored1)
    as (db2' & Hload' & _ & Hstate2 & Hstored2).
  assert (db2' = db2) as -> by congruence.
  rewrite add_instances_PyList in Hrun. rename Hrun into Hrun'.
  destruct (add_instance_state (PyList calls2) db2 db3 tt _ _ _ Hstate2
              (Forall2_length _ _ _ Hsizes1) Hstored2 Hrun')
    as (sizes2 & Hsizes2 & Hstate3 & Hstored3).
  change (leaf_records (PyList calls2)) with (concat (leaf_records <$> calls2)) in *.
  rewrite fmap_app, concat_app in *.
  assert (Forall2 (λ r n, n_atoms_of r = Some n)
            (concat (leaf_records <$> calls1) ++ concat (leaf_records <$> calls2))
            (sizes1 ++ sizes2)) as Hsizes by (by apply Forall2_app).
  split.
  { unfold Database_len. rewrite (store_state_size _ _ _ Hstate3).
    symmetry. by eapply Forall2_length. }
  destruct (Forall2_lookup_l _ _ _ _ _ Hsizes Hr) as (n & Hn & Hsize).
  exists n, (count_size n (take i (sizes1 ++ sizes2))).
  split; [|split; [done|by eapply Hstored3]].
  destruct (sizes1 ++ sizes2) as [|m sizes] eqn:Hall; [done|].
  destruct Hstate3 as (_ & -> & _). by apply expected_index_lookup.
Qed.

(** The demo: a water record, a reload, then both records. *)
Lemma insertions_across_reload_witness :
  let db1 := (add_instances [Dict water] (Database_init (Some ["species"; "forces"]))).2 in
  let db2 := mk_db (Some ["forces"; "species"]) 1 (data db1) (global_indices db1)
               (global_property db1) (leaf_structure db1) (reductions db1) in
  let db3 := (add_instances [Dict water; Dict five_atoms] db2).2 in
  Database_len db3
  = length (concat (leaf_records <$> [Dict water] ++ [Dict water; Dict five_atoms]))
  ∧ ∃ n loc,
      default [] (global_indices db3) !! 1 = Some (Z.of_nat n, Z.of_nat loc)
      ∧ n_atoms_of water = Some n
      ∧ record_stored db3 water n loc.
Proof.
  intros db1 db2 db3.
  apply (insertions_across_reload (Some ["species"; "forces"]) [Dict water]
           [Dict water; Dict five_atoms] db1 db2 db3 1 water).
  - vm_compute. reflexivity.
  - vm_compute. reflexivity.
  - vm_compute. reflexivity.
  - reflexivity.
Defined.

(** * Reading batches *)

Lemma elem_of_insert_unique (x y : Z) (l : list Z) :
  y ∈ insert_unique x l ↔ y = x ∨ y ∈ l.
Proof.
  induction l as [|z l IH]; cbn [insert_unique].
  - rewrite list_elem_of_singleton, elem_of_nil. tauto.
  - repeat case_bool_decide; rewrite ?elem_of_cons, ?IH, ?elem_of_cons;
      [tauto|subst; tauto|tauto].
Qed.

Lemma elem_of_np_unique (y : Z) (l : list Z) : y ∈ np_unique l ↔ y ∈ l.
Proof.
  unfold np_unique. induction l as [|x l IH]; [done|].
  cbn [foldr]. rewrite elem_of_insert_unique, IH, elem_of_cons. tauto.
Qed.

Lemma read_rows_ok (a : ndarray) (c : nat) (offsets : list Z) :
  has_rows a c → (∀ o, o ∈ offsets → (0 ≤ o < Z.of_nat c)%Z) →
  ∃ block, read_rows a offsets = Ok block.
Proof.
  intros [Hhead Hrows] Hoff. unfold read_rows.
  destruct (arr_shape a) as [|n s]; [done|]. injection Hhead as ->.
  assert (∃ rows, rmapM (λ i, rbind (norm_index c i) (λ k,
                    of_option IndexError (nd_rows (arr_body a) !! k))) offsets = Ok rows)
    as [rows ->]; [|by eexists].
  induction offsets as [|o offsets IH]; [by eexists|].
  cbn [rmapM]. destruct (Hoff o ltac:(by left)) as [Hlo Hhi].
  unfold norm_index at 1. cbv zeta.
  rewrite (bool_decide_eq_false_2 (o < 0)%Z) by lia.
  rewrite bool_decide_eq_true_2 by lia. cbn [rbind].
  destruct (lookup_lt_is_Some_2 (nd_rows (arr_body a)) (Z.to_nat o) ltac:(lia)) as [r ->].
  cbn [of_option rbind].
  destruct IH as [rows ->]; [intros o' Ho'; apply Hoff; by right|]. by eexists.
Qed.

(** A later round of the batch loop of [get_item] appends one block to the
    list of each array of the group. *)
Lemma later_round_blocks (offsets : list Z) (block : ndarray → ndarray)
    (l : list (string * ndarray)) (res : gmap string (list ndarray)) :
  (∀ kv, kv ∈ l → read_rows kv.2 offsets = Ok (block kv.2)) →
  (∀ kv, kv ∈ l → is_Some (res !! kv.1)) →
  foldl (λ acc (kv : string * ndarray),
           rbind acc (λ res,
           rbind (read_rows kv.2 offsets) (λ block,
           rbind (of_option KeyError (res !! kv.1)) (λ blocks,
             Ok (<[kv.1 := blocks ++ [block]]> res)))))
        (Ok res) l
  = Ok (foldl (λ res (kv : string * ndarray),
                 alter (λ blocks, blocks ++ [block kv.2]) kv.1 res) res l).
Proof.
  revert res. induction l as [|kv l IH]; intros res Hl Hres; [done|].
  cbn [foldl rbind]. rewrite Hl by (by left). cbn [rbind].
  destruct (Hres kv ltac:(by left)) as [blocks Hblocks]. rewrite Hblocks.
  cbn [of_option rbind].
  assert (<[kv.1 := blocks ++ [block kv.2]]> res
          = alter (λ blocks, blocks ++ [block kv.2]) kv.1 res) as ->.
  { apply map_eq. intros key. destruct (decide (kv.1 = key)) as [<-|Hne].
    - by rewrite lookup_insert_eq, lookup_alter_eq, Hblocks.
    - by rewrite lookup_insert_ne, lookup_alter_ne. }
  apply IH; [intros kv' Hkv'; apply Hl; by right|].
  intros kv' Hkv'. destruct (Hres kv' ltac:(by right)) as [bs Hbs].
  destruct (decide (kv.1 = kv'.1)) as [Heq|Hne].
  - rewrite <- Heq, lookup_alter_eq, Hblocks. by eexists.
  - rewrite lookup_alter_ne by done. by eexists.
Qed.

Lemma foldl_alter_keys {V W} (f : V → W → W) (l : list (string * V)) (res : gmap string W)
    (key : string) :
  is_Some (foldl (λ res (kv : string * V), alter (f kv.2) kv.1 res) res l !! key)
  ↔ is_Some (res !! key).
Proof.
  revert res. induction l as [|kv l IH]; intros res; [done|].
  cbn [foldl]. rewrite IH. destruct (decide (kv.1 = key)) as [<-|Hne].
  - rewrite lookup_alter_eq. by rewrite fmap_is_Some.
  - by rewrite lookup_alter_ne.
Qed.

Lemma foldl_insert_keys {V W} (f : V → W) (l : list (string * V)) (res : gmap string W)
    (key : string) :
  is_Some (foldl (λ res (kv : string * V), <[kv.1 := f kv.2]> res) res l !! key)
  ↔ key ∈ l.*1 ∨ is_Some (res !! key).
Proof.
  revert res. induction l as [|kv l IH]; intros res.
  - cbn. rewrite elem_of_nil. tauto.
  - cbn [foldl]. rewrite IH, fmap_cons, elem_of_cons.
    destruct (decide (kv.1 = key)) as [<-|Hne].
    + rewrite lookup_insert_eq. split; [by intros; left; left|]. intros _. right. by eexists.
    + rewrite lookup_insert_ne by done. split; [tauto|]. intros [[?|?]|?]; by auto.
Qed.

Lemma elem_of_keys_map_to_list {V} (m : gmap string V) (key : string) :
  key ∈ (map_to_list m).*1 ↔ is_Some (m !! key).
Proof.
  split.
  - intros ([k a] & -> & Hka%elem_of_map_to_list)%list_elem_of_fmap. by eexists.
  - intros [a Ha]. apply list_elem_of_fmap. exists (key, a).
    split; [done|]. by apply elem_of_map_to_list.
Qed.

(** One round of the batch loop on a group that holds the rows asked for. *)
Lemma get_item_group_ok (db : Database) (pairs : list (Z * Z))
    (results : gmap string (list ndarray)) (n_atom : Z) (schema : list string)
    (grp : gmap string ndarray) (c : nat) :
  data db !! format03 n_atom = Some grp → group_inv schema c grp →
  (∀ p, p ∈ pairs → p.1 = n_atom → (0 ≤ p.2 < Z.of_nat c)%Z) →
  results = ∅ ∨ (∀ key, is_Some (results !! key) ↔ key = "indices" ∨ key ∈ schema) →
  ∃ results',
    get_item_group db pairs results n_atom = Ok results'
    ∧ ∀ key, is_Some (results' !! key) ↔ key = "indices" ∨ key ∈ schema.
Proof.
  intros Hg [Hkeys Hrows] Hpairs Hres. unfold get_item_group. cbv zeta.
  rewrite Hg. cbn [of_option rbind].
  set (offsets := snd <$> List.filter (λ p : Z * Z, bool_decide (p.1 = n_atom)) pairs).
  set (block := λ a : ndarray,
         match read_rows a offsets with Ok b => b | Raise _ => a end).
  assert (∀ kv, kv ∈ map_to_list grp → read_rows kv.2 offsets = Ok (block kv.2)) as Hread.
  { intros [key a] Hkv%elem_of_map_to_list. cbn [snd]. unfold block.
    destruct (read_rows_ok a c offsets) as [b ->]; [by eapply Hrows| |done].
    intros o ([n o'] & -> & Hp)%list_elem_of_fmap.
    apply list_elem_of_In, filter_In in Hp as [Hp%list_elem_of_In Hn%bool_decide_eq_true].
    by apply (Hpairs _ Hp). }
  destruct Hres as [->|Hres].
  - rewrite bool_decide_eq_true_2 by done.
    rewrite (first_round_blocks offsets block) by done. cbn [rbind].
    eexists. split; [done|]. intros key.
    destruct (decide (key = "indices")) as [->|Hne].
    + rewrite lookup_insert_eq. split; [by left|by eexists].
    + rewrite lookup_insert_ne by done.
      rewrite (foldl_insert_keys (λ a, [block a])), elem_of_keys_map_to_list, Hkeys.
      rewrite lookup_empty. split; [intros [?|[? ?]]; by try right|intros [?|?]; by try left].
  - rewrite bool_decide_eq_false_2.
    2:{ intros Hsize%map_size_empty_iff.
        destruct (proj2 (Hres "indices") ltac:(by left)) as [b Hb].
        by rewrite Hsize in Hb. }
    rewrite (later_round_blocks offsets block); [|done|].
    2:{ intros [key a] Hkv%elem_of_map_to_list. cbn [fst]. apply Hres. right.
        apply Hkeys. by eexists. }
    cbn [rbind]. set (res1 := foldl _ results _).
    assert (∀ key, is_Some (res1 !! key) ↔ key = "indices" ∨ key ∈ schema) as Hres1.
    { intros key. unfold res1.
      rewrite (foldl_alter_keys (λ a blocks, blocks ++ [block a])). apply Hres. }
    destruct (proj2 (Hres1 "indices") ltac:(by left)) as [b ->]. cbn [of_option rbind].
    eexists. split; [done|]. intros key.
    destruct (decide (key = "indices")) as [->|Hne].
    + rewrite lookup_insert_eq. split; [by left|by eexists].
    + rewrite lookup_insert_ne by done. apply Hres1.
Qed.

Lemma count_size_take (sizes : list nat) (i n : nat) :
  sizes !! i = Some n → count_size n (take i sizes) < count_size n sizes.
Proof.
  intros Hn. rewrite <- (take_drop_middle sizes i n Hn) at 2.
  rewrite count_size_app. change (n :: drop (S i) sizes) with ([n] ++ drop (S i) sizes).
  rewrite count_size_app, count_size_singleton, decide_True by done. lia.
Qed.

Lemma elem_of_expected_index (sizes : list nat) (p : Z * Z) :
  p ∈ expected_index sizes →
  ∃ n loc, p = (Z.of_nat n, Z.of_nat loc) ∧ loc < count_size n sizes.
Proof.
  intros [i Hi]%list_elem_of_lookup. unfold expected_index in Hi.
  rewrite list_lookup_imap in Hi. destruct (sizes !! i) as [n|] eqn:Hn; [|done].
  injection Hi as <-. exists n, (count_size n (take i sizes)).
  split; [done|]. by apply count_size_take.
Qed.

(** On a store that holds records of the sizes [sizes], the batch form of
    [get_item] returns for every non-empty selection of index rows. *)
Lemma get_item_batch_ok (db : Database) (sizes : list nat) (flags : list Q)
    (pairs : list (Z * Z)) :
  store_state db sizes flags →
  pairs ≠ [] → (∀ p, p ∈ pairs → p ∈ expected_index sizes) →
  ∃ results schema,
    get_item db (SelBatch pairs) false = Ok (Grouped results)
    ∧ property_names db = Some schema
    ∧ ∀ key, is_Some (results !! key) ↔ key = "indices" ∨ key ∈ schema.
Proof.
  intros Hstate Hne Hpairs.
  destruct sizes as [|m sizes'] eqn:Hsz.
  { destruct pairs as [|p pairs]; [done|].
    specialize (Hpairs p ltac:(by left)). by apply elem_of_nil in Hpairs. }
  assert (store_inv db (m :: sizes') flags) as Hinv by done.
  rewrite <- Hsz in *. clear Hsz m sizes' Hstate.
  destruct Hinv as (_ & Hix & _ & _ & schema & ls & Hschema & _ & _ & _ & Hgroups).
  assert (∀ groups (results : gmap string (list ndarray)),
            (∀ n_atom, n_atom ∈ groups → n_atom ∈ pairs.*1) →
            results = ∅ ∨ (∀ key, is_Some (results !! key) ↔ key = "indices" ∨ key ∈ schema) →
            ∃ results',
              foldl (λ acc n_atom, rbind acc (λ res, get_item_group db pairs res n_atom))
                    (Ok results) groups = Ok results'
              ∧ (results' = results ∧ groups = []
                 ∨ ∀ key, is_Some (results' !! key) ↔ key = "indices" ∨ key ∈ schema))
    as Hloop.
  { induction groups as [|n_atom groups IH]; intros results Hgroups' Hres.
    - exists results. split; [done|by left].
    - cbn [foldl rbind].
      pose proof (Hgroups' n_atom ltac:(by left)) as Hp.
      apply list_elem_of_fmap in Hp as ([n0 o0] & -> & Hp).
      destruct (elem_of_expected_index _ _ (Hpairs _ Hp)) as (n & loc & [= -> ->] & Hloc).
      cbn [fst]. pose proof (Hgroups n) as Hgrp.
      destruct (data db !! format03 (Z.of_nat n)) as [grp|] eqn:Hg; [|lia].
      destruct (get_item_group_ok db pairs results (Z.of_nat n) schema grp
                  _ Hg (proj1 Hgrp)) as (res1 & -> & Hres1); [|done|].
      { intros p Hp' Hn.
        destruct (elem_of_expected_index _ _ (Hpairs _ Hp')) as (n' & loc' & -> & Hloc').
        cbn [fst snd] in *. assert (n' = n) as -> by lia. lia. }
      destruct (IH res1) as (results' & -> & Hres');
        [intros n' Hn'; apply Hgroups'; by right|by right|].
      exists results'. split; [done|]. right.
      destruct Hres' as [[-> _]|?]; done. }
  destruct pairs as [|p pairs]; [done|].
  unfold get_item.
  destruct (Hloop (np_unique ((p :: pairs).*1)) ∅) as (results & Hrun & Hkeys);
    [intros n_atom Hn; by apply elem_of_np_unique|by left|].
  rewrite Hrun. cbn [rbind]. exists results, schema. split; [done|]. split; [done|].
  destruct Hkeys as [[_ Hnil]|Hkeys]; [|done].
  assert (p.1 ∈ np_unique ((p :: pairs).*1)) as Hin by (apply elem_of_np_unique; by left).
  rewrite Hnil in Hin. by apply elem_of_nil in Hin.
Qed.

Lemma store_state_index (db : Database) (sizes : list nat) (flags : list Q) :
  store_state db sizes flags → default [] (global_indices db) = expected_index sizes.
Proof.
  destruct sizes; [by intros (_ & names & ->)|]. by intros (_ & -> & _).
Qed.

(** X21. After a sequence of [add_instance] calls on a fresh store, each
    returning normally, the batch form of [get_item] (without padding)
    returns for every non-empty selection of Global Index rows, in any order
    and with repetitions: it gives a dictionary whose keys are indices and
    the properties of the schema. *)
Theorem get_item_batch_returns (names : option (list string)) (calls : list item)
    (db' : Database) (pairs : list (Z * Z)) :
  add_instances calls (Database_init names) = (Ok tt, db') →
  pairs ≠ [] → (∀ p, p ∈ pairs → p ∈ default [] (global_indices db')) →
  ∃ results schema,
    get_item db' (SelBatch pairs) false = Ok (Grouped results)
    ∧ property_names db' = Some schema
    ∧ ∀ key, is_Some (results !! key) ↔ key = "indices" ∨ key ∈ schema.
Proof.
  intros (sizes & Hsizes & Hstate & _)%add_instances_state Hne Hpairs.
  rewrite (store_state_index _ _ _ Hstate) in Hpairs.
  by eapply get_item_batch_ok.
Qed.

(** Three rows of four, the last group first. *)
Lemma get_item_batch_returns_witness :
  let calls := [Dict water; Dict five_atoms; Dict water; Dict five_atoms] in
  let db' := (add_instances calls (Database_init None)).2 in
  ∃ results schema,
    get_item db' (SelBatch [(5, 1); (3, 0); (5, 0)]%Z) false = Ok (Grouped results)
    ∧ property_names db' = Some schema
    ∧ ∀ key, is_Some (results !! key) ↔ key = "indices" ∨ key ∈ schema.
Proof.
  intros calls db'.
  apply (get_item_batch_returns None calls db' [(5, 1); (3, 0); (5, 0)]%Z).
  - vm_compute. reflexivity.
  - done.
  - intros p Hp.
    assert (default [] (global_indices db') = [(3, 0); (5, 0); (3, 1); (5, 1)]%Z) as ->
      by (vm_compute; reflexivity).
    repeat (apply elem_of_cons in Hp as [->|Hp]);
      [by do 3 right; left|by left|by right; left|by apply elem_of_nil in Hp].
Defined.

Lemma elem_of_concat_lookup {A} (ls : list (list A)) (i : nat) (l : list A) (x : A) :
  ls !! i = Some l → x ∈ l → x ∈ concat ls.
Proof.
  intros Hl Hx. rewrite <- (take_drop_middle ls i l Hl), concat_app. cbn [concat].
  rewrite !elem_of_app. right. by left.
Qed.

(** X22. After such a sequence that inserted at least one record, every
    window of the loader that [get_chunk_loader] returns for a positive chunk
    size can be read: indexing the loader with the number of a window returns
    the dictionary of [get_item] for that window. *)
Theorem chunk_loader_reads_every_window (names : option (list string))
    (calls : list item) (db' : Database) (chunk_size : nat)
    (exclude_global : option (list Q)) :
  add_instances calls (Database_init names) = (Ok tt, db') →
  concat (leaf_records <$> calls) ≠ [] → chunk_size ≠ 0 →
  ∃ loader,
    get_chunk_loader db' chunk_size exclude_global = Ok loader
    ∧ ∀ i, i < ChunkLoader_len loader →
        ∃ results, ChunkLoader_getitem loader db' (Z.of_nat i) = Ok (Grouped results).
Proof.
  intros (sizes & Hsizes & Hstate & _)%add_instances_state Hne Hw.
  pose proof (Forall2_length _ _ _ Hsizes) as Hlen.
  assert (store_inv db' sizes (get_flag <$> concat (leaf_records <$> calls))) as Hinv.
  { destruct sizes; [by destruct (concat _)|done]. }
  destruct Hinv as (_ & Hix & Hfl & Hlenfl & _).
  rewrite (get_chunk_loader_run db' chunk_size exclude_global _ _ Hfl Hix)
    by (rewrite length_expected_index; lia).
  cbv zeta. rewrite firstn_all2 by (rewrite length_expected_index; lia).
  set (indices := expected_index sizes).
  set (sorted := (λ p, default (0, 0)%Z (indices !! p)) <$> np_argsort (fst <$> indices)).
  assert (sorted ≡ₚ indices) as Hperm by apply np_argsort_rows_perm.
  assert (sorted ≠ []) as Hsorted.
  { intros Hnil. rewrite Hnil in Hperm. apply Permutation_nil_l in Hperm.
    apply (f_equal length) in Hperm. unfold indices in Hperm.
    rewrite length_expected_index in Hperm. destruct (concat _); [done|].
    cbn in *. lia. }
  destruct (chunk_loader_windows sorted chunk_size Hw Hsorted)
    as (loader & Hinit & _ & Hcat & Hlens).
  exists loader. split; [exact Hinit|]. intros i Hi.
  unfold ChunkLoader_getitem. unfold ChunkLoader_len in Hi.
  rewrite norm_index_nat by done. cbn [rbind].
  destruct (lookup_lt_is_Some_2 _ _ Hi) as [chunk Hchunk]. rewrite Hchunk.
  cbn [of_option rbind].
  destruct (get_item_batch_ok db' sizes _ chunk Hstate) as (results & _ & Hget & _);
    [| |by exists results].
  - pose proof (Hlens i chunk Hchunk) as Hl.
    assert (0 < length chunk); [|by destruct chunk; cbn in *; [lia|]].
    rewrite Hl. repeat case_decide; lia.
  - intros p Hp. fold indices. rewrite <- Hperm, <- Hcat.
    by eapply elem_of_concat_lookup.
Qed.

(** Four records in windows of three. *)
Lemma chunk_loader_reads_every_window_witness :
  let calls := [Dict water; Dict five_atoms; Dict water; Dict five_atoms] in
  let db' := (add_instances calls (Database_init None)).2 in
  ∃ loader,
    get_chunk_loader db' 3 default_exclude_loader = Ok loader
    ∧ ∀ i, i < ChunkLoader_len loader →
        ∃ results, ChunkLoader_getitem loader db' (Z.of_nat i) = Ok (Grouped results).
Proof.
  intros calls db'.
  apply (chunk_loader_reads_every_window None calls db' 3 default_exclude_loader).
  - vm_compute. reflexivity.
  - done.
  - done.
Defined.

(** * Reading with padding *)

Lemma read_rows_rank (a : ndarray) (offsets : list Z) (b : ndarray) :
  read_rows a offsets = Ok b → length (arr_shape b) = length (arr_shape a).
Proof.
  unfold read_rows. destruct (arr_shape a) as [|n s]; [done|].
  destruct (rmapM _ offsets); [|done]. by intros [= <-].
Qed.

Lemma foldl_alter_lookup {V W} (f : V → W → W) (l : list (string * V)) (res : gmap string W)
    (key : string) :
  NoDup l.*1 →
  foldl (λ res (kv : string * V), alter (f kv.2) kv.1 res) res l !! key
  = match list_find (λ kv, kv.1 = key) l with
    | Some (_, kv) => f kv.2 <$> res !! key
    | None => res !! key
    end.
Proof.
  revert res. induction l as [|[k v] l IH]; intros res Hnodup; [done|].
  apply NoDup_cons in Hnodup as [Hk Hnodup]. cbn [foldl list_find fst snd].
  rewrite IH by done. case_decide as Hkey.
  - subst key. cbn. destruct (list_find _ l) as [[j [k' v']]|] eqn:Hfind.
    + apply list_find_Some in Hfind as (Hj & Hk' & _). cbn in Hk'. subst k'.
      destruct Hk. apply list_elem_of_fmap. exists (k, v'). split; [done|].
      by eapply list_elem_of_lookup_2.
    + by rewrite lookup_alter_eq.
  - cbn. destruct (list_find _ l) as [[j [k' v']]|]; cbn; by rewrite lookup_alter_ne.
Qed.

Lemma appended_blocks_of_group {W} (f : ndarray → W → W) (grp : gmap string ndarray)
    (res : gmap string W) (key : string) :
  foldl (λ res (kv : string * ndarray), alter (f kv.2) kv.1 res) res (map_to_list grp) !! key
  = match grp !! key with Some a => f a <$> res !! key | None => res !! key end.
Proof.
  rewrite foldl_alter_lookup by apply NoDup_fst_map_to_list.
  destruct (list_find _ (map_to_list grp)) as [[j [k a]]|] eqn:Hfind.
  - apply list_find_Some in Hfind as (Hj & Hk & _). cbn in Hk. subst k.
    apply list_elem_of_lookup_2, elem_of_map_to_list in Hj. by rewrite Hj.
  - destruct (grp !! key) as [a|] eqn:Ha; [|done].
    apply elem_of_map_to_list in Ha.
    eapply list_find_None, Forall_forall in Hfind; [|exact Ha]. done.
Qed.

(** One round of the batch loop, with the ranks of the blocks. *)
Lemma get_item_group_ranked (db : Database) (pairs : list (Z * Z))
    (results : gmap string (list ndarray)) (n_atom : Z) (schema : list string)
    (ls grp : gmap string ndarray) (c : nat) :
  data db !! format03 n_atom = Some grp → group_inv schema c grp → group_ranks ls grp →
  (∀ key, is_Some (ls !! key) ↔ key ∈ schema) → "indices" ∉ schema →
  (∀ p, p ∈ pairs → p.1 = n_atom → (0 ≤ p.2 < Z.of_nat c)%Z) →
  results = ∅ ∨ blocks_ranked schema ls results →
  ∃ results',
    get_item_group db pairs results n_atom = Ok results'
    ∧ blocks_ranked schema ls results'.
Proof.
  intros Hg [Hkeys Hrows] Hranks Hdom Hind Hpairs Hres. unfold get_item_group. cbv zeta.
  rewrite Hg. cbn [of_option rbind].
  set (indices := List.filter (λ p : Z * Z, bool_decide (p.1 = n_atom)) pairs).
  set (offsets := snd <$> indices).
  set (block := λ a : ndarray,
         match read_rows a offsets with Ok b => b | Raise _ => a end).
  assert (∀ kv, kv ∈ map_to_list grp → read_rows kv.2 offsets = Ok (block kv.2)) as Hread.
  { intros [key a] Hkv%elem_of_map_to_list. cbn [snd]. unfold block.
    destruct (read_rows_ok a c offsets) as [b ->]; [by eapply Hrows| |done].
    intros o ([n o'] & -> & Hp)%list_elem_of_fmap.
    apply list_elem_of_In, filter_In in Hp as [Hp%list_elem_of_In Hn%bool_decide_eq_true].
    by apply (Hpairs _ Hp). }
  assert (∀ key a, grp !! key = Some a →
                   key ≠ "indices"
                   ∧ length (arr_shape (block a)) = block_rank ls key) as Hblock.
  { intros key a Ha.
    assert (key ∈ schema) as Hin by (apply Hkeys; by eexists).
    assert (key ≠ "indices") as Hne by (by intros ->). split; [done|].
    rewrite (read_rows_rank a offsets) by (by apply (Hread (key, a)), elem_of_map_to_list).
    unfold block_rank. rewrite decide_False by done.
    destruct (proj2 (Hdom key) Hin) as [t Ht]. rewrite Ht. cbn. by eapply Hranks. }
  assert (block_rank ls "indices" = 2) as Hrank_ix by done.
  destruct Hres as [->|[Hres Hres_ranks]].
  - rewrite bool_decide_eq_true_2 by done.
    rewrite (first_round_blocks offsets block) by done. cbn [rbind].
    eexists. split; [done|]. split.
    + intros key. destruct (decide (key = "indices")) as [->|Hne].
      * rewrite lookup_insert_eq. split; [by left|by eexists].
      * rewrite lookup_insert_ne by done.
        rewrite (foldl_insert_keys (λ a, [block a])), elem_of_keys_map_to_list, Hkeys.
        rewrite lookup_empty.
        split; [intros [?|[? ?]]; by try right|intros [?|?]; by try left].
    + intros key blocks. destruct (decide (key = "indices")) as [->|Hne].
      * rewrite lookup_insert_eq. intros [= <-]. split; [done|].
        intros b ->%list_elem_of_singleton. done.
      * rewrite lookup_insert_ne by done.
        rewrite (blocks_of_group (λ a, [block a])), lookup_empty.
        destruct (grp !! key) as [a|] eqn:Ha; [|done]. intros [= <-]. split; [done|].
        intros b ->%list_elem_of_singleton. by apply Hblock.
  - rewrite bool_decide_eq_false_2.
    2:{ intros Hsize%map_size_empty_iff.
        destruct (proj2 (Hres "indices") ltac:(by left)) as [b Hb].
        by rewrite Hsize in Hb. }
    rewrite (later_round_blocks offsets block); [|done|].
    2:{ intros [key a] Hkv%elem_of_map_to_list. cbn [fst]. apply Hres. right.
        apply Hkeys. by eexists. }
    cbn [rbind]. set (res1 := foldl _ results _).
    assert (∀ key, res1 !! key
                   = match grp !! key with
                     | Some a => (λ blocks, blocks ++ [block a]) <$> results !! key
                     | None => results !! key
                     end) as Hres1.
    { intros key. unfold res1.
      apply (appended_blocks_of_group (λ a blocks, blocks ++ [block a])). }
    assert (grp !! "indices" = None) as Hno.
    { destruct (grp !! "indices") eqn:Hix; [|done].
      destruct Hind. apply Hkeys. by eexists. }
    destruct (proj2 (Hres "indices") ltac:(by left)) as [ix_blocks Hix].
    rewrite Hres1, Hno, Hix. cbn [of_option rbind].
    eexists. split; [done|]. split.
    + intros key. destruct (decide (key = "indices")) as [->|Hne].
      * rewrite lookup_insert_eq. split; [by left|by eexists].
      * rewrite lookup_insert_ne by done. rewrite Hres1, <- Hres.
        destruct (grp !! key); [by rewrite fmap_is_Some|done].
    + intros key blocks. destruct (decide (key = "indices")) as [->|Hne].
      * rewrite lookup_insert_eq. intros [= <-].
        destruct (Hres_ranks _ _ Hix) as [_ Hix_ranks].
        split; [by destruct ix_blocks|].
        intros b [Hb| ->%list_elem_of_singleton]%elem_of_app; [by apply Hix_ranks|done].
      * rewrite lookup_insert_ne by done. rewrite Hres1.
        destruct (grp !! key) as [a|] eqn:Ha.
        -- destruct (results !! key) as [old|] eqn:Hold; [|done]. cbn. intros [= <-].
           destruct (Hres_ranks _ _ Hold) as [_ Hold_ranks].
           split; [by destruct old|].
           intros b [Hb| ->%list_elem_of_singleton]%elem_of_app;
             [by apply Hold_ranks|by apply Hblock].
        -- apply Hres_ranks.
Qed.

Lemma rmapM_returns {A B} (f : A → result B) (l : list A) :
  (∀ x, x ∈ l → ∃ y, f x = Ok y) →
  ∃ ys, rmapM f l = Ok ys ∧ Forall2 (λ x y, f x = Ok y) l ys.
Proof.
  induction l as [|x l IH]; intros Hl; [exists []; by split|].
  destruct (Hl x ltac:(by left)) as [y Hy].
  destruct IH as (ys & Hys & Hall); [intros x' Hx'; apply Hl; by right|].
  exists (y :: ys). cbn [rmapM]. rewrite Hy. cbn [rbind]. rewrite Hys. cbn [rbind].
  split; [done|by constructor].
Qed.

(** A function that returns on every value of a mapping returns on the
    mapping, with the same keys. *)
Lemma map_result_returns {V W} (f : V → result W) (m : gmap string V) :
  (∀ k v, m !! k = Some v → ∃ w, f v = Ok w) →
  ∃ m', map_result f m = Ok m' ∧ ∀ k, is_Some (m' !! k) ↔ is_Some (m !! k).
Proof.
  intros Hf. unfold map_result.
  destruct (rmapM_returns (λ kv : string * V, rbind (f kv.2) (λ w, Ok (kv.1, w)))
              (map_to_list m)) as (ys & -> & Hall).
  { intros [k v] Hkv%elem_of_map_to_list. destruct (Hf k v Hkv) as [w Hw].
    exists (k, w). cbn. by rewrite Hw. }
  cbn [rbind]. eexists. split; [done|]. intros k.
  assert (ys.*1 = (map_to_list m).*1) as Hkeys.
  { clear Hf. induction Hall as [|[k' v] [k'' w] l l' Hx _ IH]; [done|].
    cbn in *. destruct (f v); [|done]. cbn in Hx. injection Hx as <- <-. by rewrite IH. }
  rewrite <- (elem_of_keys_map_to_list m k), <- Hkeys.
  destruct (list_to_map ys !! k) eqn:Hk.
  - split; [|by eexists]. intros _.
    destruct (decide (k ∈ ys.*1)) as [|Hout]; [done|].
    apply (not_elem_of_list_to_map_1 (M := gmap string)) in Hout. congruence.
  - split; [by intros []|]. intros Hin.
    by apply (not_elem_of_list_to_map_2 (M := gmap string)) in Hk.
Qed.

(** On a store that holds records of the sizes [sizes] and has no property
    named indices, [get_item] with padding returns for every non-empty
    selection of index rows. *)
Lemma get_item_padded_ok (db : Database) (sizes : list nat) (flags : list Q)
    (schema : list string) (pairs : list (Z * Z)) :
  store_state db sizes flags → property_names db = Some schema → "indices" ∉ schema →
  pairs ≠ [] → (∀ p, p ∈ pairs → p ∈ expected_index sizes) →
  ∃ padded,
    get_item db (SelBatch pairs) true = Ok (Padded padded)
    ∧ ∀ key, is_Some (padded !! key) ↔ key = "indices" ∨ key ∈ schema.
Proof.
  intros Hstate Hschema Hind Hne Hpairs.
  destruct sizes as [|m sizes'] eqn:Hsz.
  { destruct pairs as [|p pairs]; [done|].
    specialize (Hpairs p ltac:(by left)). by apply elem_of_nil in Hpairs. }
  assert (store_inv db (m :: sizes') flags) as Hinv by done.
  rewrite <- Hsz in *. clear Hsz m sizes' Hstate.
  destruct Hinv as (_ & Hix & _ & _ & schema' & ls & Hschema' & _ & _ & Hdom & Hgroups).
  assert (schema' = schema) as -> by congruence.
  assert (∀ groups (results : gmap string (list ndarray)),
            (∀ n_atom, n_atom ∈ groups → n_atom ∈ pairs.*1) →
            results = ∅ ∨ blocks_ranked schema ls results →
            ∃ results',
              foldl (λ acc n_atom, rbind acc (λ res, get_item_group db pairs res n_atom))
                    (Ok results) groups = Ok results'
              ∧ (results' = results ∧ groups = [] ∨ blocks_ranked schema ls results'))
    as Hloop.
  { induction groups as [|n_atom groups IH]; intros results Hgroups' Hres.
    - exists results. split; [done|by left].
    - cbn [foldl rbind].
      pose proof (Hgroups' n_atom ltac:(by left)) as Hp.
      apply list_elem_of_fmap in Hp as ([n0 o0] & -> & Hp).
      destruct (elem_of_expected_index _ _ (Hpairs _ Hp)) as (n & loc & [= -> ->] & Hloc).
      cbn [fst]. pose proof (Hgroups n) as Hgrp.
      destruct (data db !! format03 (Z.of_nat n)) as [grp|] eqn:Hg; [|lia].
      destruct Hgrp as [Hgrp Hranks].
      destruct (get_item_group_ranked db pairs results (Z.of_nat n) schema ls grp
                  _ Hg Hgrp Hranks Hdom Hind) as (res1 & -> & Hres1); [|done|].
      { intros p Hp' Hn.
        destruct (elem_of_expected_index _ _ (Hpairs _ Hp')) as (n' & loc' & -> & Hloc').
        cbn [fst snd] in *. assert (n' = n) as -> by lia. lia. }
      destruct (IH res1) as (results' & -> & Hres');
        [intros n' Hn'; apply Hgroups'; by right|by right|].
      exists results'. split; [done|]. right.
      destruct Hres' as [[-> _]|?]; done. }
  destruct pairs as [|p pairs]; [done|].
  unfold get_item.
  destruct (Hloop (np_unique ((p :: pairs).*1)) ∅) as (results & Hrun & Hkeys);
    [intros n_atom Hn; by apply elem_of_np_unique|by left|].
  rewrite Hrun. cbn [rbind].
  destruct Hkeys as [[_ Hnil]|[Hkeys Hranked]].
  { assert (p.1 ∈ np_unique ((p :: pairs).*1)) as Hin by (apply elem_of_np_unique; by left).
    rewrite Hnil in Hin. by apply elem_of_nil in Hin. }
  destruct (map_result_returns (λ v, concatenate_different_arrays v false) results)
    as (padded & -> & Hpadded).
  { intros key blocks Hblocks. destruct (Hranked key blocks Hblocks) as [Hne' Hrank].
    apply (proj1 (concatenate_plain_result blocks)).
    split; [done|]. split.
    - intros b Hb Hnil. specialize (Hrank b Hb). rewrite Hnil in Hrank.
      unfold block_rank in Hrank. case_decide; [done|].
      assert (key ∈ schema) as Hin.
      { destruct (proj1 (Hkeys key) ltac:(by eexists)) as [?|?]; done. }
      destruct (proj2 (Hdom key) Hin) as [t Ht]. by rewrite Ht in Hrank.
    - intros a b Ha Hb. by rewrite (Hrank a), (Hrank b). }
  cbn [rbind]. exists padded. split; [done|]. intros key. by rewrite Hpadded.
Qed.

(** X23. After a sequence of [add_instance] calls on a fresh store, each
    returning normally, with no property named indices in the schema,
    [get_item] with [pad_arrays=True] returns for every non-empty selection
    of Global Index rows: the blocks of the groups can be concatenated, and
    the result has one array under indices and one under every property of
    the schema. *)
Theorem get_item_padded_returns (names : option (list string)) (calls : list item)
    (db' : Database) (schema : list string) (pairs : list (Z * Z)) :
  add_instances calls (Database_init names) = (Ok tt, db') →
  property_names db' = Some schema → "indices" ∉ schema →
  pairs ≠ [] → (∀ p, p ∈ pairs → p ∈ default [] (global_indices db')) →
  ∃ padded,
    get_item db' (SelBatch pairs) true = Ok (Padded padded)
    ∧ ∀ key, is_Some (padded !! key) ↔ key = "indices" ∨ key ∈ schema.
Proof.
  intros (sizes & Hsizes & Hstate & _)%add_instances_state Hschema Hind Hne Hpairs.
  rewrite (store_state_index _ _ _ Hstate) in Hpairs.
  by eapply get_item_padded_ok.
Qed.

(** The demo's padded read of two records of different sizes. *)
Lemma get_item_padded_returns_witness :
  let calls := [Dict water; Dict five_atoms; Dict water; Dict five_atoms] in
  let db' := (add_instances calls (Database_init None)).2 in
  ∃ padded,
    get_item db' (SelBatch [(5, 1); (3, 0)]%Z) true = Ok (Padded padded)
    ∧ ∀ key, is_Some (padded !! key) ↔ key = "indices" ∨ key ∈ ["species"; "forces"].
Proof.
  intros calls db'.
  apply (get_item_padded_returns None calls db' ["species"; "forces"] [(5, 1); (3, 0)]%Z).
  - vm_compute. reflexivity.
  - vm_compute. reflexivity.
  - intros Hin. repeat (apply elem_of_cons in Hin as [Hin|Hin]; [done|]).
    by apply elem_of_nil in Hin.
  - done.
  - intros p Hp.
    assert (default [] (global_indices db') = [(3, 0); (5, 0); (3, 1); (5, 1)]%Z) as ->
      by (vm_compute; reflexivity).
    repeat (apply elem_of_cons in Hp as [->|Hp]);
      [by do 3 right; left|by left|by apply elem_of_nil in Hp].
Defined.

(** * Dumping a reduction *)

Lemma set_coordinates_length (flags : list Q) (coords : list Z) (value : Q)
    (flags' : list Q) :
  set_coordinates flags coords value = Ok flags' → length flags' = length flags.
Proof.
  unfold set_coordinates. destruct (rmapM _ coords) as [ks|]; [|done].
  cbn [rbind]. intros [= <-]. revert flags.
  induction ks as [|k ks IH]; intros flags; [done|].
  cbn [foldl]. by rewrite IH, length_insert.
Qed.

(** A successful [create_initial_reduction] leaves a store that holds the
    same records. *)
Lemma create_initial_reduction_state (name : string) (fraction : Q) (overwrite : bool)
    (exclude_global : option (list Q)) (draw : list nat) (db db' : Database) (u : unit)
    (sizes : list nat) (flags : list Q) :
  create_initial_reduction name fraction overwrite exclude_global draw db = (Ok u, db') →
  store_state db sizes flags →
  property_names db' = property_names db
  ∧ ∃ flags', store_state db' sizes flags'.
Proof.
  intros Hrun Hstate.
  destruct sizes as [|m sizes'] eqn:Hsz.
  { destruct Hstate as (_ & names & ->). done. }
  assert (store_inv db (m :: sizes') flags) as Hinv by done.
  rewrite <- Hsz in *.
  destruct Hinv as (Hsize & Hix & Hfl & Hlen & Hrest).
  revert Hrun. unfold create_initial_reduction, create_reduction_group, reduction_array.
  cbv [bind gets lift modify raise ret]. rewrite Hfl, Hix. cbn [of_option].
  destruct (np_random_choice _ _ draw) as [selected|]; [|done].
  destruct (rmapM _ selected) as [rows|]; [|done].
  destruct (set_coordinates _ _ _) as [flags'|] eqn:Hset; [|done].
  apply set_coordinates_length in Hset.
  cbn [reductions set_global_property].
  assert (∀ db0, property_names db0 = property_names db →
                 store_inv db0 sizes flags' →
                 (let (r, db1) :=
                    (Ok (), set_reductions (<[name := ∅]> (reductions db)) db0)
                      : result unit * Database in
                  match r with
                  | Ok _ =>
                      match reductions db1 !! name with
                      | Some g =>
                          match g !! "000" with
                          | Some _ => λ db2, (Raise ContainsArrayError, db2)
                          | None => λ db2,
                              (Ok (), set_reductions
                                        (<[name := <["000" := rows]> g]> (reductions db1)) db2)
                          end
                      | None => λ db2, (Raise KeyError, db2)
                      end db1
                  | Raise e => (Raise e, db1)
                  end) = (Ok u, db') →
                 property_names db' = property_names db
                 ∧ ∃ flags', store_state db' sizes flags') as Hcreate.
  { intros db0 Hnames Hinv0. cbn [reductions set_reductions].
    rewrite lookup_insert_eq, lookup_empty. intros [= _ <-].
    split; [done|]. exists flags'. rewrite Hsz. rewrite Hsz in Hinv0. exact Hinv0. }
  assert (store_inv (set_global_property (Some flags') db) sizes flags') as Hinv'.
  { split; [done|]. split; [done|]. split; [done|]. split; [congruence|done]. }
  destruct (reductions db !! name) as [g|]; [destruct overwrite|]; try done;
    intros Hrun; by apply Hcreate in Hrun.
Qed.

Lemma dump_reduction_first_stage (db : Database) (name output_format : string)
    (stage : stage_arg) (rows : list (Z * Z)) :
  reductions db !! name = Some {["000" := rows]} →
  stage ∈ [StageNone; StageInt 0; StageName "000"] →
  dump_reduction db name output_format stage = get_item db (SelBatch rows) true.
Proof.
  intros Hred Hstage. unfold dump_reduction, get_last_reduction.
  repeat (apply elem_of_cons in Hstage as [->|Hstage]); rewrite Hred.
  - cbn [of_option rbind]. rewrite map_to_list_singleton. cbn.
    by rewrite lookup_singleton_eq.
  - cbn. by rewrite lookup_singleton_eq.
  - cbn. by rewrite lookup_singleton_eq.
  - by apply elem_of_nil in Hstage.
Qed.

(** X24. A reduction that was just created can be dumped: after a sequence
    of [add_instance] calls on a fresh store, each returning normally, with
    no property named indices, and a [create_initial_reduction] that returns
    with a non-empty draw, [dump_reduction] for the last stage, for stage [0]
    and for stage 000 returns, with one padded array under indices and one
    under every property of the schema. *)
Theorem dump_reduction_returns (names : option (list string)) (calls : list item)
    (db db' : Database) (schema : list string) (name : string) (fraction : Q)
    (overwrite : bool) (exclude_global : option (list Q)) (draw : list nat)
    (output_format : string) (stage : stage_arg) :
  add_instances calls (Database_init names) = (Ok tt, db) →
  property_names db = Some schema → "indices" ∉ schema →
  create_initial_reduction name fraction overwrite exclude_global draw db = (Ok tt, db') →
  draw ≠ [] → stage ∈ [StageNone; StageInt 0; StageName "000"] →
  ∃ padded,
    dump_reduction db' name output_format stage = Ok (Padded padded)
    ∧ ∀ key, is_Some (padded !! key) ↔ key = "indices" ∨ key ∈ schema.
Proof.
  intros (sizes & Hsizes & Hstate & _)%add_instances_state Hschema Hind Hrun Hdraw Hstage.
  destruct (create_initial_reduction_state _ _ _ _ _ _ _ _ _ _ Hrun Hstate)
    as (Hnames & flags' & Hstate').
  apply create_initial_reduction_ok in Hrun as (indices & rows & Hix & Hrows & Hred).
  rewrite (dump_reduction_first_stage _ _ _ _ rows) by done.
  apply (get_item_padded_ok db' sizes flags'); [done|congruence|done| |].
  - apply Forall2_length in Hrows. destruct rows; [by destruct draw|done].
  - intros p [i Hp]%list_elem_of_lookup.
    destruct (Forall2_lookup_r _ _ _ _ _ Hrows Hp) as (pos & _ & Hpos).
    rewrite <- (store_state_index _ _ _ Hstate'), Hix. cbn.
    by eapply list_elem_of_lookup_2.
Qed.

(** Two of four one-atom records are drawn and dumped. *)
Lemma dump_reduction_returns_witness :
  let calls := [Dict (hydrogen None); Dict (hydrogen None);
                Dict (hydrogen None); Dict (hydrogen None)] in
  let db := (add_instances calls (Database_init None)).2 in
  let db' := (create_initial_reduction "lol" (1 # 2) false default_exclude_reduction [2; 3]
                db).2 in
  ∃ padded,
    dump_reduction db' "lol" "json" StageNone = Ok (Padded padded)
    ∧ ∀ key, is_Some (padded !! key) ↔ key = "indices" ∨ key ∈ ["species"; "forces"].
Proof.
  intros calls db db'.
  apply (dump_reduction_returns None calls db db' ["species"; "forces"] "lol" (1 # 2) false
           default_exclude_reduction [2; 3] "json" StageNone).
  - vm_compute. reflexivity.
  - vm_compute. reflexivity.
  - intros Hin. repeat (apply elem_of_cons in Hin as [Hin|Hin]; [done|]).
    by apply elem_of_nil in Hin.
  - vm_compute. reflexivity.
  - done.
  - by left.
Defined.
